(** * AiAgent-PDFExtractor: extraction, structuring and translation stages

    A shallow embedding of [universal_extractor.py], [ai_analyzer.py] and
    [translator.py], and the properties of the catalog pipeline proved on it.

    Conventions of the embedding.
    - A Python [str] is a list of Unicode code points ([list N]).
    - The values that [json.loads] produces are the inductive type [pyval];
      a [dict] keeps its insertion order and is an association list with
      unique keys.
    - Everything the program takes from outside (environment variables, the
      files on disk, the answers of the HTTP and SDK calls) lives in a
      [world]; the answers are a script that the calls consume in order.
    - Statements that can raise are computations in the monad [M]: a state
      monad over [world] whose result is a value or a raised exception.
    - The interpreter's resource limits (recursion depth, the cap on the
      number of digits of an [int] literal) are not modelled. *)

From Stdlib Require Import ZArith NArith List String Ascii Lia Bool.
From stdpp Require Import base option list gmap strings.
Import ListNotations.

Set Default Proof Using "Type".
Set Warnings "-register-all".
Local Open Scope N_scope.

(** ** Python strings *)

Module Py.

Abbreviation char := N (only parsing).
Abbreviation str := (list N) (only parsing).

(** A literal of the program, as code points. Used on ASCII text only. *)
Definition u (s : string) : str :=
  map N_of_ascii (list_ascii_of_string s).

(** The double quote, written by its code so that no literal needs one. *)
Definition dq : char := 34.

(** [requote m s] is the literal [s] with every [m] read as a double quote,
    and [q "{'a': 1}"] reads the apostrophes so: a way to write text that
    holds double quotes. *)
Definition requote (m : char) (s : string) : str :=
  map (fun c => if c =? m then dq else c) (u s).

Definition q (s : string) : str := requote 39 s.

(** The line feed. *)
Definition nl : str := [10].

(** [str.isspace] on one code point, which is also what [\s] matches in a
    [str] pattern of [re]. *)
Definition isspace (c : char) : bool :=
  ((9 <=? c) && (c <=? 13)) || ((28 <=? c) && (c <=? 32))
  || (c =? 133) || (c =? 160) || (c =? 5760)
  || ((8192 <=? c) && (c <=? 8202))
  || (c =? 8232) || (c =? 8233) || (c =? 8239) || (c =? 8287) || (c =? 12288).

Fixpoint lstrip (s : str) : str :=
  match s with
  | c :: t => if isspace c then lstrip t else s
  | [] => []
  end.

Definition rstrip (s : str) : str := rev (lstrip (rev s)).

(** [s.strip()] *)
Definition strip (s : str) : str := rstrip (lstrip s).

(** [s.startswith(p)] *)
Fixpoint startswith (p s : str) : bool :=
  match p, s with
  | [], _ => true
  | a :: p', b :: s' => (a =? b) && startswith p' s'
  | _ :: _, [] => false
  end.

(** [sub in s] on strings *)
Fixpoint contains (sub s : str) : bool :=
  startswith sub s ||
  match s with
  | [] => false
  | _ :: t => contains sub t
  end.

(** [s.lower()]. Only the ASCII capitals are mapped: no other code point
    lowers to an ASCII letter that occurs in the words the program compares
    with, so the comparisons [s.lower() == 'persian'] and
    [s.lower() == 'chinese'] come out the same. *)
Definition lower (s : str) : str :=
  map (fun c => if (65 <=? c) && (c <=? 90) then c + 32 else c) s.

(** [s[:n]] for [n >= 0] *)
Definition slice_to (n : Z) (s : str) : str := firstn (Z.to_nat n) s.

Definition str_eqb (a b : str) : bool := bool_decide (a = b).

(** [str(n)] for an [int] *)
Definition digit_char (d : N) : char := 48 + d.

Fixpoint digits_of (fuel : nat) (n : N) (acc : str) : str :=
  match fuel with
  | O => acc
  | S f =>
      let acc' := digit_char (n mod 10) :: acc in
      if n / 10 =? 0 then acc' else digits_of f (n / 10) acc'
  end.

Definition str_of_N (n : N) : str := digits_of (S (N.to_nat (N.log2 n))) n [].

Definition str_of_Z (z : Z) : str :=
  match z with
  | Zneg p => 45 :: str_of_N (Npos p)
  | _ => str_of_N (Z.to_N z)
  end.

(** [sep.join(parts)] *)
Fixpoint join (sep : str) (parts : list str) : str :=
  match parts with
  | [] => []
  | [p] => p
  | p :: rest => p ++ sep ++ join sep rest
  end.

(** ** Python values *)

Inductive pyval :=
| PNone
| PBool (b : bool)
| PInt (z : Z)
| PFloat (repr : str)
| PStr (s : str)
| PList (l : list pyval)
| PDict (d : list (str * pyval)).

Abbreviation dict := (list (list N * pyval)) (only parsing).

Fixpoint dict_get (k : str) (d : dict) : option pyval :=
  match d with
  | [] => None
  | (k', v) :: t => if str_eqb k k' then Some v else dict_get k t
  end.

(** [d[k] = v]: an existing key keeps its place, a new key goes last. *)
Fixpoint dict_set (k : str) (v : pyval) (d : dict) : dict :=
  match d with
  | [] => [(k, v)]
  | (k', v') :: t =>
      if str_eqb k k' then (k, v) :: t else (k', v') :: dict_set k v t
  end.

(** [dict(pairs)] *)
Definition dict_of_pairs (pairs : list (str * pyval)) : dict :=
  fold_left (fun d kv => dict_set (fst kv) (snd kv) d) pairs [].

Definition dict_keys (d : dict) : list str := map fst d.

End Py.

(** ** [json.loads]

    The grammar of CPython's decoder ([json.decoder], [json.scanner]) in its
    default, strict mode. The recursion is on a fuel that [decode] sets
    above twice the length of the text (a value and the loop around it take
    one unit each for a character read); [PFuel] marks a run that used it
    up, which [scan_never_out_of_fuel] shows not to happen. With [lenient] set, the same grammar also takes one
    comma before the brace or bracket that closes a non-empty object or array:
    that variant is not Python's, it is the reading of "valid JSON except for
    trailing commas" that the repair pass is measured against. *)

Module Json.
Import Py.

Inductive parse (A : Type) :=
| POk (a : A) (rest : str)
| PErr
| PFuel.
Arguments POk {A} a rest.
Arguments PErr {A}.
Arguments PFuel {A}.

(** The whitespace of the decoder: space, tab, line feed, carriage return. *)
Definition is_ws (c : char) : bool :=
  (c =? 32) || (c =? 9) || (c =? 10) || (c =? 13).

Fixpoint skip_ws (s : str) : str :=
  match s with
  | c :: t => if is_ws c then skip_ws t else s
  | [] => []
  end.

Definition is_digit (c : char) : bool := (48 <=? c) && (c <=? 57).

Definition hex_val (c : char) : option N :=
  if is_digit c then Some (c - 48)
  else if (97 <=? c) && (c <=? 102) then Some (c - 87)
  else if (65 <=? c) && (c <=? 70) then Some (c - 55)
  else None.

(** The four hex digits of a [\uXXXX] escape. *)
Definition hex4 (a b c d : char) : option N :=
  match hex_val a, hex_val b, hex_val c, hex_val d with
  | Some x, Some y, Some z, Some w => Some (((x * 16 + y) * 16 + z) * 16 + w)
  | _, _, _, _ => None
  end.

(** The one-letter escapes of a string literal. *)
Definition unescape (c : char) : option char :=
  if c =? 34 then Some 34
  else if c =? 92 then Some 92
  else if c =? 47 then Some 47
  else if c =? 98 then Some 8
  else if c =? 102 then Some 12
  else if c =? 110 then Some 10
  else if c =? 114 then Some 13
  else if c =? 116 then Some 9
  else None.

Definition is_high_surrogate (n : N) : bool := (55296 <=? n) && (n <=? 56319).
Definition is_low_surrogate (n : N) : bool := (56320 <=? n) && (n <=? 57343).

(** [scanstring]: the text after an opening quote, up to and including the
    closing quote. [acc] holds the decoded characters in reverse. *)
Fixpoint scanstring (s : str) (acc : str) : parse str :=
  match s with
  | [] => PErr
  | c :: t =>
      if c =? 34 then POk (rev acc) t
      else if c =? 92 then
        match t with
        | [] => PErr
        | e :: t1 =>
            if e =? 117 then
              match t1 with
              | a :: b :: c1 :: d :: t2 =>
                  match hex4 a b c1 d with
                  | None => PErr
                  | Some hi =>
                      if is_high_surrogate hi then
                        match t2 with
                        | b1 :: b2 :: a' :: b' :: c' :: d' :: t3 =>
                            if (b1 =? 92) && (b2 =? 117) then
                              match hex4 a' b' c' d' with
                              | None => PErr
                              | Some lo =>
                                  if is_low_surrogate lo then
                                    scanstring t3
                                      (65536 + (hi - 55296) * 1024 + (lo - 56320) :: acc)
                                  else scanstring t2 (hi :: acc)
                              end
                            else scanstring t2 (hi :: acc)
                        | _ => scanstring t2 (hi :: acc)
                        end
                      else scanstring t2 (hi :: acc)
                  end
              | _ => PErr
              end
            else
              match unescape e with
              | Some x => scanstring t1 (x :: acc)
              | None => PErr
              end
        end
      else if c <? 32 then PErr
      else scanstring t (c :: acc)
  end.

(** Numbers: an optional minus sign, an integer part (a lone zero, or a
    non-zero digit and more digits), an optional fraction (a dot and digits)
    and an optional exponent (e or E, an optional sign, digits). A fraction
    or exponent that does not complete is left unread. *)
Fixpoint span_digits (s : str) : str * str :=
  match s with
  | c :: t =>
      if is_digit c then let '(ds, r) := span_digits t in (c :: ds, r)
      else ([], s)
  | [] => ([], [])
  end.

Definition int_part (s : str) : option (str * str) :=
  match s with
  | c :: t =>
      if c =? 48 then Some ([c], t)
      else if is_digit c then let '(ds, r) := span_digits t in Some (c :: ds, r)
      else None
  | [] => None
  end.

Definition frac_part (s : str) : str * str :=
  match s with
  | d :: c :: t =>
      if (d =? 46) && is_digit c
      then let '(ds, r) := span_digits t in (d :: c :: ds, r)
      else ([], s)
  | _ => ([], s)
  end.

Definition exp_part (s : str) : str * str :=
  match s with
  | e :: t =>
      if (e =? 101) || (e =? 69) then
        let '(sign, t1) :=
          match t with
          | c :: t' => if (c =? 43) || (c =? 45) then ([c], t') else ([], t)
          | [] => ([], t)
          end in
        match span_digits t1 with
        | ([], _) => ([], s)
        | (ds, r) => (e :: sign ++ ds, r)
        end
      else ([], s)
  | [] => ([], s)
  end.

Definition int_of_digits (ds : str) : Z :=
  fold_left (fun acc c => (acc * 10 + Z.of_N (c - 48))%Z) ds 0%Z.

Definition match_number (s : str) : parse pyval :=
  let '(neg, s1) :=
    match s with
    | c :: t => if c =? 45 then (true, t) else (false, s)
    | [] => (false, s)
    end in
  match int_part s1 with
  | None => PErr
  | Some (ip, r1) =>
      let '(fp, r2) := frac_part r1 in
      let '(ep, r3) := exp_part r2 in
      match fp, ep with
      | [], [] =>
          POk (PInt (if neg then - int_of_digits ip else int_of_digits ip)%Z) r3
      | _, _ => POk (PFloat ((if neg then [45] else []) ++ ip ++ fp ++ ep)) r3
      end
  end.

(** A fixed word at the head of the text. *)
Definition literal (w : string) (v : pyval) (s : str) : option (parse pyval) :=
  if startswith (u w) s then Some (POk v (skipn (length (u w)) s)) else None.

Definition constants (s : str) : parse pyval :=
  match literal "null" PNone s with Some r => r | None =>
  match literal "true" (PBool true) s with Some r => r | None =>
  match literal "false" (PBool false) s with Some r => r | None =>
  match literal "NaN" (PFloat (u "NaN")) s with Some r => r | None =>
  match literal "Infinity" (PFloat (u "Infinity")) s with Some r => r | None =>
  match literal "-Infinity" (PFloat (u "-Infinity")) s with Some r => r | None =>
  match_number s
  end end end end end end.


Definition lift_str (r : parse str) : parse pyval :=
  match r with
  | POk x rest => POk (PStr x) rest
  | PErr => PErr
  | PFuel => PFuel
  end.

(** [lenient && s starts with c]: the closing character right after a
    comma, taken only by the lenient grammar. *)
Definition closes (lenient : bool) (c : char) (s : str) : bool :=
  lenient && match s with x :: _ => x =? c | [] => false end.

(** [scan_once] with the loops of [JSONObject] ([members]) and [JSONArray]
    ([elements]); both loops are entered on the first character that is not
    the closing one and carry the pairs or items read so far, in reverse. *)
Fixpoint scan_once (lenient : bool) (fuel : nat) (s : str) : parse pyval :=
  match fuel with
  | O => PFuel
  | S n =>
      match s with
      | [] => PErr
      | c :: t =>
          if c =? 34 then lift_str (scanstring t [])
          else if c =? 123 then
            match skip_ws t with
            | c' :: t' =>
                if c' =? 125 then POk (PDict []) t'
                else members lenient n (c' :: t') []
            | [] => PErr
            end
          else if c =? 91 then
            match skip_ws t with
            | c' :: t' =>
                if c' =? 93 then POk (PList []) t'
                else elements lenient n (c' :: t') []
            | [] => PErr
            end
          else constants s
      end
  end
with members (lenient : bool) (fuel : nat) (s : str)
       (acc : list (str * pyval)) : parse pyval :=
  match fuel with
  | O => PFuel
  | S n =>
      match s with
      | [] => PErr
      | c :: t =>
          if c =? 34 then
            match scanstring t [] with
            | POk key r =>
                match skip_ws r with
                | c1 :: r1 =>
                    if c1 =? 58 then
                      match scan_once lenient n (skip_ws r1) with
                      | POk v r2 =>
                          match skip_ws r2 with
                          | c2 :: r3 =>
                              if c2 =? 125 then
                                POk (PDict (dict_of_pairs (rev ((key, v) :: acc)))) r3
                              else if c2 =? 44 then
                                if closes lenient 125 (skip_ws r3) then
                                  POk (PDict (dict_of_pairs (rev ((key, v) :: acc))))
                                      (tl (skip_ws r3))
                                else members lenient n (skip_ws r3) ((key, v) :: acc)
                              else PErr
                          | [] => PErr
                          end
                      | PErr => PErr
                      | PFuel => PFuel
                      end
                    else PErr
                | [] => PErr
                end
            | PErr => PErr
            | PFuel => PFuel
            end
          else PErr
      end
  end
with elements (lenient : bool) (fuel : nat) (s : str)
       (acc : list pyval) : parse pyval :=
  match fuel with
  | O => PFuel
  | S n =>
      match scan_once lenient n s with
      | POk v r =>
          match skip_ws r with
          | c2 :: r1 =>
              if c2 =? 93 then POk (PList (rev (v :: acc))) r1
              else if c2 =? 44 then
                if closes lenient 93 (skip_ws r1) then
                  POk (PList (rev (v :: acc))) (tl (skip_ws r1))
                else elements lenient n (skip_ws r1) (v :: acc)
              else PErr
          | [] => PErr
          end
      | PErr => PErr
      | PFuel => PFuel
      end
  end.

(** [JSONDecoder.decode] after the byte-order-mark test of [json.loads]:
    leading whitespace, one value, trailing whitespace, end of text. *)
Definition decode (lenient : bool) (s : str) : option pyval :=
  if startswith [65279] s then None
  else
    match scan_once lenient (S (2 * length s)) (skip_ws s) with
    | POk v rest =>
        match skip_ws rest with
        | [] => Some v
        | _ :: _ => None
        end
    | _ => None
    end.

(** [json.loads(s)] on a text that keeps the decoder within the limits of
    the interpreter ([Limits.loads_within] has those): [None] stands for
    [JSONDecodeError]. *)
Definition loads (s : str) : option pyval := decode false s.

(** Spec side: the text is JSON once a comma before a closing brace or
    bracket is allowed. *)
Definition loads_lenient (s : str) : option pyval := decode true s.

(** ** [json.dumps(v, ensure_ascii=False, indent=2)]

    A float is written with the text it was read from. *)

Definition hex_digit (n : N) : char := if n <? 10 then 48 + n else 87 + n.

Definition escape_char (c : char) : str :=
  if c =? 34 then [92; 34]
  else if c =? 92 then [92; 92]
  else if c =? 10 then [92; 110]
  else if c =? 13 then [92; 114]
  else if c =? 9 then [92; 116]
  else if c =? 8 then [92; 98]
  else if c =? 12 then [92; 102]
  else if c <? 32 then [92; 117; 48; 48; hex_digit (c / 16); hex_digit (c mod 16)]
  else [c].

Definition quote (s : str) : str := 34 :: flat_map escape_char s ++ [34].

Definition indent_at (level : nat) : str := repeat 32 (2 * level).

Definition int_text (z : Z) : str := str_of_Z z.

Fixpoint dumps_at (level : nat) (v : pyval) : str :=
  match v with
  | PNone => u "null"
  | PBool true => u "true"
  | PBool false => u "false"
  | PInt z => int_text z
  | PFloat r => r
  | PStr s => quote s
  | PList [] => u "[]"
  | PList (x :: rest) =>
      [91; 10] ++ indent_at (S level) ++ dumps_at (S level) x
      ++ (fix items (l : list pyval) : str :=
            match l with
            | [] => []
            | y :: l' =>
                [44; 10] ++ indent_at (S level) ++ dumps_at (S level) y ++ items l'
            end) rest
      ++ [10] ++ indent_at level ++ [93]
  | PDict [] => u "{}"
  | PDict ((k, x) :: rest) =>
      [123; 10] ++ indent_at (S level) ++ quote k ++ [58; 32] ++ dumps_at (S level) x
      ++ (fix items (l : list (str * pyval)) : str :=
            match l with
            | [] => []
            | (k', y) :: l' =>
                [44; 10] ++ indent_at (S level) ++ quote k' ++ [58; 32]
                ++ dumps_at (S level) y ++ items l'
            end) rest
      ++ [10] ++ indent_at level ++ [125]
  end.

Definition dumps (v : pyval) : str := dumps_at 0 v.

End Json.

(** ** [json.loads] and the limits of the interpreter

    The grammar above says which texts are JSON and what they denote. The
    decoder of CPython also gives up on two kinds of text, JSON or not: it
    raises [RecursionError] when it meets an opening brace or bracket with
    as many objects and arrays already open as the recursion guard of the
    scanner allows, and [ValueError] when it converts an integer of more
    digits than [sys.get_int_max_str_digits()] allows. Neither is a
    [JSONDecodeError], which is what a text that is not JSON raises, so a
    handler for [JSONDecodeError] lets both pass. The two numbers belong to
    the interpreter at the call; the program sets neither, and the
    definitions below take them as [lim]. *)

Module Limits.
Import Py Json.

(** [max_depth]: how many objects and arrays may be open at once;
    [max_digits]: how many digits an integer may have, 0 for no limit. *)
Record limits := { max_depth : nat; max_digits : nat }.

(** [JSONDecodeError], [RecursionError] and [ValueError]. *)
Inductive failure :=
| NotJson
| TooDeep
| TooLong.

(** What the scanner does with a text: a value and what remains, an
    exception, or the end of the fuel. *)
Inductive reading (A : Type) :=
| Read (a : A) (rest : str)
| Fails (e : failure)
| Spent.
Arguments Read {A} a rest.
Arguments Fails {A} e.
Arguments Spent {A}.

(** What [json.loads] does: it returns a value or raises. *)
Inductive loaded :=
| Loaded (v : pyval)
| Raised (e : failure).

Definition of_parse {A} (p : parse A) : reading A :=
  match p with
  | POk a rest => Read a rest
  | PErr => Fails NotJson
  | PFuel => Spent
  end.

(** The digits of the integer part of the number at the head of a text. *)
Definition integer_digits (s : str) : nat :=
  match int_part (match s with
                  | c :: t => if c =? 45 then t else s
                  | [] => s
                  end) with
  | Some (ip, _) => length ip
  | None => O
  end.

(** [int(numstr)] refuses a text of more than [max_digits] digits, unless
    the limit is 0. *)
Definition too_long (lim : limits) (digits : nat) : bool :=
  (0 <? max_digits lim)%nat && (max_digits lim <? digits)%nat.

(** A constant or a number; an integer is converted by [int], which
    raises [ValueError] past the limit of digits. *)
Definition constants_within (lim : limits) (s : str) : reading pyval :=
  match constants s with
  | POk (PInt z) rest =>
      if too_long lim (integer_digits s) then Fails TooLong else Read (PInt z) rest
  | p => of_parse p
  end.

(** [scan_once] with the guard of the recursion: an opening brace or
    bracket met with no room left raises [RecursionError], and what is
    inside it is read with one level less. *)
Fixpoint scan_within (lim : limits) (room fuel : nat) (s : str) : reading pyval :=
  match fuel with
  | O => Spent
  | S n =>
      match s with
      | [] => Fails NotJson
      | c :: t =>
          if c =? 34 then of_parse (lift_str (scanstring t []))
          else if c =? 123 then
            match room with
            | O => Fails TooDeep
            | S room' =>
                match skip_ws t with
                | c' :: t' =>
                    if c' =? 125 then Read (PDict []) t'
                    else members_within lim room' n (c' :: t') []
                | [] => Fails NotJson
                end
            end
          else if c =? 91 then
            match room with
            | O => Fails TooDeep
            | S room' =>
                match skip_ws t with
                | c' :: t' =>
                    if c' =? 93 then Read (PList []) t'
                    else elements_within lim room' n (c' :: t') []
                | [] => Fails NotJson
                end
            end
          else constants_within lim s
      end
  end
with members_within (lim : limits) (room fuel : nat) (s : str)
       (acc : list (str * pyval)) : reading pyval :=
  match fuel with
  | O => Spent
  | S n =>
      match s with
      | [] => Fails NotJson
      | c :: t =>
          if c =? 34 then
            match scanstring t [] with
            | POk key r =>
                match skip_ws r with
                | c1 :: r1 =>
                    if c1 =? 58 then
                      match scan_within lim room n (skip_ws r1) with
                      | Read v r2 =>
                          match skip_ws r2 with
                          | c2 :: r3 =>
                              if c2 =? 125 then
                                Read (PDict (dict_of_pairs (rev ((key, v) :: acc)))) r3
                              else if c2 =? 44 then
                                members_within lim room n (skip_ws r3) ((key, v) :: acc)
                              else Fails NotJson
                          | [] => Fails NotJson
                          end
                      | Fails e => Fails e
                      | Spent => Spent
                      end
                    else Fails NotJson
                | [] => Fails NotJson
                end
            | PErr => Fails NotJson
            | PFuel => Spent
            end
          else Fails NotJson
      end
  end
with elements_within (lim : limits) (room fuel : nat) (s : str)
       (acc : list pyval) : reading pyval :=
  match fuel with
  | O => Spent
  | S n =>
      match scan_within lim room n s with
      | Read v r =>
          match skip_ws r with
          | c2 :: r1 =>
              if c2 =? 93 then Read (PList (rev (v :: acc))) r1
              else if c2 =? 44 then elements_within lim room n (skip_ws r1) (v :: acc)
              else Fails NotJson
          | [] => Fails NotJson
          end
      | Fails e => Fails e
      | Spent => Spent
      end
  end.

(** [json.loads(s)] in an interpreter with the limits [lim]. The fuel is
    that of [Json.decode], and is not used up ([loads_within_fuel]). *)
Definition loads_within (lim : limits) (s : str) : loaded :=
  if startswith [65279] s then Raised NotJson
  else
    match scan_within lim (max_depth lim) (S (2 * length s)) (skip_ws s) with
    | Read v rest =>
        match skip_ws rest with
        | [] => Loaded v
        | _ :: _ => Raised NotJson
        end
    | Fails e => Raised e
    | Spent => Raised NotJson
    end.

End Limits.

(** ** The regular expressions of the program

    Each pattern the program uses is written out as the function that
    Python's backtracking matcher computes for it. *)

Module Re.
Import Py.

(** The text [s] starts with optional whitespace and then [c]: a match of
    [\s*c] at the head, for a [c] that is not whitespace. *)
Definition ws_then (c : char) (s : str) : bool :=
  match lstrip s with
  | x :: _ => x =? c
  | [] => false
  end.

(** [re.sub(r',\s*c', 'c', s)] for a closing character [c]: left to right,
    a comma followed by whitespace and [c] is replaced by [c]. [sub_close]
    copies characters; on a comma that starts a match it hands over to
    [drop_ws], which drops the whitespace and resumes at [c]. *)
Fixpoint sub_close (c : char) (s : str) : str :=
  match s with
  | [] => []
  | x :: t =>
      if (x =? 44) && ws_then c t then drop_ws c t else x :: sub_close c t
  end
with drop_ws (c : char) (s : str) : str :=
  match s with
  | [] => []
  | x :: t => if isspace x then drop_ws c t else x :: sub_close c t
  end.

(** The two substitutions of the repair pass, in the order of the source:
    [re.sub(r',\s*}', '}', ...)] and then [re.sub(r',\s*]', ']', ...)]. *)
Definition repair (s : str) : str := sub_close 93 (sub_close 125 s).

Definition fence : str := [96; 96; 96].

(** The text after the first occurrence of [pat] in [s]. *)
Fixpoint after_first (pat s : str) : option str :=
  if startswith pat s then Some (skipn (length pat) s)
  else
    match s with
    | [] => None
    | _ :: t => after_first pat t
    end.

(** Group 1 of a lazy group followed by whitespace and a fence: the
    shortest prefix after which whitespace and a fence follow. *)
Fixpoint lazy_body (s : str) : option str :=
  if startswith fence (lstrip s) then Some []
  else
    match s with
    | [] => None
    | x :: t => option_map (cons x) (lazy_body t)
    end.

(** Group 1 of a greedy group followed by whitespace and a fence: the
    prefix up to the last fence. *)
Fixpoint greedy_body (s : str) : option str :=
  match s with
  | [] => None
  | x :: t =>
      match greedy_body t with
      | Some b => Some (x :: b)
      | None => if startswith fence s then Some [] else None
      end
  end.

(** Group 1 of [re.search] with [re.DOTALL] for the pattern: a fence, the
    tag, whitespace, a lazy group of any characters, whitespace, a fence. A
    match exists exactly when a fence follows the first opening and its
    whitespace, and it is the match at that opening. *)
Definition search_fence_lazy (tag s : str) : option str :=
  match after_first (fence ++ tag) s with
  | Some r => lazy_body (lstrip r)
  | None => None
  end.

(** The same pattern with a greedy group, as the translator writes it. *)
Definition search_fence_greedy (tag s : str) : option str :=
  match after_first (fence ++ tag) s with
  | Some r => greedy_body (lstrip r)
  | None => None
  end.

End Re.

(** ** Effects: exceptions and the outside world *)

Module Eff.
Import Py.

(** The exception classes that occur. All of them derive from [Exception];
    [Timeout] is [requests.exceptions.Timeout] and [ConnectionError] stands
    for every other failure of the transport. [SdkError] is whatever a
    provider's client library raises. *)
Inductive exn :=
| AttributeError
| KeyError
| IndexError
| TypeError
| JSONDecodeError
| Timeout
| ConnectionError
| SdkError
| OSError.

Inductive result (A : Type) :=
| Ret (a : A)
| Raise (e : exn).
Arguments Ret {A} a.
Arguments Raise {A} e.

(** What [requests.post] does: raise, or return a response. *)
Inductive http_outcome :=
| HttpTimeout
| HttpFailure
| HttpResponse (status_code : Z) (text : str).

(** What a completion call of a client library does: raise, or return the
    text of the completion (or whatever stands in its place). *)
Inductive sdk_outcome :=
| SdkRaises
| SdkReturns (text : pyval).

(** The calls that leave the process, as the log records them. *)
Inductive call :=
| HttpPost (url : str) (headers : dict) (json : pyval) (timeout : option Z)
| OpenAIChat (model : str) (messages : pyval) (max_tokens : Z)
| AnthropicMessages (model : str) (max_tokens : Z) (messages : pyval)
| GeminiGenerate (model : str) (prompt : str) (images : list (list N)).

(** A rendered page: [fitz.Pixmap] with the bytes that [save] writes. *)
Record pixmap := { pix_width : Z; pix_height : Z; pix_png : list N }.

(** A page as [pdfplumber] sees it. *)
Record plumber_page := {
  extract_text : option str;
  extract_tables : option (list (list (list (option str))))
}.

(** A page as PyMuPDF sees it. The calls below [get_text] sit in [try]
    blocks of the program and may raise: [None] in [get_pixmap] and
    [get_text_blocks], and the message of the exception in [layout_blocks].
    [layout_blocks] is the list of the [type] fields of
    [page.get_text("dict")["blocks"]]; a block of [get_text_blocks] is the
    tuple that [page.get_text("blocks")] gives. *)
Record fitz_page := {
  get_text : option str;
  get_pixmap : option pixmap;
  rect_width : pyval;
  rect_height : pyval;
  layout_blocks : str + list Z;
  get_text_blocks : option (list (list pyval))
}.

(** A PDF file that both libraries open. *)
Record pdf := {
  plumber_pages : list plumber_page;
  fitz_pages : list fitz_page;
  fitz_metadata : option dict
}.

Record world := {
  environ : gmap str str;
  files : gmap str (list N);
  pdfs : gmap str pdf;
  genai_models : list str;
  http_script : list http_outcome;
  sdk_script : list sdk_outcome;
  calls : list call;
  stdout : list str;
  heap : list dict
}.

Definition M (A : Type) : Type := world -> result A * world.

Definition ret {A} (a : A) : M A := fun w => (Ret a, w).

Definition bind {A B} (m : M A) (k : A -> M B) : M B :=
  fun w =>
    match m w with
    | (Ret a, w') => k a w'
    | (Raise e, w') => (Raise e, w')
    end.

Definition raise {A} (e : exn) : M A := fun w => (Raise e, w).

(** [try: body except ...: handler]. The handler says which exceptions its
    clauses catch; the others propagate. *)
Definition try_except {A} (body : M A) (handler : exn -> option (M A)) : M A :=
  fun w =>
    match body w with
    | (Ret a, w') => (Ret a, w')
    | (Raise e, w') =>
        match handler e with
        | Some h => h w'
        | None => (Raise e, w')
        end
    end.

(** [except Exception] and a bare [except]: every exception of the model. *)
Definition any_exception {A} (h : exn -> M A) : exn -> option (M A) :=
  fun e => Some (h e).

Definition lift {A} (r : result A) : M A := fun w => (r, w).

Definition get_world : M world := fun w => (Ret w, w).

Definition set_stdout (o : list str) (w : world) : world :=
  {| environ := environ w; files := files w; pdfs := pdfs w;
     genai_models := genai_models w; http_script := http_script w;
     sdk_script := sdk_script w; calls := calls w; stdout := o;
     heap := heap w |}.

Definition set_files (f : gmap str (list N)) (w : world) : world :=
  {| environ := environ w; files := f; pdfs := pdfs w;
     genai_models := genai_models w; http_script := http_script w;
     sdk_script := sdk_script w; calls := calls w; stdout := stdout w;
     heap := heap w |}.

Definition set_heap (h : list dict) (w : world) : world :=
  {| environ := environ w; files := files w; pdfs := pdfs w;
     genai_models := genai_models w; http_script := http_script w;
     sdk_script := sdk_script w; calls := calls w; stdout := stdout w;
     heap := h |}.

Definition set_http (sc : list http_outcome) (c : list call) (w : world) : world :=
  {| environ := environ w; files := files w; pdfs := pdfs w;
     genai_models := genai_models w; http_script := sc;
     sdk_script := sdk_script w; calls := c; stdout := stdout w;
     heap := heap w |}.

Definition set_sdk (sc : list sdk_outcome) (c : list call) (w : world) : world :=
  {| environ := environ w; files := files w; pdfs := pdfs w;
     genai_models := genai_models w; http_script := http_script w;
     sdk_script := sc; calls := c; stdout := stdout w;
     heap := heap w |}.

(** [print(line)] for the diagnostics that carry data of a response. The
    banners and progress lines of the program are not recorded. *)
Definition print (line : str) : M unit :=
  fun w => (Ret tt, set_stdout (stdout w ++ [line]) w).

(** [os.getenv(name)], [None] when unset. *)
Definition getenv (name : str) : M (option str) :=
  fun w => (Ret (environ w !! name), w).

Record response := { status_code : Z; text : str }.

(** [requests.post(url, headers=..., json=..., timeout=...)]: the call is
    logged and the next outcome of the script decides; with the script used
    up the transport fails. *)
Definition requests_post (url : str) (headers : dict) (json : pyval)
    (timeout : option Z) : M response :=
  fun w =>
    let log := calls w ++ [HttpPost url headers json timeout] in
    match http_script w with
    | [] => (Raise ConnectionError, set_http [] log w)
    | HttpTimeout :: sc => (Raise Timeout, set_http sc log w)
    | HttpFailure :: sc => (Raise ConnectionError, set_http sc log w)
    | HttpResponse st body :: sc =>
        (Ret {| status_code := st; text := body |}, set_http sc log w)
    end.

(** A completion call of a client library. *)
Definition sdk_call (c : call) : M pyval :=
  fun w =>
    let log := calls w ++ [c] in
    match sdk_script w with
    | [] => (Raise SdkError, set_sdk [] log w)
    | SdkRaises :: sc => (Raise SdkError, set_sdk sc log w)
    | SdkReturns t :: sc => (Ret t, set_sdk sc log w)
    end.

(** [os.path.exists(path)] *)
Definition path_exists (path : str) : M bool :=
  fun w => (Ret (bool_decide (is_Some (files w !! path))), w).

(** [open(path, 'rb').read()] *)
Definition read_file (path : str) : M (list N) :=
  fun w =>
    match files w !! path with
    | Some b => (Ret b, w)
    | None => (Raise OSError, w)
    end.

(** Writing a file, as [pix.save(path)] does. *)
Definition write_file (path : str) (b : list N) : M unit :=
  fun w => (Ret tt, set_files (<[path := b]> (files w)) w).

End Eff.

Declare Scope py_scope.
Delimit Scope py_scope with py.
Notation "'let*' x ':=' m 'in' k" := (Eff.bind m (fun x => k))
  (at level 10, x pattern, m at level 100, k at level 200) : py_scope.
Notation "m1 ';;' m2" := (Eff.bind m1 (fun _ => m2))
  (at level 100, right associativity) : py_scope.

(** ** The intermediate document

    The dictionaries that the extractor builds have fixed keys; they are
    records here. *)

Module Doc.
Import Py.

Definition table := list (list (option str)).

Record image_ref := {
  img_page : Z;
  img_type : str;
  img_path : str;
  img_width : Z;
  img_height : Z
}.

Record page_content := {
  page_number : Z;
  text : str;
  text_length : Z;
  tables : list table;
  table_count : Z;
  images : list image_ref;
  image_count : Z;
  layout : dict;
  text_blocks : list dict;
  has_content : bool
}.

Record content := {
  metadata : dict;
  pages : list page_content;
  extraction_methods : dict
}.

End Doc.

(** ** [universal_extractor.py] *)

Module UniversalPDFExtractor.
Import Py Eff Doc.
Local Open Scope py_scope.

(** [len(x)] as a Python [int] *)
Definition len {A} (l : list A) : Z := Z.of_nat (length l).

(** [os.path.basename(path)] *)
Fixpoint basename_from (s acc : str) : str :=
  match s with
  | [] => acc
  | c :: t => if c =? 47 then basename_from t [] else basename_from t (acc ++ [c])
  end.

Definition basename (path : str) : str := basename_from path [].

(** [metadata.get(key, '')] *)
Definition meta_get (m : dict) (key : string) : pyval :=
  match dict_get (u key) m with
  | Some v => v
  | None => PStr []
  end.

(** [fitz.open(self.pdf_path)] and [pdfplumber.open(self.pdf_path)] *)
Definition open_pdf (pdf_path : str) : M pdf :=
  let* w := get_world in
  match pdfs w !! pdf_path with
  | Some p => ret p
  | None => raise OSError
  end.

Definition _extract_metadata (pdf_path : str) : M dict :=
  try_except
    (let* doc := open_pdf pdf_path in
     match fitz_metadata doc with
     | None => raise AttributeError
     | Some metadata =>
         ret [ (u "title", meta_get metadata "title");
               (u "author", meta_get metadata "author");
               (u "subject", meta_get metadata "subject");
               (u "creator", meta_get metadata "creator");
               (u "producer", meta_get metadata "producer");
               (u "creation_date", meta_get metadata "creationDate");
               (u "modification_date", meta_get metadata "modDate");
               (u "source_file", PStr (basename pdf_path)) ]
     end)
    (any_exception (fun _ => ret [ (u "source_file", PStr (basename pdf_path)) ])).

Definition _extract_images_pymupdf (page : fitz_page) (page_num : Z)
    : M (list image_ref) :=
  match get_pixmap page with
  | Some pix =>
      let img_path :=
        u "output/images/page_" ++ str_of_Z (page_num + 1) ++ u "_full.png" in
      write_file img_path (pix_png pix) ;;
      ret [ {| img_page := page_num + 1;
               img_type := u "full_page";
               img_path := img_path;
               img_width := pix_width pix;
               img_height := pix_height pix |} ]
  | None => ret []
  end.

Definition count_type (ty : Z) (blocks : list Z) : Z :=
  len (List.filter (fun b => Z.eqb b ty) blocks).

Definition _analyze_layout (page : fitz_page) : dict :=
  match layout_blocks page with
  | inr blocks =>
      [ (u "width", rect_width page);
        (u "height", rect_height page);
        (u "block_count", PInt (len blocks));
        (u "text_blocks", PInt (count_type 0 blocks));
        (u "image_blocks", PInt (count_type 1 blocks)) ]
  | inl msg => [ (u "error", PStr msg) ]
  end.

(** The loop of [_extract_text_blocks]: a tuple whose fifth field has no
    [strip] raises, and the blocks gathered before it are what is
    returned. *)
Fixpoint text_blocks_loop (bs : list (list pyval)) (acc : list dict) : list dict :=
  match bs with
  | [] => acc
  | b :: rest =>
      match b with
      | x0 :: y0 :: x1 :: y1 :: t :: more =>
          match t with
          | PStr s =>
              text_blocks_loop rest
                (acc ++ [[ (u "x0", x0); (u "y0", y0); (u "x1", x1); (u "y1", y1);
                           (u "text", PStr (strip s));
                           (u "block_type",
                            match more with
                            | ty :: _ => ty
                            | [] => PInt 0
                            end) ]])
          | _ => acc
          end
      | _ => text_blocks_loop rest acc
      end
  end.

Definition _extract_text_blocks (page : fitz_page) : list dict :=
  match get_text_blocks page with
  | Some bs => text_blocks_loop bs []
  | None => []
  end.

(** [x or ""] *)
Definition or_empty (o : option str) : str :=
  match o with
  | Some s => s
  | None => []
  end.

Definition or_nil {A} (o : option (list A)) : list A :=
  match o with
  | Some l => l
  | None => []
  end.

Definition _extract_page_multimethod (page_plumber : plumber_page)
    (page_pymupdf : fitz_page) (page_num : Z) : M page_content :=
  let text_plumber := or_empty (extract_text page_plumber) in
  let text_pymupdf := or_empty (get_text page_pymupdf) in
  let text :=
    if (len text_pymupdf <? len text_plumber)%Z then text_plumber else text_pymupdf in
  let tables := or_nil (extract_tables page_plumber) in
  let* images := _extract_images_pymupdf page_pymupdf page_num in
  let layout := _analyze_layout page_pymupdf in
  let text_blocks := _extract_text_blocks page_pymupdf in
  ret {| page_number := page_num + 1;
         text := text;
         text_length := len text;
         tables := tables;
         table_count := len tables;
         images := images;
         image_count := len images;
         layout := layout;
         text_blocks := text_blocks;
         has_content :=
           (0 <? len text)%Z || (0 <? len tables)%Z || (0 <? len images)%Z |}.

(** The loop [for page_num in range(self.total_pages)], from [page_num] on:
    [todo] is what is left of [pdf_plumber.pages], and [pdf_pymupdf[page_num]]
    raises [IndexError] past the end of the PyMuPDF document. *)
Fixpoint pages_loop (todo : list plumber_page) (pdf_pymupdf : list fitz_page)
    (page_num : nat) (acc : list page_content) : M (list page_content) :=
  match todo with
  | [] => ret acc
  | page_plumber :: rest =>
      match pdf_pymupdf !! page_num with
      | None => raise IndexError
      | Some page_pymupdf =>
          let* page_content :=
            _extract_page_multimethod page_plumber page_pymupdf (Z.of_nat page_num) in
          pages_loop rest pdf_pymupdf (S page_num) (acc ++ [page_content])
      end
  end.

Definition extract_complete_content (pdf_path : str) : M content :=
  let* metadata := _extract_metadata pdf_path in
  let* pdf_plumber := open_pdf pdf_path in
  let* pdf_pymupdf := open_pdf pdf_path in
  let total_pages := len (plumber_pages pdf_plumber) in
  let metadata := dict_set (u "total_pages") (PInt total_pages) metadata in
  let* pages :=
    pages_loop (plumber_pages pdf_plumber) (fitz_pages pdf_pymupdf) 0 [] in
  ret {| metadata := metadata;
         pages := pages;
         extraction_methods :=
           [ (u "text", PBool true); (u "tables", PBool true);
             (u "images", PBool true); (u "layout", PBool true) ] |}.

(** [extract_pdf_universal(pdf_path)] *)
Definition extract_pdf_universal (pdf_path : str) : M content :=
  extract_complete_content pdf_path.

End UniversalPDFExtractor.

(** ** Operations on values whose type is known only at run time *)

Module Dyn.
Import Py Eff.

(** [v.get(key, default)] *)
Definition get (v : pyval) (key : str) (default : pyval) : result pyval :=
  match v with
  | PDict d =>
      Ret (match dict_get key d with
           | Some x => x
           | None => default
           end)
  | _ => Raise AttributeError
  end.

(** [len(v)] *)
Definition len (v : pyval) : result Z :=
  match v with
  | PStr s => Ret (Z.of_nat (length s))
  | PList l => Ret (Z.of_nat (length l))
  | PDict d => Ret (Z.of_nat (length d))
  | _ => Raise TypeError
  end.

Definition is_str (needle : str) (v : pyval) : bool :=
  match v with
  | PStr s => str_eqb s needle
  | _ => false
  end.

(** [needle in v] for a string [needle] *)
Definition contains (needle : str) (v : pyval) : result bool :=
  match v with
  | PDict d => Ret (bool_decide (is_Some (dict_get needle d)))
  | PList l => Ret (existsb (is_str needle) l)
  | PStr s => Ret (Py.contains needle s)
  | _ => Raise TypeError
  end.

(** [v[key]] for a string [key] *)
Definition getitem (v : pyval) (key : str) : result pyval :=
  match v with
  | PDict d =>
      match dict_get key d with
      | Some x => Ret x
      | None => Raise KeyError
      end
  | _ => Raise TypeError
  end.

(** [v[0]]. The keys of the dictionaries at hand are strings, so [0] is
    never one of them. *)
Definition getitem0 (v : pyval) : result pyval :=
  match v with
  | PList (x :: _) => Ret x
  | PList [] => Raise IndexError
  | PStr (c :: _) => Ret (PStr [c])
  | PStr [] => Raise IndexError
  | PDict _ => Raise KeyError
  | _ => Raise TypeError
  end.

(** [v.strip()] *)
Definition strip (v : pyval) : result pyval :=
  match v with
  | PStr s => Ret (PStr (Py.strip s))
  | _ => Raise AttributeError
  end.

(** [response.json()] *)
Definition response_json (r : response) : result pyval :=
  match Json.loads (text r) with
  | Some v => Ret v
  | None => Raise JSONDecodeError
  end.

(** [f"{x}"] for the value of [os.getenv] *)
Definition format_opt (o : option str) : str :=
  match o with
  | Some s => s
  | None => u "None"
  end.

(** [base64.b64encode(data).decode('utf-8')] *)
Definition b64_char (n : N) : char :=
  if n <? 26 then 65 + n
  else if n <? 52 then 97 + (n - 26)
  else if n <? 62 then 48 + (n - 52)
  else if n =? 62 then 43
  else 47.

Fixpoint b64encode (data : list N) : str :=
  match data with
  | [] => []
  | [a] =>
      [b64_char (a / 4); b64_char ((a mod 4) * 16); 61; 61]
  | [a; b] =>
      [b64_char (a / 4); b64_char ((a mod 4) * 16 + b / 16);
       b64_char ((b mod 16) * 4); 61]
  | a :: b :: c :: rest =>
      b64_char (a / 4) :: b64_char ((a mod 4) * 16 + b / 16)
      :: b64_char ((b mod 16) * 4 + c / 64) :: b64_char (c mod 64)
      :: b64encode rest
  end.

(** [re.search] with the fence pattern, lazy or greedy; group 1 of the
    match. A value that is not a string raises [TypeError]. *)
Definition search_lazy (tag : str) (v : pyval) : result (option str) :=
  match v with
  | PStr s => Ret (Re.search_fence_lazy tag s)
  | _ => Raise TypeError
  end.

Definition search_greedy (tag : str) (v : pyval) : result (option str) :=
  match v with
  | PStr s => Ret (Re.search_fence_greedy tag s)
  | _ => Raise TypeError
  end.

(** The fence removal that the analyzer and the translator both write
    out: a fence tagged [json], or else any fence, is searched and group 1
    of the match, stripped, replaces the response; without a match the
    response stays. [in] raises [TypeError] on a value that cannot hold a
    string. *)
Definition unfence_with (search : str -> pyval -> result (option str))
    (ai_response : pyval) : M pyval :=
  Eff.bind (lift (contains (Re.fence ++ u "json") ai_response)) (fun tagged =>
  if tagged then
    Eff.bind (lift (search (u "json") ai_response)) (fun json_match =>
    match json_match with
    | Some g => ret (PStr (Py.strip g))
    | None => ret ai_response
    end)
  else
    Eff.bind (lift (contains Re.fence ai_response)) (fun fenced =>
    if fenced then
      Eff.bind (lift (search [] ai_response)) (fun json_match =>
      match json_match with
      | Some g => ret (PStr (Py.strip g))
      | None => ret ai_response
      end)
    else ret ai_response)).

(** [result['choices'][0]['message']['content']] *)
Definition first_choice_content (result : pyval) : M pyval :=
  Eff.bind (lift (getitem result (u "choices"))) (fun choices =>
  Eff.bind (lift (getitem0 choices)) (fun choice =>
  Eff.bind (lift (getitem choice (u "message"))) (fun message =>
  lift (getitem message (u "content"))))).

(** ['choices' in result and len(result['choices']) > 0] *)
Definition has_choices (result : pyval) : M bool :=
  Eff.bind (lift (contains (u "choices") result)) (fun present =>
  if present then
    Eff.bind (lift (getitem result (u "choices"))) (fun choices =>
    Eff.bind (lift (len choices)) (fun n =>
    ret (0 <? n)%Z))
  else ret false).

End Dyn.

(** ** [ai_analyzer.py] *)

Module UniversalAIAnalyzer.
Import Py Eff Doc.
Local Open Scope py_scope.

Inductive provider := deepseek | anthropic | huggingface | google | openai.

(** The two attributes of an analyzer object. *)
Record self := { use_vision : bool; ai_provider : option provider }.

Definition len {A} (l : list A) : Z := Z.of_nat (length l).

(** [os.getenv(name, '').strip()] *)
Definition getenv_stripped (name : string) : M str :=
  let* v := getenv (u name) in
  ret (strip (match v with Some s => s | None => [] end)).

(** A string as a condition: true when it is not empty. *)
Definition truthy (s : str) : bool :=
  match s with
  | [] => false
  | _ :: _ => true
  end.

Definition _detect_available_ai : M (option provider) :=
  let* openai_key := getenv_stripped "OPENAI_API_KEY" in
  let* anthropic_key := getenv_stripped "ANTHROPIC_API_KEY" in
  let* google_key := getenv_stripped "GOOGLE_API_KEY" in
  let* huggingface_key := getenv_stripped "HUGGINGFACE_API_KEY" in
  let* deepseek_key := getenv_stripped "DEEPSEEK_API_KEY" in
  if truthy deepseek_key && startswith (u "sk-") deepseek_key then
    ret (Some deepseek)
  else if truthy anthropic_key && startswith (u "sk-ant-") anthropic_key then
    ret (Some anthropic)
  else if truthy huggingface_key
          && (startswith (u "hf_") huggingface_key || (20 <? len huggingface_key)%Z) then
    ret (Some huggingface)
  else if truthy google_key && (20 <? len google_key)%Z then
    ret (Some google)
  else if truthy openai_key && startswith (u "sk-") openai_key
          && (20 <? len openai_key)%Z then
    ret (Some openai)
  else ret None.

(** [UniversalAIAnalyzer(use_vision)] *)
Definition __init__ (use_vision : bool) : M self :=
  let* p := _detect_available_ai in
  ret {| use_vision := use_vision; ai_provider := p |}.

Definition _get_analysis_prompt : str := requote 126
"You are analyzing a product catalog PDF. Extract and structure ALL product information into JSON format for an e-commerce shopping cart.

Your task:
1. Identify ALL products/models in the catalog (could be 1 or 100+ products)
2. Extract product details, specifications, features, pricing
3. Identify the company/brand information
4. Detect the product category/industry

Return ONLY valid JSON in this exact structure:
{
    ~product_family~: ~Main product line or catalog name~,
    ~category~: ~Product category (e.g., Electronics, Industrial, Fashion, etc.)~,
    ~company~: {
        ~name~: ~Company name~,
        ~website~: ~Website URL if found~,
        ~phone~: ~Phone number if found~,
        ~email~: ~Email if found~
    },
    ~products~: [
        {
            ~name~: ~Full product name~,
            ~model~: ~Model number/SKU~,
            ~tagline~: ~Short marketing tagline~,
            ~description~: ~Detailed product description~,
            ~features~: [~feature 1~, ~feature 2~, ...],
            ~specifications~: {
                ~Category Name~: {
                    ~spec_name~: ~spec_value~,
                    ...
                }
            },
            ~applications~: [~use case 1~, ~use case 2~, ...],
            ~pricing~: {
                ~price~: ~price value or 'Contact for quote'~,
                ~currency~: ~USD/EUR/etc~,
                ~note~: ~any pricing notes~
            },
            ~images_count~: number_of_images_for_this_product
        }
    ]
}

Rules:
- Extract ALL products (not just one)
- Be precise with specifications
- Preserve exact model numbers
- Include all features mentioned
- If information is missing, omit the field or use null
- Return ONLY valid JSON, no other text".

Definition _no_ai_configured : pyval :=
  PDict
    [ (u "product_family", PStr (u "AI Configuration Required"));
      (u "category", PStr (u "Please Add API Key"));
      (u "company",
       PDict [ (u "name", PStr (u "Configure AI to extract company info"));
               (u "website", PStr []);
               (u "phone", PStr []) ]);
      (u "products",
       PList
         [ PDict
             [ (u "name", PStr (u "AI API Key Required"));
               (u "model", PStr (u "N/A"));
               (u "tagline", PStr (u "Add API key to .env file to enable extraction"));
               (u "description",
                PStr (u "This system uses AI to intelligently extract product information from ANY catalog. Please configure an AI provider by adding your API key to the .env file in the config folder."));
               (u "features",
                PList [ PStr (u "Real-time AI extraction");
                        PStr (u "Works with any PDF type");
                        PStr (u "98%+ accuracy with proper AI") ]);
               (u "specifications", PDict []);
               (u "applications", PList []);
               (u "pricing",
                PDict [ (u "price", PStr (u "Configure AI"));
                        (u "currency", PStr (u "USD")) ]) ] ]) ].

(** The document of the inner handler of [_parse_ai_response]. *)
Definition extraction_error : pyval :=
  PDict
    [ (u "product_family", PStr (u "Extraction Error"));
      (u "category", PStr (u "AI Response Invalid"));
      (u "company", PDict []);
      (u "products", PList []) ].

(** The document of the last handler of [_parse_ai_response]. *)
Definition parse_error : pyval :=
  PDict
    [ (u "product_family", PStr (u "Product Catalog"));
      (u "category", PStr (u "General"));
      (u "company", PDict []);
      (u "products", PList []) ].

(** [response_text.strip()] with a value that is not a string raises
    [AttributeError], which the last handler turns into [parse_error]; a
    string is parsed, and on [JSONDecodeError] repaired and parsed again.
    [json.loads] is the one of a text within the limits of the interpreter,
    which raises [JSONDecodeError] or nothing; [_parse_ai_response_within]
    below has the two other exceptions. *)
Definition _parse_ai_response (response_text : pyval) : pyval :=
  match response_text with
  | PStr s =>
      match Json.loads (strip s) with
      | Some data => data
      | None =>
          match Json.loads (Re.repair (strip s)) with
          | Some data => data
          | None => extraction_error
          end
      end
  | _ => parse_error
  end.

(** The same method in an interpreter with the limits [lim], where
    [json.loads] can also raise [RecursionError] and [ValueError]: the first
    handler takes [JSONDecodeError] only, so that these two, raised by the
    first call, reach the last handler and its [parse_error] document;
    raised by the call after the repair they are taken by the bare [except]
    like every exception. [_parse_ai_response] above is this method on the
    texts that stay within the limits ([parse_within_calm]). *)
Definition _parse_ai_response_within (lim : Limits.limits)
    (response_text : pyval) : pyval :=
  match response_text with
  | PStr s =>
      match Limits.loads_within lim (strip s) with
      | Limits.Loaded data => data
      | Limits.Raised Limits.NotJson =>
          match Limits.loads_within lim (Re.repair (strip s)) with
          | Limits.Loaded data => data
          | Limits.Raised _ => extraction_error
          end
      | Limits.Raised _ => parse_error
      end
  | _ => parse_error
  end.

(** The class has no method [_analyze_with_advanced_rules]: looking the
    attribute up on [self] raises [AttributeError]. *)
Definition _analyze_with_advanced_rules (content : content) : M pyval :=
  raise AttributeError.

Definition _combine_text (content : content) : str :=
  join (nl ++ nl)
    (map (fun page =>
            u "=== Page " ++ str_of_Z (page_number page) ++ u " ===" ++ nl
            ++ text page)
         (List.filter (fun page => truthy (text page)) (pages content))).

(** An entry of [_extract_all_tables]: the keys [page] and [data]. *)
Record table_ref := { page : Z; data : table }.

Definition _extract_all_tables (content : content) : list table_ref :=
  flat_map (fun pg =>
              map (fun t => {| page := page_number pg; data := t |}) (tables pg))
           (pages content).

(** [" | ".join([str(cell) if cell else "" for cell in row]) + "\n"] *)
Definition row_line (row : list (option str)) : str :=
  join (u " | ") (map (fun cell => match cell with Some c => c | None => [] end) row)
  ++ nl.

(** The rows of one table, at most [rows] of them. *)
Definition table_lines (rows : nat) (t : table_ref) : str :=
  concat (map row_line (firstn rows (data t))).

(** The loop over [enumerate(tables[:n])]: [header i] is the line that
    announces table [i + 1]. *)
Fixpoint tables_text (header : Z -> str) (rows : nat) (i : Z)
    (ts : list table_ref) : str :=
  match ts with
  | [] => []
  | t :: rest =>
      header i ++ table_lines rows t ++ tables_text header rows (i + 1) rest
  end.

(** Lines 157-165 of [_analyze_with_deepseek]: the fence is searched with
    the lazy pattern. *)
Definition strip_fence (ai_response : pyval) : M pyval :=
  Dyn.unfence_with Dyn.search_lazy ai_response.

Definition deepseek_url : str := u "https://api.deepseek.com/v1/chat/completions".

Definition deepseek_headers (key : option str) : dict :=
  [ (u "Authorization", PStr (u "Bearer " ++ Dyn.format_opt key));
    (u "Content-Type", PStr (u "application/json")) ].

Definition message (role : string) (content : pyval) : pyval :=
  PDict [ (u "role", PStr (u role)); (u "content", content) ].

Definition deepseek_payload (system prompt : str) : pyval :=
  PDict
    [ (u "model", PStr (u "deepseek-chat"));
      (u "messages",
       PList [ message "system" (PStr system); message "user" (PStr prompt) ]);
      (u "max_tokens", PInt 8000);
      (u "temperature", PFloat (u "0.0")) ].

Definition deepseek_system : str :=
  u "You are an expert at analyzing product catalogs. You must extract ONLY the actual information from the provided text. NEVER invent or make up model numbers. Extract exactly what you see in the text. Return ONLY valid JSON with no markdown formatting.".

Definition deepseek_prompt (content : content) : str :=
  let full_text := _combine_text content in
  let tables := _extract_all_tables content in
  _get_analysis_prompt ++ nl ++ nl
  ++ u "IMPORTANT: Extract ONLY the actual model numbers and information from the text below. Do NOT make up or invent any model numbers."
  ++ nl ++ nl ++ u "Full Text Content:" ++ nl ++ slice_to 40000%Z full_text
  ++ match tables with
     | [] => []
     | _ :: _ =>
         nl ++ nl ++ u "Tables Found: " ++ str_of_Z (len tables) ++ nl
         ++ tables_text
              (fun i => nl ++ u "Table " ++ str_of_Z (i + 1)
                        ++ u " (Critical - contains specifications):" ++ nl)
              20 0 (firstn 10 tables)
     end.

Definition deepseek_retry_prompt (content : content) : str :=
  _get_analysis_prompt ++ nl ++ nl ++ u "Full Text Content (first 20000 chars):"
  ++ nl ++ slice_to 20000%Z (_combine_text content).

Definition _analyze_with_deepseek (content : content) : M pyval :=
  try_except
    (let* key := getenv (u "DEEPSEEK_API_KEY") in
     let headers := deepseek_headers key in
     let* response :=
       try_except
         (requests_post deepseek_url headers
            (deepseek_payload deepseek_system (deepseek_prompt content)) (Some 180%Z))
         (fun e =>
            match e with
            | Timeout =>
                Some (requests_post deepseek_url headers
                        (deepseek_payload deepseek_system (deepseek_retry_prompt content))
                        (Some 180%Z))
            | _ => None
            end) in
     if (status_code response =? 200)%Z then
       let* result := lift (Dyn.response_json response) in
       let* ok := Dyn.has_choices result in
       if ok then
         let* ai_response := Dyn.first_choice_content result in
         let* ai_response := strip_fence ai_response in
         let parsed_data := _parse_ai_response ai_response in
         let* products := lift (Dyn.get parsed_data (u "products") (PList [])) in
         let* num_products := lift (Dyn.len products) in
         ret parsed_data
       else ret _no_ai_configured
     else
       print (u "DeepSeek API error: " ++ str_of_Z (status_code response) ++ u " - "
              ++ slice_to 200%Z (Eff.text response)) ;;
       ret _no_ai_configured)
    (any_exception (fun _ => ret _no_ai_configured)).

(** The first image of a page that is a full page render and exists on
    disk. *)
Fixpoint first_full_page (imgs : list image_ref) : M (option str) :=
  match imgs with
  | [] => ret None
  | img :: rest =>
      if str_eqb (img_type img) (u "full_page") then
        let* there := path_exists (img_path img) in
        if there then ret (Some (img_path img)) else first_full_page rest
      else first_full_page rest
  end.

(** [images_to_analyze]: one image at most from each of the pages given. *)
Fixpoint select_images (ps : list page_content) : M (list str) :=
  match ps with
  | [] => ret []
  | pg :: rest =>
      let* found := first_full_page (images pg) in
      let* more := select_images rest in
      ret (match found with
           | Some path => path :: more
           | None => more
           end)
  end.

(** Reading the images of [images_to_analyze[:3]]. *)
Fixpoint read_images (paths : list str) : M (list (list N)) :=
  match paths with
  | [] => ret []
  | path :: rest =>
      let* bytes := read_file path in
      let* more := read_images rest in
      ret (bytes :: more)
  end.

Definition vision_text (content : content) : str :=
  _get_analysis_prompt ++ nl ++ nl ++ u "Extracted Text:" ++ nl
  ++ slice_to 15000%Z (_combine_text content).

Definition _analyze_with_gpt4_vision (content : content) : M pyval :=
  try_except
    (let* images_to_analyze := select_images (firstn 5 (pages content)) in
     let* imgs := read_images (firstn 3 images_to_analyze) in
     let parts :=
       PDict [ (u "type", PStr (u "text")); (u "text", PStr (vision_text content)) ]
       :: map (fun img_data =>
                 PDict
                   [ (u "type", PStr (u "image_url"));
                     (u "image_url",
                      PDict [ (u "url",
                               PStr (u "data:image/png;base64," ++ Dyn.b64encode img_data)) ]) ])
              imgs in
     let* result_text :=
       sdk_call (OpenAIChat (u "gpt-4-vision-preview")
                   (PList [ message "user" (PList parts) ]) 4096%Z) in
     ret (_parse_ai_response result_text))
    (any_exception (fun _ => _analyze_with_advanced_rules content)).

Definition _analyze_with_claude_vision (content : content) : M pyval :=
  try_except
    (let* images_to_analyze := select_images (firstn 5 (pages content)) in
     let* imgs := read_images (firstn 3 images_to_analyze) in
     let message_content :=
       map (fun img_data =>
              PDict
                [ (u "type", PStr (u "image"));
                  (u "source",
                   PDict [ (u "type", PStr (u "base64"));
                           (u "media_type", PStr (u "image/png"));
                           (u "data", PStr (Dyn.b64encode img_data)) ]) ])
           imgs
       ++ [ PDict [ (u "type", PStr (u "text"));
                    (u "text", PStr (vision_text content)) ] ] in
     let* result_text :=
       sdk_call (AnthropicMessages (u "claude-3-5-sonnet-20241022") 16000%Z
                   (PList [ message "user" (PList message_content) ])) in
     ret (_parse_ai_response result_text))
    (any_exception (fun _ => _analyze_with_advanced_rules content)).

(** The first name for which [genai.GenerativeModel] does not raise. *)
Fixpoint first_model (names available : list str) : option str :=
  match names with
  | [] => None
  | n :: rest =>
      if existsb (str_eqb n) available then Some n else first_model rest available
  end.

Definition _analyze_with_gemini_vision (content : content) : M pyval :=
  try_except
    (let* w := get_world in
     let* model :=
       match first_model
               [ u "gemini-1.5-flash"; u "gemini-1.5-pro-latest";
                 u "gemini-pro-vision"; u "gemini-pro" ] (genai_models w) with
       | Some m => ret m
       | None =>
           if existsb (str_eqb (u "models/gemini-1.5-flash")) (genai_models w)
           then ret (u "models/gemini-1.5-flash")
           else raise SdkError
       end in
     let* images_to_analyze := select_images (firstn 5 (pages content)) in
     let* imgs := read_images (firstn 3 images_to_analyze) in
     let* result_text := sdk_call (GeminiGenerate model (vision_text content) imgs) in
     ret (_parse_ai_response result_text))
    (any_exception (fun _ => _analyze_with_advanced_rules content)).

Definition huggingface_url : str :=
  u "https://api-inference.huggingface.co/models/facebook/bart-large-cnn".

(** The document that [_analyze_with_huggingface] builds around the summary
    ([None] when [ai_summary] was never bound). *)
Definition huggingface_catalog (ai_summary : option pyval) : pyval :=
  PDict
    [ (u "product_family", PStr (u "Product Catalog"));
      (u "category", PStr (u "Products"));
      (u "company", PDict []);
      (u "products",
       PList
         [ PDict
             [ (u "name", PStr (u "See extracted data"));
               (u "model", PStr (u "Hugging Face extraction"));
               (u "description",
                match ai_summary with
                | Some x => x
                | None => PStr (u "AI analysis complete")
                end);
               (u "features", PList []);
               (u "specifications", PDict []);
               (u "applications", PList []);
               (u "pricing",
                PDict [ (u "price", PStr (u "See catalog"));
                        (u "currency", PStr (u "USD")) ]) ] ]) ].

Definition _analyze_with_huggingface (content : content) : M pyval :=
  try_except
    (let* key := getenv (u "HUGGINGFACE_API_KEY") in
     let headers := [ (u "Authorization", PStr (u "Bearer " ++ Dyn.format_opt key)) ] in
     let full_text := slice_to 10000%Z (_combine_text content) in
     let prompt :=
       u "Analyze this product catalog and extract all product names, models, specifications, and features:"
       ++ nl ++ nl ++ full_text in
     let* response :=
       requests_post huggingface_url headers (PDict [ (u "inputs", PStr prompt) ]) None in
     if (status_code response =? 200)%Z then
       let* result := lift (Dyn.response_json response) in
       match result with
       | PList (first :: _) =>
           let* ai_summary := lift (Dyn.get first (u "summary_text") (PStr [])) in
           ret (huggingface_catalog (Some ai_summary))
       | _ => ret (huggingface_catalog None)
       end
     else
       print (u "Hugging Face API error: " ++ str_of_Z (status_code response)) ;;
       ret _no_ai_configured)
    (any_exception (fun _ => ret _no_ai_configured)).

Definition text_prompt (content : content) : str :=
  let full_text := _combine_text content in
  let tables := _extract_all_tables content in
  _get_analysis_prompt ++ nl ++ nl ++ u "Full Text Content:" ++ nl
  ++ slice_to 20000%Z full_text
  ++ match tables with
     | [] => []
     | _ :: _ =>
         nl ++ nl ++ u "Tables Found: " ++ str_of_Z (len tables)
         ++ tables_text
              (fun i => nl ++ nl ++ u "Table " ++ str_of_Z (i + 1) ++ u ":" ++ nl)
              10 0 (firstn 5 tables)
     end.

Definition _analyze_with_text_ai (s : self) (content : content) : M pyval :=
  try_except
    (let prompt := text_prompt content in
     match ai_provider s with
     | Some anthropic =>
         let* result :=
           sdk_call (AnthropicMessages (u "claude-sonnet-4-20250514") 16000%Z
                       (PList [ message "user" (PStr prompt) ])) in
         ret (_parse_ai_response result)
     | Some openai =>
         let* result :=
           sdk_call (OpenAIChat (u "gpt-4-turbo-preview")
                       (PList [ message "user" (PStr prompt) ]) 4096%Z) in
         ret (_parse_ai_response result)
     | Some deepseek => _analyze_with_deepseek content
     | Some huggingface => _analyze_with_huggingface content
     | _ => ret _no_ai_configured
     end)
    (any_exception (fun _ => _analyze_with_advanced_rules content)).

Definition _analyze_with_vision_ai (s : self) (content : content) : M pyval :=
  match ai_provider s with
  | Some deepseek => _analyze_with_deepseek content
  | Some openai => _analyze_with_gpt4_vision content
  | Some anthropic => _analyze_with_claude_vision content
  | Some google => _analyze_with_gemini_vision content
  | Some huggingface => _analyze_with_huggingface content
  | None => ret _no_ai_configured
  end.

Definition analyze_catalog (s : self) (extracted_content : content) : M pyval :=
  let* structured_data :=
    match ai_provider s with
    | Some _ =>
        if use_vision s then _analyze_with_vision_ai s extracted_content
        else _analyze_with_text_ai s extracted_content
    | None => _analyze_with_advanced_rules extracted_content
    end in
  (* the summary line reads len(structured_data.get('products', [])) *)
  let* products := lift (Dyn.get structured_data (u "products") (PList [])) in
  let* found := lift (Dyn.len products) in
  ret structured_data.

End UniversalAIAnalyzer.

(** ** [translator.py]

    The translator works on the caller's dictionary itself, so documents are
    objects here: a document is the index of a dictionary in the [heap] of
    the world, and an assignment to a key updates the heap at that index. *)

Module AITranslator.
Import Py Eff.
Local Open Scope py_scope.

Record self := { api_key : option str }.

(** [AITranslator()] *)
Definition __init__ : M self :=
  let* k := getenv (u "DEEPSEEK_API_KEY") in
  ret {| api_key := k |}.

(** The dictionary that a reference designates. *)
Definition deref (data : nat) : M dict :=
  let* w := get_world in
  match heap w !! data with
  | Some d => ret d
  | None => raise KeyError
  end.

(** A new dictionary object. *)
Definition alloc (d : dict) : M nat :=
  fun w => (Ret (length (heap w)), set_heap (heap w ++ [d]) w).

(** [data[key] = v] on the object itself. *)
Definition setitem (data : nat) (key : str) (v : pyval) : M unit :=
  let* d := deref data in
  fun w => (Ret tt, set_heap (<[data := dict_set key v d]> (heap w)) w).

Definition persian_prompt (data_to_translate : str) : str :=
  requote 126 "Translate this product catalog JSON to Persian (Farsi). 
            
IMPORTANT:
- Translate ALL text values to Persian
- Keep JSON structure EXACTLY the same
- Keep all JSON keys in English (like ~name~, ~model~, ~features~, etc.)
- Translate ONLY the values (product names, descriptions, features, etc.)
- Return ONLY valid JSON, no markdown, no explanations

Original JSON:
"
  ++ slice_to 25000%Z data_to_translate
  ++ u "

Return the translated JSON:".

Definition persian_system : str :=
  u "You are a professional Persian translator. Translate JSON values to Persian while keeping the structure intact. Return ONLY valid JSON.".

Definition chinese_prompt (data_to_translate : str) : str :=
  u "Translate this product catalog JSON to Simplified Chinese ("
  ++ [31616; 20307; 20013; 25991]
  ++ requote 126 "). 
            
IMPORTANT:
- Translate ALL text values to Chinese
- Keep JSON structure EXACTLY the same
- Keep all JSON keys in English (like ~name~, ~model~, ~features~, etc.)
- Translate ONLY the values (product names, descriptions, features, etc.)
- Return ONLY valid JSON, no markdown, no explanations

Original JSON:
"
  ++ slice_to 25000%Z data_to_translate
  ++ u "

Return the translated JSON:".

Definition chinese_system : str :=
  u "You are a professional Chinese translator. Translate JSON values to Simplified Chinese while keeping the structure intact. Return ONLY valid JSON.".

Definition translation_payload (system prompt : str) : pyval :=
  PDict
    [ (u "model", PStr (u "deepseek-chat"));
      (u "messages",
       PList
         [ PDict [ (u "role", PStr (u "system")); (u "content", PStr system) ];
           PDict [ (u "role", PStr (u "user")); (u "content", PStr prompt) ] ]);
      (u "max_tokens", PInt 8000);
      (u "temperature", PFloat (u "0.0")) ].

Definition api_url : str := u "https://api.deepseek.com/v1/chat/completions".

Definition headers_of (s : self) : dict :=
  [ (u "Authorization", PStr (u "Bearer " ++ Dyn.format_opt (api_key s)));
    (u "Content-Type", PStr (u "application/json")) ].

(** [data['_rtl'] = rtl; data['_language'] = code; return data] *)
Definition tag_and_return (data : nat) (rtl : bool) (code : string) : M nat :=
  setitem data (u "_rtl") (PBool rtl) ;;
  setitem data (u "_language") (PStr (u code)) ;;
  ret data.

(** [translated_data = json.loads(ai_response)] and the two assignments on
    it: only a dictionary takes them, and it is a new object. *)
Definition load_and_tag (ai_response : pyval) (rtl : bool) (code : string) : M nat :=
  match ai_response with
  | PStr t =>
      match Json.loads t with
      | None => raise JSONDecodeError
      | Some (PDict d) =>
          let* translated_data := alloc d in
          setitem translated_data (u "_rtl") (PBool rtl) ;;
          setitem translated_data (u "_language") (PStr (u code)) ;;
          let* d' := deref translated_data in
          let* products := lift (Dyn.get (PDict d') (u "products") (PList [])) in
          let* n := lift (Dyn.len products) in
          ret translated_data
      | Some _ => raise TypeError
      end
  | _ => raise TypeError
  end.

(** The body that [_translate_to_persian] and [_translate_to_chinese]
    share; they differ in the prompt, the system message and the tags. *)
Definition translate_with (prompt_of : str -> str) (system : str)
    (rtl : bool) (code : string) (s : self) (data : nat) : M nat :=
  try_except
    (let* d := deref data in
     let data_to_translate := Json.dumps (PDict d) in
     let* response :=
       requests_post api_url (headers_of s)
         (translation_payload system (prompt_of data_to_translate)) (Some 180%Z) in
     let* done :=
       if (status_code response =? 200)%Z then
         let* result := lift (Dyn.response_json response) in
         let* ok := Dyn.has_choices result in
         if ok then
           let* content := Dyn.first_choice_content result in
           let* ai_response := lift (Dyn.strip content) in
           let* ai_response := Dyn.unfence_with Dyn.search_greedy ai_response in
           let* translated_data := load_and_tag ai_response rtl code in
           ret (Some translated_data)
         else ret None
       else ret None in
     match done with
     | Some translated_data => ret translated_data
     | None =>
         print (u "Translation failed: " ++ str_of_Z (status_code response)) ;;
         tag_and_return data rtl code
     end)
    (any_exception (fun _ => tag_and_return data rtl code)).

Definition _translate_to_persian (s : self) (data : nat) : M nat :=
  translate_with persian_prompt persian_system true "fa" s data.

Definition _translate_to_chinese (s : self) (data : nat) : M nat :=
  translate_with chinese_prompt chinese_system false "zh" s data.

Definition translate_to_language (s : self) (structured_data : nat)
    (target_language : str) : M nat :=
  if str_eqb (lower target_language) (u "persian") then
    _translate_to_persian s structured_data
  else if str_eqb (lower target_language) (u "chinese") then
    _translate_to_chinese s structured_data
  else ret structured_data.

Definition text_payload (text target_lang : str) : pyval :=
  PDict
    [ (u "model", PStr (u "deepseek-chat"));
      (u "messages",
       PList
         [ PDict [ (u "role", PStr (u "user"));
                   (u "content",
                    PStr (u "Translate this to " ++ target_lang ++ u ": " ++ text
                          ++ nl ++ nl
                          ++ u "Return ONLY the translated text, nothing else.")) ] ]);
      (u "max_tokens", PInt 500);
      (u "temperature", PFloat (u "0.0")) ].

(** [_translate_text(text, target_lang)]. The test is
    [not text or len(text.strip()) == 0], and the handler a bare
    [except]. *)
Definition _translate_text (s : self) (text target_lang : str) : M pyval :=
  if match text with [] => true | _ :: _ => false end
     || (Z.of_nat (length (strip text)) =? 0)%Z
  then ret (PStr text)
  else
    try_except
      (let* response :=
         requests_post api_url (headers_of s) (text_payload text target_lang)
           (Some 30%Z) in
       let* done :=
         if (status_code response =? 200)%Z then
           let* result := lift (Dyn.response_json response) in
           let* ok := Dyn.has_choices result in
           if ok then
             let* content := Dyn.first_choice_content result in
             let* translated := lift (Dyn.strip content) in
             ret (Some translated)
           else ret None
         else ret None in
       match done with
       | Some translated => ret translated
       | None => ret (PStr text)
       end)
      (any_exception (fun _ => ret (PStr text))).

Definition api_prompt (content target_lang instruction : str) : str :=
  instruction ++ nl ++ nl ++ u "Source JSON (in English):" ++ nl
  ++ slice_to 20000%Z content ++ nl ++ nl
  ++ u "Return the same JSON structure with all text values translated to "
  ++ target_lang
  ++ u ". Keep all JSON keys in English. Translate only the values." ++ nl
  ++ u "Return ONLY valid JSON, no other text.".

Definition api_system (target_lang : str) : str :=
  u "You are a professional translator. Translate to " ++ target_lang
  ++ u " accurately. Return ONLY valid JSON.".

(** [json.loads(ai_response)], and on [JSONDecodeError] the two
    substitutions and [json.loads] again, whose error is not caught
    there. *)
Definition loads_or_repair (ai_response : pyval) : M pyval :=
  match ai_response with
  | PStr t =>
      match Json.loads t with
      | Some translated_data => ret translated_data
      | None =>
          match Json.loads (Re.repair t) with
          | Some translated_data => ret translated_data
          | None => raise JSONDecodeError
          end
      end
  | _ => raise TypeError
  end.

(** [_call_translation_api(content, target_lang, instruction)]; [PNone]
    is the [None] that the function returns when it fails. *)
Definition _call_translation_api (s : self) (content target_lang instruction : str)
    : M pyval :=
  try_except
    (let* response :=
       requests_post api_url (headers_of s)
         (translation_payload (api_system target_lang)
            (api_prompt content target_lang instruction))
         (Some 120%Z) in
     let* done :=
       if (status_code response =? 200)%Z then
         let* result := lift (Dyn.response_json response) in
         let* ok := Dyn.has_choices result in
         if ok then
           let* content := Dyn.first_choice_content result in
           let* ai_response := lift (Dyn.strip content) in
           let* ai_response := Dyn.unfence_with Dyn.search_lazy ai_response in
           let* translated_data := loads_or_repair ai_response in
           ret (Some translated_data)
         else ret None
       else ret None in
     match done with
     | Some translated_data => ret translated_data
     | None =>
         print (u "Translation error: " ++ str_of_Z (status_code response)) ;;
         ret PNone
     end)
    (any_exception (fun _ => ret PNone)).

End AITranslator.

(** ** [converter.py]: the names of the files that [convert] writes

    Lines 71 to 75, 81 and 95 of [UniversalPDFConverter.convert]. *)

Module UniversalPDFConverter.
Import Py.

(** [s.rfind(c)] for one character: the index of its last occurrence. *)
Fixpoint rfind_from (c : char) (s : str) (i : nat) (last : option nat) : option nat :=
  match s with
  | [] => last
  | x :: t => rfind_from c t (S i) (if x =? c then Some i else last)
  end.

Definition rfind (c : char) (s : str) : option nat := rfind_from c s 0 None.

(** [os.path.splitext(p)[0]]: the path up to its last dot, when that dot
    comes after the last slash and after a character of the file name that
    is not a dot. *)
Definition splitext_root (p : str) : str :=
  match rfind 46 p with
  | None => p
  | Some dot =>
      let start := match rfind 47 p with Some sep => S sep | None => 0%nat end in
      if (start <=? dot)%nat then
        if forallb (N.eqb 46) (firstn (dot - start) (skipn start p)) then p
        else firstn dot p
      else p
  end.

(** [s.replace(old, new)] for a non-empty [old]: the occurrences of [old]
    are replaced from left to right, without overlap. [skip] counts the
    characters of an occurrence that are still to be passed over. *)
Fixpoint replace_from (old new : str) (skip : nat) (s : str) : str :=
  match s with
  | [] => []
  | c :: t =>
      match skip with
      | S k => replace_from old new k t
      | O =>
          if startswith old s then new ++ replace_from old new (length old - 1) t
          else c :: replace_from old new 0 t
      end
  end.

Definition replace (old new s : str) : str := replace_from old new 0 s.

Section Names.

(** [str.isalnum] on one character: a table of the Unicode database,
    which the functions below take as it comes. *)
Variable isalnum : char -> bool.

(** [c.isalnum() or c in (' ', '-', '_')] *)
Definition kept (c : char) : bool :=
  isalnum c || (c =? 32) || (c =? 45) || (c =? 95).

(** Lines 72 to 74: the name of the PDF file without its extension, the
    characters kept, stripped, a hundred characters at most. *)
Definition base_name (pdf_path : str) : str :=
  let base_name := splitext_root (UniversalPDFExtractor.basename pdf_path) in
  let base_name := List.filter kept base_name in
  slice_to 100%Z (strip base_name).

(** The name of the HTML file when [output_html] is [None]. *)
Definition default_output (pdf_path : str) : str :=
  base_name pdf_path ++ u "_shopping_card.html".

End Names.

(** The two JSON files that go with the HTML file. *)
Definition extract_path (output_html : str) : str :=
  replace (u ".html") (u "_extracted.json") output_html.

Definition struct_path (output_html : str) : str :=
  replace (u ".html") (u "_data.json") output_html.

End UniversalPDFConverter.

(** ** Notions about the grammar that the statements use *)

Module Grammar.
Import Py Json.

(** The text that remains, mapped. *)
Definition map_rest {A} (f : str -> str) (p : parse A) : parse A :=
  match p with
  | POk a r => POk a (f r)
  | PErr => PErr
  | PFuel => PFuel
  end.

(** A word without comma, brace or bracket. *)
Definition clean (p : str) : bool :=
  forallb (fun a => negb ((a =? 44) || (a =? 125) || (a =? 93))) p.

(** The low surrogate escape at the head of a text, and what follows
    it. *)
Definition low_ahead (t : str) : option (N * str) :=
  match t with
  | b1 :: b2 :: a :: b :: c :: d :: t3 =>
      if (b1 =? 92) && (b2 =? 117) then
        match hex4 a b c d with
        | Some lo => if is_low_surrogate lo then Some (lo, t3) else None
        | None => None
        end
      else None
  | _ => None
  end.

(** [string_tail s r]: a string literal whose text after the opening quote
    is [s] ends with a closing quote after which [r] remains. *)
Inductive string_tail : str -> str -> Prop :=
| st_quote t : string_tail (34 :: t) t
| st_plain c t r :
    c <> 34 -> c <> 92 -> (c <? 32) = false ->
    string_tail t r -> string_tail (c :: t) r
| st_escape e y t r :
    unescape e = Some y -> string_tail t r -> string_tail (92 :: e :: t) r
| st_unicode a b c d hi t r :
    hex4 a b c d = Some hi -> string_tail t r ->
    string_tail (92 :: 117 :: a :: b :: c :: d :: t) r.

(** A character that is neither whitespace nor a comma nor a closing
    character. *)
Definition vstart (y : char) : bool :=
  negb (isspace y) && negb ((y =? 44) || (y =? 125) || (y =? 93)).

(** A text that starts with such a character. *)
Definition head_vstart (s : str) : Prop :=
  match s with
  | y :: _ => vstart y = true
  | [] => False
  end.

(** The code point of a surrogate pair. *)
Definition paired (hi lo : N) : N := 65536 + (hi - 55296) * 1024 + (lo - 56320).

(** [reads s x r]: the string literal whose text after the opening quote
    is [s] holds the characters [x], and [r] remains after its closing
    quote. *)
Inductive reads : str -> str -> str -> Prop :=
| rd_quote t : reads (34 :: t) [] t
| rd_plain c t x r :
    c <> 34 -> c <> 92 -> (c <? 32) = false ->
    reads t x r -> reads (c :: t) (c :: x) r
| rd_escape e y t x r :
    unescape e = Some y -> reads t x r -> reads (92 :: e :: t) (y :: x) r
| rd_unicode a b c d hi t x r :
    hex4 a b c d = Some hi ->
    (if is_high_surrogate hi then low_ahead t else None) = None ->
    reads t x r -> reads (92 :: 117 :: a :: b :: c :: d :: t) (hi :: x) r
| rd_pair a b c d hi lo t t3 x r :
    hex4 a b c d = Some hi ->
    (if is_high_surrogate hi then low_ahead t else None) = Some (lo, t3) ->
    reads t3 x r ->
    reads (92 :: 117 :: a :: b :: c :: d :: t) (paired hi lo :: x) r.

End Grammar.

(** ** Notions that the statements use *)

Module Spec.
Import Py Eff Doc.

(** The flag of a page, from the text, the tables and the images of the
    page: [len(text) > 0 or len(tables) > 0 or len(images) > 0]. *)
Definition content_flag (pc : page_content) : bool :=
  (0 <? Z.of_nat (length (text pc)))%Z
  || (0 <? Z.of_nat (length (tables pc)))%Z
  || (0 <? Z.of_nat (length (images pc)))%Z.

(** A catalog of two pages for the examples: the first page has text from
    both libraries and a table, the second has nothing but its render
    failing. *)
Definition sample_path : str := u "catalog.pdf".

Definition sample_pdf : pdf :=
  {| plumber_pages :=
       [ {| extract_text := Some (u "Model A100");
            extract_tables := Some [ [ [Some (u "Model"); Some (u "Price")];
                                       [Some (u "A100"); None] ] ] |};
         {| extract_text := None; extract_tables := None |} ];
     fitz_pages :=
       [ {| get_text := Some (u "Model A100 ");
            get_pixmap := Some {| pix_width := 1190; pix_height := 1684;
                                  pix_png := [137; 80; 78; 71] |};
            rect_width := PFloat (u "595.0");
            rect_height := PFloat (u "842.0");
            layout_blocks := inr [0%Z; 1%Z; 0%Z];
            get_text_blocks := Some [] |};
         {| get_text := None;
            get_pixmap := None;
            rect_width := PFloat (u "595.0");
            rect_height := PFloat (u "842.0");
            layout_blocks := inl (u "bad page");
            get_text_blocks := None |} ];
     fitz_metadata := Some [ (u "title", PStr (u "Catalog")) ] |}.

(** A world with that file and nothing else. *)
Definition sample_world : world :=
  {| environ := ∅; files := ∅; pdfs := {[ sample_path := sample_pdf ]};
     genai_models := []; http_script := []; sdk_script := [];
     calls := []; stdout := []; heap := [] |}.

(** A document with no page. *)
Definition empty_content : content :=
  {| metadata := []; pages := []; extraction_methods := [] |}.

(** A world in which only the DeepSeek key is set, with the outcomes that
    the HTTP calls are going to have. *)
Definition deepseek_world (script : list http_outcome) : world :=
  {| environ := {[ u "DEEPSEEK_API_KEY" := u "sk-0123456789" ]};
     files := ∅; pdfs := ∅; genai_models := [];
     http_script := script; sdk_script := [];
     calls := []; stdout := []; heap := [] |}.

(** A world in which only the Anthropic key is set, with the outcomes that
    the client library's calls are going to have. *)
Definition anthropic_world (script : list sdk_outcome) : world :=
  {| environ := {[ u "ANTHROPIC_API_KEY" := u "sk-ant-0123456789" ]};
     files := ∅; pdfs := ∅; genai_models := [];
     http_script := []; sdk_script := script;
     calls := []; stdout := []; heap := [] |}.

(** The envelope of a chat completion around the text [content]. *)
Definition envelope (content : str) : str :=
  Json.dumps
    (PDict [ (u "choices",
              PList [ PDict [ (u "message",
                               PDict [ (u "content", PStr content) ]) ] ]) ]).

(** *** The translator *)

(** The two keys that the translator sets. *)
Definition tagged (rtl : bool) (code : string) (d : dict) : dict :=
  dict_set (u "_language") (PStr (u code)) (dict_set (u "_rtl") (PBool rtl) d).

(** The tags of the languages that the translator knows. *)
Definition language_tags (target_language : str) : option (bool * string) :=
  if str_eqb (lower target_language) (u "persian") then Some (true, "fa"%string)
  else if str_eqb (lower target_language) (u "chinese") then Some (false, "zh"%string)
  else None.

(** The text of the first choice of a chat completion envelope. *)
Definition reply_content (result : pyval) : option str :=
  match result with
  | PDict r =>
      match dict_get (u "choices") r with
      | Some (PList (PDict choice :: _)) =>
          match dict_get (u "message") choice with
          | Some (PDict message) =>
              match dict_get (u "content") message with
              | Some (PStr t) => Some t
              | _ => None
              end
          | _ => None
          end
      | _ => None
      end
  | _ => None
  end.

(** The text inside the fence, as the translator finds it: the greedy
    pattern with the tag [json], or else without a tag. *)
Definition unfence_greedy (t : str) : str :=
  if Py.contains (Re.fence ++ u "json") t then
    match Re.search_fence_greedy (u "json") t with
    | Some g => strip g
    | None => t
    end
  else if Py.contains Re.fence t then
    match Re.search_fence_greedy [] t with
    | Some g => strip g
    | None => t
    end
  else t.

(** A value that [len] accepts. *)
Definition has_len (v : pyval) : bool :=
  match v with
  | PStr _ | PList _ | PDict _ => true
  | _ => false
  end.

(** The dictionary that a text is the JSON of, provided that its
    [products], when present, has a length. *)
Definition loaded_document (t : str) : option dict :=
  match Json.loads t with
  | Some (PDict d) =>
      match dict_get (u "products") d with
      | Some v => if has_len v then Some d else None
      | None => Some d
      end
  | _ => None
  end.

(** The translation that the next HTTP outcome carries, if it carries one:
    status 200, a JSON body, a first choice with a message whose content,
    stripped and out of its fence, is the JSON text of a dictionary (whose
    [products], when present, has a length). Every other outcome is a
    failed call: a raised exception, another status, missing fields of the
    response, or text that does not parse. *)
Definition translated_document (script : list http_outcome) : option dict :=
  match script with
  | HttpResponse st body :: _ =>
      if (st =? 200)%Z then
        match Json.loads body with
        | Some result =>
            match reply_content result with
            | Some t => loaded_document (unfence_greedy (strip t))
            | None => None
            end
        | None => None
        end
      else None
  | _ => None
  end.

(** A world for the translator: one document in the heap and the outcomes
    that the HTTP calls are going to have. *)
Definition translator_world (d : dict) (script : list http_outcome) : world :=
  {| environ := {[ u "DEEPSEEK_API_KEY" := u "sk-0123456789" ]};
     files := ∅; pdfs := ∅; genai_models := [];
     http_script := script; sdk_script := [];
     calls := []; stdout := []; heap := [d] |}.

Definition sample_catalog : dict :=
  [ (u "product_family", PStr (u "X")); (u "products", PList []) ].

Definition sample_translator : AITranslator.self :=
  {| AITranslator.api_key := Some (u "sk-0123456789") |}.

(** A string of whitespace only. *)
Definition all_space (s : str) : bool := forallb isspace s.

(** A string without a backquote. *)
Definition no_backquote (s : str) : bool := negb (existsb (N.eqb 96) s).

(** Lines 157-167 of [_analyze_with_deepseek]: what the DeepSeek path does
    with the text of a completion. *)
Definition deepseek_parse (ai_response : pyval) : M pyval :=
  Eff.bind (UniversalAIAnalyzer.strip_fence ai_response)
    (fun a => ret (UniversalAIAnalyzer._parse_ai_response a)).

(** The completion of the specification's example: the document inside a
    fence tagged [json]. *)
Definition fenced_example : str :=
  Re.fence ++ u "json" ++ nl ++ q "{'product_family':'X','products':[]}" ++ nl
  ++ Re.fence.

(** The same document inside a fence with another language tag. *)
Definition fenced_javascript : str :=
  Re.fence ++ u "javascript" ++ nl ++ q "{'product_family':'X','products':[]}"
  ++ nl ++ Re.fence.

Definition trailing_comma_example : str :=
  q "{'product_family':'X','products':[],}".

Definition example_document : pyval :=
  PDict [ (u "product_family", PStr (u "X")); (u "products", PList []) ].

(** What the specification calls [structure]: the analyzer is built from
    the environment and [analyze_catalog] is called on the document. *)
Definition structure (use_vision : bool) (extracted_content : Doc.content) : M pyval :=
  Eff.bind (UniversalAIAnalyzer.__init__ use_vision)
    (fun s => UniversalAIAnalyzer.analyze_catalog s extracted_content).

(** The line that [_analyze_with_deepseek] prints for a status that is not
    200: the status and the first 200 characters of the body. *)
Definition api_error_line (status : Z) (body : str) : str :=
  u "DeepSeek API error: " ++ str_of_Z status ++ u " - " ++ slice_to 200 body.

(** *** The extractor's files and derived fields *)

(** The file that [_extract_images_pymupdf] writes for the page numbered
    [page_number]: [f"output/images/page_{page_num + 1}_full.png"]. *)
Definition image_path (page_number : Z) : str :=
  u "output/images/page_" ++ str_of_Z page_number ++ u "_full.png".

(** The three count fields of a page are the lengths of the text, of the
    tables and of the images of the page. *)
Definition counts_agree (pc : page_content) : Prop :=
  text_length pc = Z.of_nat (length (text pc))
  /\ table_count pc = Z.of_nat (length (tables pc))
  /\ image_count pc = Z.of_nat (length (images pc)).

(** An image entry of the page [pc] that names the render of that page, a
    file that is there in [fs]. *)
Definition image_saved (fs : gmap str (list N)) (pc : page_content)
    (img : image_ref) : Prop :=
  img_page img = page_number pc
  /\ img_type img = u "full_page"
  /\ img_path img = image_path (page_number pc)
  /\ is_Some (fs !! img_path img).

Definition page_sound (fs : gmap str (list N)) (pc : page_content) : Prop :=
  counts_agree pc /\ (length (images pc) <= 1)%nat
  /\ Forall (image_saved fs pc) (images pc).

(** Everything of the world but the files. *)
Definition same_outside_files (w w' : world) : Prop :=
  environ w' = environ w /\ pdfs w' = pdfs w /\ genai_models w' = genai_models w
  /\ http_script w' = http_script w /\ sdk_script w' = sdk_script w
  /\ calls w' = calls w /\ stdout w' = stdout w /\ heap w' = heap w.

(** From [w] to [w'] no file went away, and the files that changed are
    renders of pages numbered above [lo] and up to [hi]. *)
Definition files_grow (lo hi : Z) (w w' : world) : Prop :=
  (forall p, is_Some (files w !! p) -> is_Some (files w' !! p))
  /\ (forall p, files w' !! p <> files w !! p ->
      exists k, (lo < k <= hi)%Z /\ p = image_path k).

(** The number of pages that [pdfplumber] sees in the file at [path]. *)
Definition plumber_page_count (path : str) (w : world) : Z :=
  match pdfs w !! path with
  | Some p => Z.of_nat (length (plumber_pages p))
  | None => 0
  end.

(** The keys of an entry of [_extract_text_blocks], and an entry with
    these keys whose text is stripped. *)
Definition block_keys : list str :=
  [u "x0"; u "y0"; u "x1"; u "y1"; u "text"; u "block_type"].

Definition stripped_block (d : dict) : Prop :=
  dict_keys d = block_keys
  /\ exists s, dict_get (u "text") d = Some (PStr s) /\ strip s = s.

(** The keys of the metadata of a file that PyMuPDF opens. *)
Definition metadata_keys : list str :=
  [u "title"; u "author"; u "subject"; u "creator"; u "producer";
   u "creation_date"; u "modification_date"; u "source_file"].

(** A file in which PyMuPDF sees one page fewer than [pdfplumber]. *)
Definition short_pdf : pdf :=
  {| plumber_pages := plumber_pages sample_pdf;
     fitz_pages := firstn 1 (fitz_pages sample_pdf);
     fitz_metadata := fitz_metadata sample_pdf |}.

Definition set_pdfs_short (w : world) : world :=
  {| environ := environ w; files := files w;
     pdfs := <[sample_path := short_pdf]> (pdfs w);
     genai_models := genai_models w; http_script := http_script w;
     sdk_script := sdk_script w; calls := calls w; stdout := stdout w;
     heap := heap w |}.

(** *** Provider selection *)

(** The environment variable that holds the key of a provider. *)
Definition provider_variable (p : UniversalAIAnalyzer.provider) : string :=
  match p with
  | UniversalAIAnalyzer.deepseek => "DEEPSEEK_API_KEY"
  | UniversalAIAnalyzer.anthropic => "ANTHROPIC_API_KEY"
  | UniversalAIAnalyzer.huggingface => "HUGGINGFACE_API_KEY"
  | UniversalAIAnalyzer.google => "GOOGLE_API_KEY"
  | UniversalAIAnalyzer.openai => "OPENAI_API_KEY"
  end.

(** The key of a provider: the value of its variable without the whitespace
    around it, empty when the variable is not set. *)
Definition provider_key (w : world) (p : UniversalAIAnalyzer.provider) : str :=
  strip (match environ w !! u (provider_variable p) with Some s => s | None => [] end).

(** The shape that the key of each provider must have. *)
Definition key_passes (w : world) (p : UniversalAIAnalyzer.provider) : bool :=
  let k := provider_key w p in
  match p with
  | UniversalAIAnalyzer.deepseek => startswith (u "sk-") k
  | UniversalAIAnalyzer.anthropic => startswith (u "sk-ant-") k
  | UniversalAIAnalyzer.huggingface => startswith (u "hf_") k || (20 <? length k)%nat
  | UniversalAIAnalyzer.google => (20 <? length k)%nat
  | UniversalAIAnalyzer.openai => startswith (u "sk-") k && (20 <? length k)%nat
  end.

Definition selection_order : list UniversalAIAnalyzer.provider :=
  [ UniversalAIAnalyzer.deepseek; UniversalAIAnalyzer.anthropic;
    UniversalAIAnalyzer.huggingface; UniversalAIAnalyzer.google;
    UniversalAIAnalyzer.openai ].

(** *** The DeepSeek path *)

(** A computation that reads nothing of the world and leaves it alone. *)
Definition effect_free {A} (m : M A) : Prop := exists out, forall w, m w = (out, w).

(** The part of [_analyze_with_deepseek] that follows the request: lines
    151 to 180, as a computation on the response. *)
Definition deepseek_finish (response : response) : M pyval :=
  if (status_code response =? 200)%Z then
    Eff.bind (lift (Dyn.response_json response)) (fun result =>
    Eff.bind (Dyn.has_choices result) (fun ok =>
    if ok then
      Eff.bind (Dyn.first_choice_content result) (fun ai_response =>
      Eff.bind (UniversalAIAnalyzer.strip_fence ai_response) (fun ai_response =>
      let parsed_data := UniversalAIAnalyzer._parse_ai_response ai_response in
      Eff.bind (lift (Dyn.get parsed_data (u "products") (PList []))) (fun products =>
      Eff.bind (lift (Dyn.len products)) (fun num_products =>
      ret parsed_data))))
    else ret UniversalAIAnalyzer._no_ai_configured))
  else
    Eff.bind
      (print (u "DeepSeek API error: " ++ str_of_Z (status_code response) ++ u " - "
              ++ slice_to 200%Z (Eff.text response)))
      (fun _ => ret UniversalAIAnalyzer._no_ai_configured).

(** The request that the DeepSeek path sends with the prompt [prompt]. *)
Definition deepseek_request (prompt : str) (w : world) : call :=
  HttpPost UniversalAIAnalyzer.deepseek_url
    (UniversalAIAnalyzer.deepseek_headers (environ w !! u "DEEPSEEK_API_KEY"))
    (UniversalAIAnalyzer.deepseek_payload UniversalAIAnalyzer.deepseek_system prompt)
    (Some 180%Z).

Definition deepseek_first (content : content) (w : world) : call :=
  deepseek_request (UniversalAIAnalyzer.deepseek_prompt content) w.

Definition deepseek_second (content : content) (w : world) : call :=
  deepseek_request (UniversalAIAnalyzer.deepseek_retry_prompt content) w.

(** The text inside the fence, as the DeepSeek path finds it: the lazy
    pattern with the tag [json], or else without a tag. *)
Definition unfence_lazy (t : str) : str :=
  if Py.contains (Re.fence ++ u "json") t then
    match Re.search_fence_lazy (u "json") t with
    | Some g => strip g
    | None => t
    end
  else if Py.contains Re.fence t then
    match Re.search_fence_lazy [] t with
    | Some g => strip g
    | None => t
    end
  else t.

(** A document on which [len(v.get('products', []))] can be taken: a
    dictionary whose [products], when present, has a length. *)
Definition summarisable (v : pyval) : bool :=
  match v with
  | PDict d =>
      match dict_get (u "products") d with
      | Some x => has_len x
      | None => true
      end
  | _ => false
  end.

(** What the DeepSeek path returns for the parsed completion [parsed]:
    the exception of the summary line ends in the handler. *)
Definition deepseek_accept (parsed : pyval) : pyval :=
  if summarisable parsed then parsed else UniversalAIAnalyzer._no_ai_configured.

(** What [analyze_catalog] makes of the parsed completion [parsed] on the
    paths where the summary line is not guarded. *)
Definition accept_or_raise (parsed : pyval) : result pyval :=
  if summarisable parsed then Ret parsed
  else Raise (match parsed with PDict _ => TypeError | _ => AttributeError end).

(** The environment, the files and the documents in memory are the
    same. *)
Definition same_but_network (w w' : world) : Prop :=
  environ w' = environ w /\ files w' = files w /\ pdfs w' = pdfs w
  /\ genai_models w' = genai_models w /\ heap w' = heap w.

(** The handler [except Exception: return self._no_ai_configured()]
    around a run. *)
Definition settle (x : result pyval * world) : result pyval * world :=
  match x with
  | (Ret v, w) => (Ret v, w)
  | (Raise _, w) => (Ret UniversalAIAnalyzer._no_ai_configured, w)
  end.

(** What the DeepSeek path makes of the outcome that decides: a response
    goes through [deepseek_finish], everything else is a failure. *)
Definition deepseek_decide (o : option http_outcome) (w : world) : result pyval * world :=
  match o with
  | Some (HttpResponse st body) => settle (deepseek_finish (Build_response st body) w)
  | _ => (Ret UniversalAIAnalyzer._no_ai_configured, w)
  end.

(** *** The Hugging Face path *)

Definition huggingface_request (content : content) (w : world) : call :=
  HttpPost UniversalAIAnalyzer.huggingface_url
    [ (u "Authorization",
       PStr (u "Bearer " ++ Dyn.format_opt (environ w !! u "HUGGINGFACE_API_KEY"))) ]
    (PDict [ (u "inputs",
              PStr (u "Analyze this product catalog and extract all product names, models, specifications, and features:"
                    ++ nl ++ nl
                    ++ slice_to 10000%Z (UniversalAIAnalyzer._combine_text content))) ])
    None.

(** What the Hugging Face path takes from a body: [Some (Some s)] is the
    summary of the first element of a list ([summary_text], or the empty
    string when that element is a dictionary without the key), [Some None]
    a body with no first element to look at, [None] a body that makes the
    path fail (no JSON, or a first element that is not a dictionary). *)
Definition huggingface_summary (body : str) : option (option pyval) :=
  match Json.loads body with
  | Some (PList (PDict first :: _)) =>
      Some (Some (match dict_get (u "summary_text") first with
                  | Some x => x
                  | None => PStr []
                  end))
  | Some (PList (_ :: _)) => None
  | Some _ => Some None
  | None => None
  end.

(** A document with exactly one product. *)
Definition one_product (v : pyval) : Prop :=
  exists p, Dyn.get v (u "products") PNone = Ret (PList [p]).

(** *** The paths through a client library *)

(** A full-page render that is on disk. *)
Definition full_page_on_disk (fs : gmap str (list N)) (img : image_ref) : bool :=
  str_eqb (img_type img) (u "full_page") && bool_decide (is_Some (fs !! img_path img)).

(** [images_to_analyze]: from each of the first five pages, the first
    full-page render that is on disk. *)
Definition images_to_analyze (fs : gmap str (list N)) (content : content) : list str :=
  omap (fun pg => option_map img_path (List.find (full_page_on_disk fs) (images pg)))
       (firstn 5 (pages content)).

(** The bytes of the first three of them. *)
Definition vision_images (fs : gmap str (list N)) (content : content) : list (list N) :=
  omap (fun p => fs !! p) (firstn 3 (images_to_analyze fs content)).

Definition text_part (content : content) : pyval :=
  PDict [ (u "type", PStr (u "text"));
          (u "text", PStr (UniversalAIAnalyzer.vision_text content)) ].

Definition claude_image_part (img_data : list N) : pyval :=
  PDict
    [ (u "type", PStr (u "image"));
      (u "source",
       PDict [ (u "type", PStr (u "base64"));
               (u "media_type", PStr (u "image/png"));
               (u "data", PStr (Dyn.b64encode img_data)) ]) ].

Definition openai_image_part (img_data : list N) : pyval :=
  PDict
    [ (u "type", PStr (u "image_url"));
      (u "image_url",
       PDict [ (u "url", PStr (u "data:image/png;base64," ++ Dyn.b64encode img_data)) ]) ].

(** The call that [analyze_catalog] makes with OpenAI or Anthropic
    selected, in vision and in text mode. *)
Definition sdk_request (s : UniversalAIAnalyzer.self) (content : content) (w : world)
    : option call :=
  let imgs := vision_images (files w) content in
  match UniversalAIAnalyzer.ai_provider s, UniversalAIAnalyzer.use_vision s with
  | Some UniversalAIAnalyzer.anthropic, true =>
      Some (AnthropicMessages (u "claude-3-5-sonnet-20241022") 16000%Z
              (PList [ UniversalAIAnalyzer.message "user"
                         (PList (map claude_image_part imgs ++ [text_part content])) ]))
  | Some UniversalAIAnalyzer.openai, true =>
      Some (OpenAIChat (u "gpt-4-vision-preview")
              (PList [ UniversalAIAnalyzer.message "user"
                         (PList (text_part content :: map openai_image_part imgs)) ])
              4096%Z)
  | Some UniversalAIAnalyzer.anthropic, false =>
      Some (AnthropicMessages (u "claude-sonnet-4-20250514") 16000%Z
              (PList [ UniversalAIAnalyzer.message "user"
                         (PStr (UniversalAIAnalyzer.text_prompt content)) ]))
  | Some UniversalAIAnalyzer.openai, false =>
      Some (OpenAIChat (u "gpt-4-turbo-preview")
              (PList [ UniversalAIAnalyzer.message "user"
                         (PStr (UniversalAIAnalyzer.text_prompt content)) ])
              4096%Z)
  | _, _ => None
  end.

(** *** The text and the tables of a document *)

(** The line that [_combine_text] puts above the text of a page. *)
Definition page_header (pg : page_content) : str :=
  u "=== Page " ++ str_of_Z (page_number pg) ++ u " ===" ++ nl.

(** The document with other pages. *)
Definition with_pages (content : content) (ps : list page_content) : Doc.content :=
  {| metadata := metadata content; pages := ps;
     extraction_methods := extraction_methods content |}.

(** *** The translator's calls *)

(** Everything of the world but the documents in memory and the lines
    printed. *)
Definition same_but_memory (w w' : world) : Prop :=
  environ w' = environ w /\ files w' = files w /\ pdfs w' = pdfs w
  /\ genai_models w' = genai_models w /\ http_script w' = http_script w
  /\ sdk_script w' = sdk_script w /\ calls w' = calls w.

(** A computation that touches nothing but the documents in memory and
    the lines printed. *)
Definition quiet {A} (m : M A) : Prop :=
  forall w r w', m w = (r, w') -> same_but_memory w w'.

(** The request of a translation of the document [d]. *)
Definition translation_request (s : AITranslator.self) (rtl : bool) (d : dict) : call :=
  HttpPost AITranslator.api_url (AITranslator.headers_of s)
    (AITranslator.translation_payload
       (if rtl then AITranslator.persian_system else AITranslator.chinese_system)
       ((if rtl then AITranslator.persian_prompt else AITranslator.chinese_prompt)
          (Json.dumps (PDict d))))
    (Some 180%Z).

(** The part of [translate_with] that follows the request. *)
Definition translate_finish (rtl : bool) (code : string) (data : nat)
    (response : response) : M nat :=
  Eff.bind
    (if (status_code response =? 200)%Z then
       Eff.bind (lift (Dyn.response_json response)) (fun result =>
       Eff.bind (Dyn.has_choices result) (fun ok =>
       if ok then
         Eff.bind (Dyn.first_choice_content result) (fun content =>
         Eff.bind (lift (Dyn.strip content)) (fun ai_response =>
         Eff.bind (Dyn.unfence_with Dyn.search_greedy ai_response) (fun ai_response =>
         Eff.bind (AITranslator.load_and_tag ai_response rtl code) (fun translated_data =>
         ret (Some translated_data)))))
       else ret None))
     else ret None)
    (fun done =>
       match done with
       | Some translated_data => ret translated_data
       | None =>
           Eff.bind
             (print (u "Translation failed: " ++ str_of_Z (status_code response)))
             (fun _ => AITranslator.tag_and_return data rtl code)
       end).

(** The text of the reply that the next outcome carries: status 200, a
    JSON body, a first choice whose message content is a string. *)
Definition reply_text (script : list http_outcome) : option str :=
  match script with
  | HttpResponse st body :: _ =>
      if (st =? 200)%Z then
        match Json.loads body with
        | Some result => reply_content result
        | None => None
        end
      else None
  | _ => None
  end.

(** The value that a text parses to, as it is or after the repair. *)
Definition parse_or_repair (t : str) : option pyval :=
  match Json.loads t with
  | Some v => Some v
  | None => Json.loads (Re.repair t)
  end.

(** The handler [except Exception: return None] around a run. *)
Definition settle_none (x : result pyval * world) : result pyval * world :=
  match x with
  | (Ret v, w) => (Ret v, w)
  | (Raise _, w) => (Ret PNone, w)
  end.

Definition api_request (s : AITranslator.self) (content target_lang instruction : str)
    : call :=
  HttpPost AITranslator.api_url (AITranslator.headers_of s)
    (AITranslator.translation_payload (AITranslator.api_system target_lang)
       (AITranslator.api_prompt content target_lang instruction))
    (Some 120%Z).

(** What [_call_translation_api] returns, by the script: the reply out of
    its fence, parsed as it is or after the repair, and [None] in every
    other case. *)
Definition api_result (script : list http_outcome) : pyval :=
  match reply_text script with
  | Some c =>
      match parse_or_repair (unfence_lazy (strip c)) with
      | Some v => v
      | None => PNone
      end
  | None => PNone
  end.

(** The part of [_call_translation_api] that follows the request. *)
Definition api_finish (response : response) : M pyval :=
  Eff.bind
    (if (status_code response =? 200)%Z then
       Eff.bind (lift (Dyn.response_json response)) (fun result =>
       Eff.bind (Dyn.has_choices result) (fun ok =>
       if ok then
         Eff.bind (Dyn.first_choice_content result) (fun content =>
         Eff.bind (lift (Dyn.strip content)) (fun ai_response =>
         Eff.bind (Dyn.unfence_with Dyn.search_lazy ai_response) (fun ai_response =>
         Eff.bind (AITranslator.loads_or_repair ai_response) (fun translated_data =>
         ret (Some translated_data)))))
       else ret None))
     else ret None)
    (fun done =>
       match done with
       | Some translated_data => ret translated_data
       | None =>
           Eff.bind
             (print (u "Translation error: " ++ str_of_Z (status_code response)))
             (fun _ => ret PNone)
       end).

(** *** File names *)

(** The ASCII letters and digits: [str.isalnum] on ASCII text. *)
Definition ascii_alnum (c : char) : bool :=
  ((48 <=? c) && (c <=? 57)) || ((65 <=? c) && (c <=? 90))
  || ((97 <=? c) && (c <=? 122)).

(** *** The repair pass and the limits of the interpreter *)

(** A comma, whitespace or none, and a closing brace or bracket somewhere
    in a string: what the two substitutions of the repair pass rewrite. *)
Fixpoint comma_closed (x : str) : bool :=
  match x with
  | [] => false
  | c :: t => ((c =? 44) && (Re.ws_then 125 t || Re.ws_then 93 t)) || comma_closed t
  end.

(** A value none of whose strings, keys included, holds such a comma. *)
Fixpoint unmarked (v : pyval) : bool :=
  match v with
  | PStr x => negb (comma_closed x)
  | PList l => forallb unmarked l
  | PDict d => forallb (fun kv => negb (comma_closed (fst kv)) && unmarked (snd kv)) d
  | _ => true
  end.

(** [v'] is [v] unless a string of [v] holds a comma that the repair pass
    rewrites. *)
Definition agree (v v' : pyval) : Prop := unmarked v = true -> v' = v.

(** The same for a key and its value. *)
Definition agree_pair (kv kv' : str * pyval) : Prop :=
  (comma_closed (fst kv) = false -> fst kv' = fst kv) /\ agree (snd kv) (snd kv').

(** Pairs with the same key and values that agree. *)
Definition same_key (kv kv' : str * pyval) : Prop :=
  fst kv' = fst kv /\ agree (snd kv) (snd kv').

(** An opening brace or bracket. *)
Definition opening (c : N) : bool := (c =? 123) || (c =? 91).

(** How many characters of a text pass a test. *)
Definition count (f : N -> bool) (s : str) : nat := length (List.filter f s).

(** A text that keeps the decoder within the limits: no more opening
    braces and brackets than the depth allowed, no more digits than an
    integer may have. *)
Definition calm (lim : Limits.limits) (s : str) : Prop :=
  (count opening s <= Limits.max_depth lim)%nat
  /\ (Limits.max_digits lim = 0%nat
      \/ (count Json.is_digit s <= Limits.max_digits lim)%nat).

(** An interpreter with the defaults of CPython 3.11: the recursion limit
    is 1000, which is room for at most that many open objects and arrays
    (the frames of the callers take some of it), and
    [sys.get_int_max_str_digits()] is 4300. *)
Definition cpython_limits : Limits.limits :=
  {| Limits.max_depth := 1000; Limits.max_digits := 4300 |}.

(** A text with room for its opening characters and its digits. *)
Definition bounded (lim : Limits.limits) (room : nat) (s : str) : Prop :=
  (count opening s <= room)%nat
  /\ (Limits.max_digits lim = 0%nat
      \/ (count Json.is_digit s <= Limits.max_digits lim)%nat).

(** An object with a trailing comma and a string that holds a comma before
    a brace. *)
Definition comma_in_string : str := q "{'a':'x,}',}".

(** An array in 1999 arrays, with a trailing comma. *)
Definition deep_trailing_comma : str :=
  repeat 91 2000 ++ [49; 44] ++ repeat 93 2000.

End Spec.

Arguments UniversalAIAnalyzer.deepseek_prompt : simpl never.
Arguments UniversalAIAnalyzer.deepseek_retry_prompt : simpl never.
Arguments UniversalAIAnalyzer.deepseek_payload : simpl never.
Arguments UniversalAIAnalyzer.deepseek_headers : simpl never.
Arguments UniversalAIAnalyzer.text_prompt : simpl never.
Arguments UniversalAIAnalyzer.vision_text : simpl never.
Arguments UniversalAIAnalyzer._no_ai_configured : simpl never.
Arguments UniversalAIAnalyzer.extraction_error : simpl never.
Arguments UniversalAIAnalyzer.parse_error : simpl never.
Arguments AITranslator.translation_payload : simpl never.
Arguments AITranslator.headers_of : simpl never.
Arguments Json.dumps : simpl never.
Arguments AITranslator.tag_and_return : simpl never.
Arguments AITranslator.load_and_tag : simpl never.
Arguments Json.loads : simpl never.
Arguments Re.repair : simpl never.
Arguments Py.u : simpl never.
Arguments Py.requote : simpl never.
Arguments Py.str_of_Z : simpl never.
Arguments Py.slice_to : simpl never.
Arguments Py.strip : simpl never.

(** * Properties *)

Import Py Eff.

(** ** Dictionaries *)

Lemma str_eqb_refl (k : str) : str_eqb k k = true.
Proof. unfold str_eqb. apply bool_decide_eq_true. reflexivity. Qed.

Lemma str_eqb_eq (a b : str) : str_eqb a b = true <-> a = b.
Proof. unfold str_eqb. apply bool_decide_eq_true. Qed.

Lemma str_eqb_neq (a b : str) : str_eqb a b = false <-> a <> b.
Proof. unfold str_eqb. apply bool_decide_eq_false. Qed.

Lemma dict_get_set_eq (k : str) (v : pyval) (d : dict) :
  dict_get k (dict_set k v d) = Some v.
Proof.
  induction d as [|[k' v'] d IH]; simpl.
  - now rewrite str_eqb_refl.
  - destruct (str_eqb k k') eqn:E; simpl.
    + now rewrite str_eqb_refl.
    + now rewrite E.
Qed.

Lemma dict_get_set_ne (k k' : str) (v : pyval) (d : dict) :
  k <> k' -> dict_get k' (dict_set k v d) = dict_get k' d.
Proof.
  intros Hne. induction d as [|[k0 v0] d IH]; simpl.
  - assert (str_eqb k' k = false) as -> by (apply str_eqb_neq; congruence).
    reflexivity.
  - destruct (str_eqb k k0) eqn:E; simpl.
    + apply str_eqb_eq in E. subst k0.
      assert (str_eqb k' k = false) as -> by (apply str_eqb_neq; congruence).
      reflexivity.
    + destruct (str_eqb k' k0); [reflexivity | exact IH].
Qed.

(** ** The extractor *)

Section Extractor.
Import Doc UniversalPDFExtractor Spec.

Lemma extract_images_total (page : fitz_page) (page_num : Z) (w : world) :
  exists imgs w',
    _extract_images_pymupdf page page_num w = (Ret imgs, w')
    /\ pdfs w' = pdfs w.
Proof.
  unfold _extract_images_pymupdf.
  destruct (get_pixmap page) as [pix|]; simpl; eauto.
Qed.

(** Extracting one page returns, numbers the page from 1, and derives the
    flag from the text, the tables and the images that it returns. *)
Lemma extract_page_spec (pp : plumber_page) (fp : fitz_page) (n : Z) (w : world) :
  exists pc w',
    _extract_page_multimethod pp fp n w = (Ret pc, w')
    /\ page_number pc = (n + 1)%Z
    /\ has_content pc = content_flag pc
    /\ pdfs w' = pdfs w.
Proof.
  unfold _extract_page_multimethod, bind.
  destruct (extract_images_total fp n w) as (imgs & w' & -> & Hp).
  simpl. eexists _, w'. repeat split; assumption.
Qed.

Lemma pages_loop_spec (todo : list plumber_page) (fz : list fitz_page) :
  forall (k : nat) (acc : list page_content) (w : world),
    (k + length todo <= length fz)%nat ->
    exists new w',
      pages_loop todo fz k acc w = (Ret (acc ++ new), w')
      /\ map page_number new = map Z.of_nat (seq (S k) (length todo))
      /\ Forall (fun pc => has_content pc = content_flag pc) new.
Proof.
  induction todo as [|pp todo IH]; intros k acc w Hlen; simpl in *.
  - exists [], w. rewrite app_nil_r. repeat split; constructor.
  - destruct (fz !! k) as [fp|] eqn:Hk.
    2:{ apply lookup_ge_None in Hk. lia. }
    unfold bind at 1.
    destruct (extract_page_spec pp fp (Z.of_nat k) w) as (pc & w1 & -> & Hn & Hf & _).
    destruct (IH (S k) (acc ++ [pc]) w1) as (new & w2 & -> & Hnum & Hall); [lia|].
    exists (pc :: new), w2. rewrite <- app_assoc. simpl. repeat split.
    + rewrite Hn, Hnum. f_equal. lia.
    + constructor; assumption.
Qed.

Lemma extract_metadata_total (path : str) (w : world) :
  exists m, _extract_metadata path w = (Ret m, w).
Proof.
  unfold _extract_metadata, try_except, open_pdf, bind, get_world. simpl.
  destruct (pdfs w !! path) as [p|]; simpl.
  - destruct (fitz_metadata p); simpl; eauto.
  - eauto.
Qed.

Lemma pages_loop_flag (fz : list fitz_page) (todo : list plumber_page) :
  forall (k : nat) (acc ps : list page_content) (w w' : world),
    pages_loop todo fz k acc w = (Ret ps, w') ->
    Forall (fun pc => has_content pc = content_flag pc) acc ->
    Forall (fun pc => has_content pc = content_flag pc) ps.
Proof.
  induction todo as [|pp todo IH]; intros k acc ps w w' Hrun Hacc; simpl in Hrun.
  - injection Hrun as <- _. exact Hacc.
  - destruct (fz !! k) as [fp|]; [|discriminate].
    unfold bind at 1 in Hrun.
    destruct (extract_page_spec pp fp (Z.of_nat k) w) as (pc & w1 & E & _ & Hf & _).
    rewrite E in Hrun. eapply IH; [exact Hrun|].
    apply Forall_app. split; [exact Hacc | constructor; [exact Hf | constructor]].
Qed.

(** What [pages_loop] returns when it returns: one page for each page of
    pdfplumber, numbered on from the index, and PyMuPDF had a page at every
    index. *)
Lemma pages_loop_returned (fz : list fitz_page) (todo : list plumber_page) :
  forall (k : nat) (acc ps : list page_content) (w w' : world),
    pages_loop todo fz k acc w = (Ret ps, w') ->
    (k <= length fz)%nat ->
    (k + length todo <= length fz)%nat
    /\ exists new,
         ps = acc ++ new
         /\ map page_number new = map Z.of_nat (seq (S k) (length todo)).
Proof.
  induction todo as [|pp todo IH]; intros k acc ps w w' Hrun Hk0; simpl in Hrun.
  - injection Hrun as <- _. split; [simpl; lia|].
    exists []. rewrite app_nil_r. split; reflexivity.
  - destruct (fz !! k) as [fp|] eqn:Hk; [|discriminate].
    apply lookup_lt_Some in Hk.
    unfold bind at 1 in Hrun.
    destruct (extract_page_spec pp fp (Z.of_nat k) w) as (pc & w1 & E & Hn & _).
    rewrite E in Hrun.
    destruct (IH _ _ _ _ _ Hrun ltac:(lia)) as (Hlen & new & -> & Hnum).
    split; [simpl; lia|].
    exists (pc :: new). rewrite <- app_assoc. split; [reflexivity|].
    simpl. rewrite Hn, Hnum. f_equal. lia.
Qed.




(** C10. On every page of the document that the extractor returns,
    [has_content] equals [len(text) > 0 or len(tables) > 0 or
    len(images) > 0] taken on the [text], [tables] and [images] of that
    same page. *)
Theorem has_content_derived (path : str) (w w' : world) (c : content) :
  extract_complete_content path w = (Ret c, w') ->
  Forall (fun pc => has_content pc = content_flag pc) (pages c).
Proof.
  unfold extract_complete_content. intros Hrun.
  destruct (extract_metadata_total path w) as (m & Hm).
  unfold bind at 1 in Hrun. rewrite Hm in Hrun.
  unfold bind at 1 in Hrun. unfold open_pdf at 1, bind at 1, get_world in Hrun.
  destruct (pdfs w !! path) as [p|]; simpl in Hrun; [|discriminate].
  unfold bind at 1 in Hrun. unfold open_pdf at 1, bind at 1, get_world in Hrun.
  destruct (pdfs w !! path) as [p2|]; simpl in Hrun; [|discriminate].
  unfold bind in Hrun.
  destruct (pages_loop (plumber_pages p) (fitz_pages p2) 0 [] w) as [[ps|e] w1] eqn:E;
    [|discriminate].
  injection Hrun as <- _. simpl.
  eapply pages_loop_flag; [exact E | constructor].
Qed.

Lemma has_content_derived_witness :
  exists c w',
    extract_complete_content sample_path sample_world = (Ret c, w')
    /\ Forall (fun pc => has_content pc = content_flag pc) (pages c).
Proof.
  eexists _, _. split.
  - vm_compute. reflexivity.
  - eapply (has_content_derived sample_path sample_world). vm_compute. reflexivity.
Defined.

End Extractor.

(** ** The analyzer *)

Section Analyzer.
Import Doc UniversalAIAnalyzer Spec.

Local Ltac run :=
  unfold bind, ret, raise, lift, try_except, any_exception, get_world, getenv,
    print, requests_post, sdk_call; simpl.

(** Provider selection reads the environment and leaves the world as it
    is. *)
Lemma detect_returns (w : world) :
  exists p, _detect_available_ai w = (Ret p, w).
Proof.
  unfold _detect_available_ai, getenv_stripped. run.
  repeat match goal with
         | |- context [if ?b then _ else _] => destruct b
         end; eauto.
Qed.

Lemma init_returns (use_vision : bool) (w : world) :
  exists p, __init__ use_vision w
            = (Ret {| UniversalAIAnalyzer.use_vision := use_vision; ai_provider := p |}, w)
            /\ _detect_available_ai w = (Ret p, w).
Proof.
  destruct (detect_returns w) as (p & Hp). exists p. split; [|exact Hp].
  unfold __init__, bind. rewrite Hp. reflexivity.
Qed.

(** C1. With no credential that passes its shape check, building the
    analyzer and calling [analyze_catalog] on any document raises
    [AttributeError]: the branch for "no provider" calls
    [_analyze_with_advanced_rules], which the class does not define. The
    sentinel document of [_no_ai_configured] is not returned. *)
Theorem no_credentials_raises (use_vision : bool) (content : content) (w : world) :
  _detect_available_ai w = (Ret None, w) ->
  (let* s := __init__ use_vision in analyze_catalog s content)%py w
  = (Raise AttributeError, w).
Proof.
  intros Hnone.
  destruct (init_returns use_vision w) as (p & Hinit & Hp).
  rewrite Hnone in Hp. injection Hp as <-.
  unfold bind at 1. rewrite Hinit. reflexivity.
Qed.

Lemma no_credentials_raises_witness :
  (let* s := __init__ true in analyze_catalog s empty_content)%py sample_world
  = (Raise AttributeError, sample_world).
Proof.
  apply (no_credentials_raises true empty_content sample_world).
  vm_compute. reflexivity.
Defined.

(** C2. [analyze_catalog] does raise: in text mode with Anthropic or OpenAI
    selected, a call of the client library that raises sends the handler of
    [_analyze_with_text_ai] to [_analyze_with_advanced_rules], and the
    [AttributeError] of that missing method reaches the caller. *)
Theorem provider_failure_raises (s : self) (content : content) (w : world) :
  (ai_provider s = Some anthropic \/ ai_provider s = Some openai) ->
  use_vision s = false ->
  (sdk_script w = [] \/ exists rest, sdk_script w = SdkRaises :: rest) ->
  exists w', analyze_catalog s content w = (Raise AttributeError, w').
Proof.
  intros Hp Hv Hs. unfold analyze_catalog, _analyze_with_text_ai.
  rewrite Hv. destruct Hp as [-> | ->]; run;
    destruct Hs as [-> | (rest & ->)]; simpl; eauto.
Qed.

Lemma provider_failure_raises_witness :
  exists w',
    analyze_catalog {| UniversalAIAnalyzer.use_vision := false;
                       ai_provider := Some anthropic |}
      empty_content (anthropic_world [SdkRaises])
    = (Raise AttributeError, w').
Proof.
  apply (provider_failure_raises _ empty_content (anthropic_world [SdkRaises])).
  - left. reflexivity.
  - reflexivity.
  - right. exists []. reflexivity.
Defined.

(** C3, as stated, fails: a response with status 500 makes
    [_analyze_with_deepseek] return the "AI not configured" document; no
    exception reaches the caller. *)
Lemma http_500_returns_fallback :
  let r := _analyze_with_deepseek empty_content
             (deepseek_world [HttpResponse 500 (u "boom")]) in
  fst r = Ret _no_ai_configured /\ (forall e, fst r <> Raise e).
Proof.
  assert (fst (_analyze_with_deepseek empty_content
                 (deepseek_world [HttpResponse 500 (u "boom")]))
          = Ret _no_ai_configured) as H by (vm_compute; reflexivity).
  cbv zeta. rewrite H. split; [reflexivity | discriminate].
Qed.

(** C3, amended. When the first attempt of the DeepSeek call fails with a
    transport error other than a timeout, or comes back with a status other
    than 200, the request is not sent again: exactly one call is logged and
    exactly one outcome is consumed. The caller gets the "AI not configured"
    document, and for a status other than 200 one line is printed that holds
    the status and the first 200 characters of the body. *)
Theorem deepseek_failure_not_retried (content : content) (w : world)
    (o : http_outcome) (rest : list http_outcome) :
  http_script w = o :: rest ->
  (o = HttpFailure \/ exists st body, o = HttpResponse st body /\ st <> 200%Z) ->
  exists w',
    _analyze_with_deepseek content w = (Ret _no_ai_configured, w')
    /\ http_script w' = rest
    /\ (exists req, calls w' = calls w ++ [req])
    /\ stdout w' = stdout w ++
         match o with
         | HttpResponse st body => [api_error_line st body]
         | _ => []
         end.
Proof.
  intros Hs Ho. unfold _analyze_with_deepseek. run. rewrite Hs.
  destruct Ho as [-> | (st & body & -> & Hst)]; simpl.
  - eexists. repeat split; simpl; eauto. now rewrite app_nil_r.
  - apply Z.eqb_neq in Hst. rewrite Hst. simpl.
    eexists. repeat split; simpl; eauto.
Qed.

Lemma deepseek_failure_not_retried_witness :
  exists w',
    _analyze_with_deepseek empty_content (deepseek_world [HttpResponse 500 (u "boom")])
    = (Ret _no_ai_configured, w')
    /\ http_script w' = []
    /\ (exists req, calls w' = calls (deepseek_world [HttpResponse 500 (u "boom")]) ++ [req])
    /\ stdout w' = stdout (deepseek_world [HttpResponse 500 (u "boom")]) ++
         [api_error_line 500 (u "boom")].
Proof.
  apply (deepseek_failure_not_retried empty_content
           (deepseek_world [HttpResponse 500 (u "boom")])
           (HttpResponse 500 (u "boom")) []).
  - reflexivity.
  - right. exists 500%Z, (u "boom"). split; [reflexivity | lia].
Defined.

End Analyzer.

(** ** Stripping and fences *)

Section Fences.
Import Doc UniversalAIAnalyzer Spec Re.

Lemma lstrip_fix (t : str) :
  match t with [] => True | x :: _ => isspace x = false end -> lstrip t = t.
Proof. destruct t as [|x t]; simpl; [reflexivity|]. now intros ->. Qed.

Lemma lstrip_head (s : str) :
  match lstrip s with [] => True | x :: _ => isspace x = false end.
Proof.
  induction s as [|c s IH]; simpl; [exact I|].
  destruct (isspace c) eqn:E; [exact IH | exact E].
Qed.

Lemma lstrip_idem (s : str) : lstrip (lstrip s) = lstrip s.
Proof. apply lstrip_fix, lstrip_head. Qed.

Lemma lstrip_all_space (s : str) : all_space s = true -> lstrip s = [].
Proof.
  induction s as [|c s IH]; simpl; [reflexivity|].
  intros H. apply andb_true_iff in H as [-> H]. auto.
Qed.

Lemma lstrip_not_all_space (s : str) : all_space s = false -> lstrip s <> [].
Proof.
  induction s as [|c s IH]; simpl; [discriminate|].
  destruct (isspace c); simpl; [exact IH | discriminate].
Qed.

Lemma lstrip_app_stop (a b : str) (x : char) :
  isspace x = false -> lstrip (a ++ x :: b) = lstrip a ++ x :: b.
Proof.
  intros Hx. induction a as [|c a IH]; simpl.
  - now rewrite Hx.
  - destruct (isspace c); [exact IH | reflexivity].
Qed.

Lemma lstrip_snoc (l : str) (x : char) :
  lstrip (l ++ [x])
  = if all_space l && isspace x then [] else lstrip l ++ [x].
Proof.
  induction l as [|c l IH]; simpl.
  - destruct (isspace x); reflexivity.
  - destruct (isspace c); simpl; [exact IH | reflexivity].
Qed.

Lemma all_space_rev (s : str) : all_space (rev s) = all_space s.
Proof.
  unfold all_space. induction s as [|c s IH]; simpl; [reflexivity|].
  rewrite List.forallb_app, IH. simpl. rewrite andb_true_r. apply andb_comm.
Qed.

Lemma rstrip_cons (x : char) (a : str) :
  rstrip (x :: a) = if all_space (x :: a) then [] else x :: rstrip a.
Proof.
  unfold rstrip. simpl rev. rewrite lstrip_snoc, all_space_rev. simpl all_space.
  rewrite (andb_comm (isspace x)).
  destruct (all_space a && isspace x); [reflexivity|].
  rewrite rev_app_distr. reflexivity.
Qed.

Lemma rstrip_idem (s : str) : rstrip (rstrip s) = rstrip s.
Proof. unfold rstrip. now rewrite rev_involutive, lstrip_idem. Qed.

Lemma rstrip_head (t : str) :
  match t with [] => True | x :: _ => isspace x = false end ->
  match rstrip t with [] => True | x :: _ => isspace x = false end.
Proof.
  destruct t as [|x t]; [intros _; exact I|]. intros Hx.
  rewrite rstrip_cons. destruct (all_space (x :: t)); [exact I | exact Hx].
Qed.

Lemma strip_idem (s : str) : strip (strip s) = strip s.
Proof.
  unfold strip.
  rewrite (lstrip_fix (rstrip (lstrip s))) by apply rstrip_head, lstrip_head.
  apply rstrip_idem.
Qed.

Lemma no_backquote_cons (x : char) (s : str) :
  no_backquote (x :: s) = true -> x <> 96 /\ no_backquote s = true.
Proof.
  unfold no_backquote. cbn [existsb]. rewrite negb_orb. intros H.
  apply andb_true_iff in H as [H1 H2]. split; [|exact H2].
  apply negb_true_iff, N.eqb_neq in H1. congruence.
Qed.

Lemma no_backquote_lstrip (s : str) :
  no_backquote s = true -> no_backquote (lstrip s) = true.
Proof.
  induction s as [|c s IH]; simpl; [auto|]. intros H.
  destruct (isspace c); [|exact H].
  apply no_backquote_cons in H as [_ H]. auto.
Qed.

Lemma startswith_app (p s : str) : startswith p (p ++ s) = true.
Proof. induction p as [|a p IH]; simpl; [reflexivity|]. now rewrite N.eqb_refl. Qed.

Lemma contains_app (p s : str) : Py.contains p (p ++ s) = true.
Proof. destruct (p ++ s) eqn:E; simpl; rewrite <- E, startswith_app; reflexivity. Qed.

Lemma lazy_body_fence (a : str) :
  no_backquote a = true -> lazy_body (a ++ fence) = Some (rstrip a).
Proof.
  induction a as [|x a IH]; intros Hq.
  - reflexivity.
  - apply no_backquote_cons in Hq as [Hx Hq]. specialize (IH Hq).
    rewrite rstrip_cons.
    change ((x :: a) ++ fence) with (x :: a ++ fence).
    cbn [lazy_body]. rewrite IH.
    change (x :: a ++ fence) with ((x :: a) ++ 96 :: [96; 96]).
    rewrite lstrip_app_stop by reflexivity.
    destruct (all_space (x :: a)) eqn:Hs.
    + rewrite (lstrip_all_space _ Hs). reflexivity.
    + pose proof (lstrip_not_all_space _ Hs) as Hne.
      assert (no_backquote (lstrip (x :: a)) = true) as Hl.
      { apply no_backquote_lstrip. unfold no_backquote in *. cbn [existsb].
        apply negb_true_iff. apply orb_false_iff. split.
        - apply N.eqb_neq. congruence.
        - now apply negb_true_iff. }
      destruct (lstrip (x :: a)) as [|y l]; [congruence|].
      apply no_backquote_cons in Hl as [Hy _].
      assert ((96 =? y) = false) as Hy' by (apply N.eqb_neq; congruence).
      unfold fence at 1. cbn [app startswith]. rewrite Hy'. reflexivity.
Qed.

Lemma after_first_here (p s : str) :
  startswith p s = true -> after_first p s = Some (skipn (length p) s).
Proof. intros H. destruct s; simpl; rewrite H; reflexivity. Qed.

Lemma after_first_app (p x : str) : after_first p (p ++ x) = Some x.
Proof.
  rewrite after_first_here by apply startswith_app.
  f_equal. induction p; simpl; auto.
Qed.

Lemma startswith_backquote (p s : str) :
  match s with [] => False | x :: _ => x <> 96 end ->
  startswith (96 :: p) s = false.
Proof.
  destruct s as [|x s]; [intros []|]. intros Hx. cbn [startswith].
  assert ((96 =? x) = false) as -> by (apply N.eqb_neq; congruence).
  reflexivity.
Qed.

Lemma startswith_cons_same (a : char) (p s : str) :
  startswith (a :: p) (a :: s) = startswith p s.
Proof. cbn [startswith]. now rewrite N.eqb_refl. Qed.

(** No tagged fence opens inside or after a text without backquotes. *)
Lemma no_tag_inside (inner : str) :
  no_backquote inner = true ->
  Py.contains (fence ++ u "json") (inner ++ fence) = false.
Proof.
  induction inner as [|x inner IH]; intros Hq.
  - vm_compute. reflexivity.
  - apply no_backquote_cons in Hq as [Hx Hq].
    change ((x :: inner) ++ fence) with (x :: inner ++ fence).
    cbn [Py.contains]. rewrite (IH Hq), orb_false_r.
    apply (startswith_backquote _ (x :: inner ++ fence)). exact Hx.
Qed.

Lemma head_of_app (inner : str) :
  no_backquote inner = true ->
  inner = [] \/ match inner ++ fence with [] => False | x :: _ => x <> 96 end.
Proof.
  destruct inner as [|x inner]; [left; reflexivity|]. intros Hq. right.
  apply no_backquote_cons in Hq as [Hx _]. exact Hx.
Qed.

Lemma not_tagged (inner : str) :
  no_backquote inner = true ->
  startswith (u "json") inner = false ->
  Py.contains (fence ++ u "json") (fence ++ inner ++ fence) = false.
Proof.
  intros Hq Hj.
  change (fence ++ inner ++ fence) with (96 :: 96 :: 96 :: inner ++ fence).
  cbn [Py.contains]. rewrite (no_tag_inside _ Hq), orb_false_r.
  change (fence ++ u "json") with (96 :: 96 :: 96 :: [106; 115; 111; 110]).
  rewrite !startswith_cons_same.
  apply orb_false_iff. split; [|apply orb_false_iff; split].
  - change (u "json") with [106; 115; 111; 110] in Hj.
    destruct inner as [|a [|b [|c [|d inner]]]]; cbn [app fence startswith] in *;
      try exact Hj;
      repeat match goal with
             | |- context [?x =? 96] =>
                 change (x =? 96) with false
             end;
      rewrite ?andb_false_r; reflexivity.
  - destruct (head_of_app inner Hq) as [-> | H].
    + vm_compute. reflexivity.
    + apply startswith_backquote. exact H.
  - destruct (head_of_app inner Hq) as [-> | H].
    + vm_compute. reflexivity.
    + apply startswith_backquote. exact H.
Qed.

(** Group 1 of the lazy search in a text that is a fence, a tag, an
    interior without backquotes and a fence. *)
Lemma search_lazy_wrapped (tag inner : str) :
  no_backquote inner = true ->
  search_fence_lazy tag ((fence ++ tag) ++ inner ++ fence) = Some (strip inner).
Proof.
  intros Hq. unfold search_fence_lazy. rewrite after_first_app.
  change fence with (96 :: [96; 96]) at 1.
  rewrite lstrip_app_stop by reflexivity.
  change (96 :: [96; 96]) with fence.
  rewrite lazy_body_fence by (apply no_backquote_lstrip; exact Hq).
  reflexivity.
Qed.

End Fences.

(** ** The translator *)

Section Translator.
Import AITranslator Spec.

Lemma has_choices_run (result : pyval) (w : world) :
  exists out, Dyn.has_choices result w = (out, w)
              /\ (reply_content result <> None -> out = Ret true).
Proof.
  unfold Dyn.has_choices, bind, lift, ret.
  destruct result as [|b|z|f|x|l|r]; simpl;
    try (eexists; split; [reflexivity|]; intros H; congruence).
  - destruct (Py.contains _ x); simpl; eexists; (split; [reflexivity | intros H; congruence]).
  - destruct (existsb _ l); simpl; eexists; (split; [reflexivity | intros H; congruence]).
  - destruct (dict_get (u "choices") r) as [c|] eqn:E; simpl.
    2:{ eexists; split; [reflexivity|]. intros H; congruence. }
    destruct c as [|b|z|f|x|l|d]; simpl;
      try (eexists; split; [reflexivity|]; intros H; congruence).
    destruct l as [|c l]; simpl;
      [eexists; split; [reflexivity|]; intros H; congruence|].
    eexists; split; [reflexivity|]. intros _. reflexivity.
Qed.

Lemma first_choice_run (result : pyval) (w : world) :
  exists out, Dyn.first_choice_content result w = (out, w)
              /\ match reply_content result with
                 | Some t => out = Ret (PStr t)
                 | None => forall t, out <> Ret (PStr t)
                 end.
Proof.
  unfold Dyn.first_choice_content, reply_content, bind, lift, ret.
  destruct result as [|b|z|f|x|l|r]; simpl;
    try (eexists; split; [reflexivity|]; intros; discriminate).
  destruct (dict_get (u "choices") r) as [c|]; simpl;
    [|eexists; split; [reflexivity|]; intros; discriminate].
  destruct c as [|b|z|f|x|l|d]; simpl;
    try (eexists; split; [reflexivity|]; intros; discriminate).
  - destruct x; simpl; eexists; (split; [reflexivity|]; intros; discriminate).
  - destruct l as [|c l]; simpl;
      [eexists; split; [reflexivity|]; intros; discriminate|].
    destruct c as [|b|z|f|x|l'|d]; simpl;
      try (eexists; split; [reflexivity|]; intros; discriminate).
    destruct (dict_get (u "message") d) as [m|]; simpl;
      [|eexists; split; [reflexivity|]; intros; discriminate].
    destruct m as [|b|z|f|x|l'|m]; simpl;
      try (eexists; split; [reflexivity|]; intros; discriminate).
    destruct (dict_get (u "content") m) as [t|]; simpl;
      [|eexists; split; [reflexivity|]; intros; discriminate].
    destruct t; eexists; (split; [reflexivity|]); try (intros; discriminate).
    reflexivity.
Qed.

Lemma unfence_greedy_run (t : str) (w : world) :
  Dyn.unfence_with Dyn.search_greedy (PStr t) w = (Ret (PStr (unfence_greedy t)), w).
Proof.
  unfold Dyn.unfence_with, unfence_greedy, Dyn.search_greedy, Dyn.contains, bind, lift, ret.
  destruct (Py.contains (Re.fence ++ u "json") t).
  - destruct (Re.search_fence_greedy (u "json") t); reflexivity.
  - destruct (Py.contains Re.fence t); [|reflexivity].
    destruct (Re.search_fence_greedy [] t); reflexivity.
Qed.

Lemma setitem_run (data : nat) (k : str) (v : pyval) (d : dict) (w : world) :
  heap w !! data = Some d ->
  setitem data k v w = (Ret tt, set_heap (<[data := dict_set k v d]> (heap w)) w).
Proof.
  intros H. unfold setitem, deref, bind, get_world, ret, raise. rewrite H. reflexivity.
Qed.

Lemma tag_and_return_run (data : nat) (rtl : bool) (code : string) (d : dict) (w : world) :
  heap w !! data = Some d ->
  tag_and_return data rtl code w
  = (Ret data, set_heap (<[data := tagged rtl code d]> (heap w)) w).
Proof.
  intros H. unfold tag_and_return, bind at 1.
  rewrite (setitem_run _ _ _ d) by exact H.
  unfold bind at 1.
  rewrite (setitem_run _ _ _ (dict_set (u "_rtl") (PBool rtl) d)).
  2:{ simpl. apply list_lookup_insert_eq. eapply lookup_lt_Some; eauto. }
  unfold ret, set_heap. simpl. rewrite list_insert_insert_eq. reflexivity.
Qed.

Lemma tagged_products (rtl : bool) (code : string) (d : dict) :
  dict_get (u "products") (tagged rtl code d) = dict_get (u "products") d.
Proof.
  unfold tagged. rewrite !dict_get_set_ne; [reflexivity | |];
    intros H; vm_compute in H; discriminate.
Qed.

Lemma load_and_tag_run (t : str) (rtl : bool) (code : string) (w : world) :
  exists out w1,
    load_and_tag (PStr t) rtl code w = (out, w1)
    /\ (exists extra, heap w1 = heap w ++ extra)
    /\ match loaded_document t with
       | Some dn => out = Ret (length (heap w)) /\ heap w1 = heap w ++ [tagged rtl code dn]
       | None => exists e, out = Raise e
       end.
Proof.
  unfold load_and_tag, loaded_document.
  destruct (Json.loads t) as [v|]; [|eexists _, w; repeat split; [exists []; now rewrite app_nil_r | eauto]].
  destruct v as [|b|z|f|x|l|dn];
    try (eexists _, w; repeat split; [exists []; now rewrite app_nil_r | eauto]).
  assert (forall x y : list (list N * pyval),
            <[length (heap w) := x]> (heap w ++ [y]) = heap w ++ [x]) as Hins.
  { intros x y. rewrite insert_app_r_alt by lia. now rewrite Nat.sub_diag. }
  unfold bind at 1. unfold alloc at 1.
  unfold bind at 1.
  rewrite (setitem_run _ _ _ dn) by (simpl; apply list_lookup_middle; reflexivity).
  unfold bind at 1.
  rewrite (setitem_run _ _ _ (dict_set (u "_rtl") (PBool rtl) dn)).
  2:{ simpl. rewrite Hins. apply list_lookup_middle. reflexivity. }
  simpl heap. rewrite !Hins.
  fold (tagged rtl code dn).
  unfold bind at 1. unfold deref, bind at 1, get_world. cbn [heap set_heap].
  rewrite (list_lookup_middle (heap w) [] (tagged rtl code dn) (length (heap w)) eq_refl).
  unfold ret at 1. unfold bind at 1. unfold Dyn.get, lift at 1.
  rewrite tagged_products.
  destruct (dict_get (u "products") dn) as [v|]; simpl.
  - destruct v; simpl; eexists _, _; (split; [reflexivity|]);
      (split; [simpl; eexists; reflexivity|]); simpl; eauto.
  - eexists _, _. split; [reflexivity|]. split; [simpl; eexists; reflexivity|].
    simpl. auto.
Qed.

(** What [translate_with] does, by the outcome of the call. *)
Lemma translate_with_run (pf : str -> str) (sys : str) (rtl : bool) (code : string)
    (s : self) (data : nat) (d : dict) (w : world) :
  heap w !! data = Some d ->
  exists r w',
    translate_with pf sys rtl code s data w = (Ret r, w')
    /\ match translated_document (http_script w) with
       | Some dn => r = length (heap w) /\ heap w' = heap w ++ [tagged rtl code dn]
       | None =>
           r = data
           /\ exists extra, heap w' = <[data := tagged rtl code d]> (heap w ++ extra)
       end.
Proof.
  intros Hd.
  assert (forall w1 extra, heap w1 = heap w ++ extra ->
            tag_and_return data rtl code w1
            = (Ret data, set_heap (<[data := tagged rtl code d]> (heap w ++ extra)) w1))
    as Htag.
  { intros w1 extra Hw1. rewrite (tag_and_return_run _ _ _ d).
    - now rewrite Hw1.
    - rewrite Hw1. now apply lookup_app_l_Some. }
  assert (forall w1 extra, heap w1 = heap w ++ extra ->
            exists r w',
              tag_and_return data rtl code w1 = (Ret r, w')
              /\ r = data
              /\ exists extra, heap w' = <[data := tagged rtl code d]> (heap w ++ extra))
    as Hfail.
  { intros w1 extra Hw1. rewrite (Htag _ _ Hw1).
    eexists _, _. split; [reflexivity|]. split; [reflexivity|]. now exists extra. }
  assert (forall w1, heap w1 = heap w -> heap w1 = heap w ++ []) as Hnil
    by (intros w1 ->; now rewrite app_nil_r).
  unfold translate_with, try_except.
  unfold bind at 1. unfold deref at 1, bind at 1, get_world. rewrite Hd. unfold ret at 1.
  unfold bind at 1. unfold requests_post.
  destruct (http_script w) as [|o sc] eqn:Hsc.
  { cbn [any_exception translated_document]. apply (Hfail _ []), Hnil. reflexivity. }
  destruct o as [| |st body].
  { cbn [any_exception translated_document]. apply (Hfail _ []), Hnil. reflexivity. }
  { cbn [any_exception translated_document]. apply (Hfail _ []), Hnil. reflexivity. }
  set (w1 := set_http sc _ w).
  assert (heap w1 = heap w) as Hw1 by reflexivity.
  cbn [status_code translated_document].
  destruct (st =? 200)%Z eqn:Hst.
  2:{ unfold bind at 1. unfold ret at 1. unfold bind at 1, print at 1.
      rewrite (Htag _ []) by (apply Hnil; exact Hw1).
      eexists _, _. split; [reflexivity|]. split; [reflexivity|]. now exists []. }
  unfold bind at 1. unfold bind at 1. unfold Dyn.response_json, lift at 1. cbn [text].
  destruct (Json.loads body) as [result|].
  2:{ cbn [any_exception]. apply (Hfail _ []), Hnil. exact Hw1. }
  destruct (has_choices_run result w1) as (out & Hout & Hrc).
  destruct (first_choice_run result w1) as (out2 & Hout2 & Hrc2).
  unfold bind at 1. rewrite Hout.
  destruct out as [[|]|e].
  - (* a first choice is there *)
    unfold bind at 1. rewrite Hout2.
    destruct out2 as [content|e].
    2:{ destruct (reply_content result); [discriminate|].
        cbn [any_exception]. apply (Hfail _ []), Hnil. exact Hw1. }
    destruct content as [|b|z|f|t|l|m];
      try (destruct (reply_content result); [discriminate|];
           cbn [lift Dyn.strip bind any_exception];
           apply (Hfail _ []), Hnil; exact Hw1).
    destruct (reply_content result) as [t'|]; [|now destruct (Hrc2 t)].
    injection Hrc2 as ->.
    unfold bind at 1. cbn [lift Dyn.strip].
    unfold bind at 1. rewrite unfence_greedy_run.
    destruct (load_and_tag_run (unfence_greedy (strip t')) rtl code w1)
      as (out3 & w2 & Hrun & (extra & Hext) & Hdoc).
    unfold bind at 1. rewrite Hrun.
    destruct (loaded_document (unfence_greedy (strip t'))) as [dn|].
    + destruct Hdoc as [-> Hheap]. cbn [ret].
      eexists _, _. split; [reflexivity|]. rewrite <- Hw1. split; [reflexivity | exact Hheap].
    + destruct Hdoc as [e ->]. cbn [any_exception].
      apply (Hfail _ extra). rewrite Hext, Hw1. reflexivity.
  - (* no choice *)
    destruct (reply_content result); [now specialize (Hrc ltac:(discriminate))|].
    unfold ret at 1. unfold bind at 1, print at 1.
    rewrite (Htag _ []) by (apply Hnil; exact Hw1).
    eexists _, _. split; [reflexivity|]. split; [reflexivity|]. now exists [].
  - destruct (reply_content result); [now specialize (Hrc ltac:(discriminate))|].
    cbn [any_exception]. apply (Hfail _ []), Hnil. exact Hw1.
Qed.

Lemma tagged_get (rtl : bool) (code : string) (d : dict) :
  dict_get (u "_language") (tagged rtl code d) = Some (PStr (u code))
  /\ dict_get (u "_rtl") (tagged rtl code d) = Some (PBool rtl)
  /\ (forall k, k <> u "_language" -> k <> u "_rtl" ->
      dict_get k (tagged rtl code d) = dict_get k d).
Proof.
  unfold tagged. split; [apply dict_get_set_eq|]. split.
  - rewrite dict_get_set_ne by (intros H; vm_compute in H; discriminate).
    apply dict_get_set_eq.
  - intros k H1 H2. rewrite !dict_get_set_ne by congruence. reflexivity.
Qed.

(** The dispatch of [translate_to_language], by the tags of the language. *)
Lemma translate_to_language_tags (s : self) (data : nat) (lang : str) :
  translate_to_language s data lang
  = match language_tags lang with
    | Some (rtl, code) =>
        translate_with (if rtl then persian_prompt else chinese_prompt)
          (if rtl then persian_system else chinese_system) rtl code s data
    | None => ret data
    end.
Proof.
  unfold translate_to_language, language_tags.
  destruct (str_eqb (lower lang) (u "persian")); [reflexivity|].
  destruct (str_eqb (lower lang) (u "chinese")); reflexivity.
Qed.

(** C7. With Persian or Chinese as the target and a provider call that
    fails (an exception of the transport, a status other than 200, a body or
    a content that is not the JSON expected, fields missing in the
    response), [translate_to_language] raises nothing: it returns the
    caller's document, to which it has added [_rtl] and [_language] for the
    language asked; every other key of the document has the value it
    had. *)
Theorem translation_failure_returns_original (s : self) (data : nat) (lang : str)
    (rtl : bool) (code : string) (d : dict) (w : world) :
  heap w !! data = Some d ->
  language_tags lang = Some (rtl, code) ->
  translated_document (http_script w) = None ->
  exists w',
    translate_to_language s data lang w = (Ret data, w')
    /\ heap w' !! data = Some (tagged rtl code d)
    /\ dict_get (u "_language") (tagged rtl code d) = Some (PStr (u code))
    /\ dict_get (u "_rtl") (tagged rtl code d) = Some (PBool rtl)
    /\ (forall k, k <> u "_language" -> k <> u "_rtl" ->
        dict_get k (tagged rtl code d) = dict_get k d).
Proof.
  intros Hd Hlang Hfail. rewrite translate_to_language_tags, Hlang.
  destruct (translate_with_run (if rtl then persian_prompt else chinese_prompt)
              (if rtl then persian_system else chinese_system) rtl code s data d w Hd)
    as (r & w' & Hrun & Hcase).
  rewrite Hfail in Hcase. destruct Hcase as (-> & extra & Hheap).
  exists w'. split; [exact Hrun|]. split; [|apply tagged_get].
  rewrite Hheap. apply list_lookup_insert_eq.
  rewrite length_app. apply lookup_lt_Some in Hd. lia.
Qed.

Lemma translation_failure_returns_original_witness :
  exists w',
    translate_to_language sample_translator 0%nat (u "Persian")
      (translator_world sample_catalog [HttpResponse 503 (u "busy")])
    = (Ret 0%nat, w')
    /\ heap w' !! 0%nat = Some (tagged true "fa" sample_catalog)
    /\ dict_get (u "_language") (tagged true "fa" sample_catalog) = Some (PStr (u "fa"))
    /\ dict_get (u "_rtl") (tagged true "fa" sample_catalog) = Some (PBool true)
    /\ (forall k, k <> u "_language" -> k <> u "_rtl" ->
        dict_get k (tagged true "fa" sample_catalog) = dict_get k sample_catalog).
Proof.
  apply (translation_failure_returns_original sample_translator 0%nat (u "Persian")
           true "fa" sample_catalog
           (translator_world sample_catalog [HttpResponse 503 (u "busy")]));
    vm_compute; reflexivity.
Defined.




End Translator.

(** ** The repair pass and the grammar of [json.loads] *)

Section Repair.
Import Json Re Grammar Spec.

Lemma isspace_not_comma (x : char) : isspace x = true -> x <> 44.
Proof. intros H ->. vm_compute in H. discriminate. Qed.

Lemma is_ws_isspace (x : char) : is_ws x = true -> isspace x = true.
Proof.
  unfold is_ws. intros H.
  repeat (apply orb_true_iff in H as [H|H]); apply N.eqb_eq in H; subst; reflexivity.
Qed.

Lemma sub_close_cons_ne (c x : char) (t : str) :
  x <> 44 -> sub_close c (x :: t) = x :: sub_close c t.
Proof.
  intros H. cbn [sub_close]. apply N.eqb_neq in H. rewrite H. reflexivity.
Qed.

Lemma sub_close_comma (c : char) (t : str) :
  sub_close c (44 :: t) = if ws_then c t then drop_ws c t else 44 :: sub_close c t.
Proof. reflexivity. Qed.

Lemma drop_ws_lstrip (c : char) (t : str) :
  drop_ws c t = match lstrip t with [] => [] | x :: t' => x :: sub_close c t' end.
Proof.
  induction t as [|x t IH]; [reflexivity|].
  cbn [drop_ws lstrip]. destruct (isspace x); [exact IH | reflexivity].
Qed.

Lemma repair_cons_ne (x : char) (t : str) :
  x <> 44 -> repair (x :: t) = x :: repair t.
Proof. intros H. unfold repair. now rewrite !sub_close_cons_ne. Qed.

(** The head of a text after one substitution. *)
Lemma sub_close_head (c x : char) (t : str) :
  exists y t', sub_close c (x :: t) = y :: t' /\ (y = x \/ (x = 44 /\ y = c)).
Proof.
  destruct (N.eq_dec x 44) as [->|Hx].
  - rewrite sub_close_comma. unfold ws_then. rewrite drop_ws_lstrip.
    destruct (lstrip t) as [|z t'] eqn:E; [eauto|].
    destruct (z =? c) eqn:Ez; [|eauto].
    apply N.eqb_eq in Ez. subst z. eauto 10.
  - rewrite sub_close_cons_ne by exact Hx. eauto.
Qed.

Lemma lstrip_sub_close (c : char) (t : str) :
  isspace c = false -> lstrip (sub_close c t) = sub_close c (lstrip t).
Proof.
  intros Hc. induction t as [|x t IH]; [reflexivity|].
  cbn [lstrip]. destruct (isspace x) eqn:Hx.
  - rewrite sub_close_cons_ne by (apply isspace_not_comma; exact Hx).
    cbn [lstrip]. rewrite Hx. exact IH.
  - destruct (sub_close_head c x t) as (y & t' & E & Hy). rewrite E.
    cbn [lstrip].
    assert (isspace y = false) as -> by (destruct Hy as [->|[_ ->]]; assumption).
    reflexivity.
Qed.

Lemma ws_then_sub_close (c d : char) (t : str) :
  isspace c = false -> c <> d -> ws_then d t = true -> d <> 44 ->
  ws_then d (sub_close c t) = true
  /\ tl (lstrip (sub_close c t)) = sub_close c (tl (lstrip t)).
Proof.
  intros Hc Hcd Hd Hd44. unfold ws_then in *. rewrite lstrip_sub_close by exact Hc.
  destruct (lstrip t) as [|x t']; [discriminate|].
  apply N.eqb_eq in Hd. subst x.
  rewrite sub_close_cons_ne by exact Hd44. cbn. rewrite N.eqb_refl. auto.
Qed.

Lemma ws_then_sub_close_false (c d : char) (t : str) :
  isspace c = false -> c <> d -> ws_then d t = false ->
  ws_then d (sub_close c t) = false.
Proof.
  intros Hc Hcd Hd. unfold ws_then in *. rewrite lstrip_sub_close by exact Hc.
  destruct (lstrip t) as [|x t']; [reflexivity|].
  destruct (sub_close_head c x t') as (y & t'' & E & Hy). rewrite E.
  destruct Hy as [->|[_ ->]]; [exact Hd|].
  apply N.eqb_neq. congruence.
Qed.

(** The repair pass at a comma. *)
Lemma repair_comma (t : str) :
  repair (44 :: t)
  = if ws_then 125 t then 125 :: repair (tl (lstrip t))
    else if ws_then 93 t then 93 :: repair (tl (lstrip t))
    else 44 :: repair t.
Proof.
  unfold repair. rewrite sub_close_comma.
  destruct (ws_then 125 t) eqn:H1.
  - rewrite drop_ws_lstrip. unfold ws_then in H1.
    destruct (lstrip t) as [|x t']; [discriminate|].
    apply N.eqb_eq in H1. subst x. now rewrite sub_close_cons_ne.
  - rewrite sub_close_comma. destruct (ws_then 93 t) eqn:H2.
    + destruct (ws_then_sub_close 125 93 t) as [-> _]; try easy.
      rewrite drop_ws_lstrip, lstrip_sub_close by reflexivity.
      unfold ws_then in H2.
      destruct (lstrip t) as [|x t']; [discriminate|].
      apply N.eqb_eq in H2. subst x.
      now rewrite sub_close_cons_ne.
    + now rewrite ws_then_sub_close_false.
Qed.

Lemma repair_nil : repair [] = [].
Proof. reflexivity. Qed.

(** The head of a repaired text: the head of the text, unless that is a
    comma, which stays or gives way to the closing character. *)
Lemma repair_head (x : char) (t : str) :
  exists y t', repair (x :: t) = y :: t'
               /\ (x <> 44 -> y = x /\ t' = repair t)
               /\ (x = 44 -> y = 44 \/ y = 125 \/ y = 93).
Proof.
  destruct (N.eq_dec x 44) as [->|Hx].
  - rewrite repair_comma.
    destruct (ws_then 125 t); [|destruct (ws_then 93 t)];
      eexists _, _; (split; [reflexivity|]); split; try congruence; auto.
  - rewrite repair_cons_ne by exact Hx. eexists _, _.
    split; [reflexivity|]. split; [auto | congruence].
Qed.

Lemma skip_ws_repair (s : str) : skip_ws (repair s) = repair (skip_ws s).
Proof.
  induction s as [|x s IH]; [reflexivity|].
  cbn [skip_ws]. destruct (is_ws x) eqn:Hx.
  - rewrite repair_cons_ne by (apply isspace_not_comma, is_ws_isspace; exact Hx).
    cbn [skip_ws]. rewrite Hx. exact IH.
  - destruct (repair_head x s) as (y & t' & E & Hne & Heq). rewrite E.
    cbn [skip_ws].
    assert (is_ws y = false) as ->; [|reflexivity].
    destruct (N.eq_dec x 44) as [->|Hx44].
    + destruct (Heq eq_refl) as [->|[->| ->]]; reflexivity.
    + destruct (Hne Hx44) as [-> _]. exact Hx.
Qed.

Lemma skip_ws_lstrip (s t : str) (y : char) :
  skip_ws s = y :: t -> isspace y = false -> lstrip s = y :: t.
Proof.
  intros H Hy. induction s as [|x s IH]; [discriminate|].
  cbn [skip_ws] in H. cbn [lstrip]. destruct (is_ws x) eqn:Hx.
  - rewrite (is_ws_isspace _ Hx). auto.
  - injection H as -> ->. now rewrite Hy.
Qed.

Lemma skip_ws_length (s : str) : (length (skip_ws s) <= length s)%nat.
Proof.
  induction s as [|x s IH]; simpl; [lia|]. destruct (is_ws x); simpl; lia.
Qed.

Lemma startswith_repair (p s : str) :
  clean p = true -> startswith p (repair s) = startswith p s.
Proof.
  revert s. induction p as [|a p IH]; intros s Hp; [destruct s; reflexivity|].
  cbn [clean forallb] in Hp. apply andb_true_iff in Hp as [Ha Hp].
  apply negb_true_iff in Ha. apply orb_false_iff in Ha as [Ha H93].
  apply orb_false_iff in Ha as [H44 H125].
  destruct s as [|x s]; [reflexivity|].
  destruct (repair_head x s) as (y & t' & E & Hne & Heq). rewrite E.
  cbn [startswith].
  destruct (N.eq_dec x 44) as [->|Hx].
  - rewrite H44. destruct (Heq eq_refl) as [->|[->| ->]];
      [rewrite H44 | rewrite H125 | rewrite H93]; reflexivity.
  - destruct (Hne Hx) as [-> ->]. now rewrite (IH s Hp).
Qed.

Lemma skipn_repair (p s : str) :
  clean p = true -> startswith p s = true ->
  skipn (length p) (repair s) = repair (skipn (length p) s).
Proof.
  revert s. induction p as [|a p IH]; intros s Hp Hs; [reflexivity|].
  cbn [clean forallb] in Hp. apply andb_true_iff in Hp as [Ha Hp].
  apply negb_true_iff in Ha. apply orb_false_iff in Ha as [Ha _].
  apply orb_false_iff in Ha as [H44 _].
  destruct s as [|x s]; [discriminate|].
  cbn [startswith] in Hs. apply andb_true_iff in Hs as [Hax Hs].
  apply N.eqb_eq in Hax. subst x. apply N.eqb_neq in H44.
  rewrite repair_cons_ne by exact H44. cbn [length skipn]. now apply IH.
Qed.

(** A test on characters that rejects the comma and the two closing
    characters sees the same head before and after the repair. *)
Lemma head_test (f : char -> bool) (x : char) (t : str) :
  f 44 = false -> f 125 = false -> f 93 = false ->
  exists y t', repair (x :: t) = y :: t'
               /\ f y = f x
               /\ (f x = true -> y = x /\ t' = repair t).
Proof.
  intros H44 H125 H93.
  destruct (repair_head x t) as (y & t' & E & Hne & Heq).
  exists y, t'. split; [exact E|].
  destruct (N.eq_dec x 44) as [->|Hx].
  - rewrite H44. split; [|discriminate].
    destruct (Heq eq_refl) as [->|[->| ->]]; assumption.
  - destruct (Hne Hx) as [-> ->]. auto.
Qed.

Lemma span_digits_repair (s : str) :
  span_digits (repair s) = (fst (span_digits s), repair (snd (span_digits s))).
Proof.
  induction s as [|x s IH]; [reflexivity|].
  destruct (head_test is_digit x s) as (y & t' & E & Hy & Hx); try reflexivity.
  rewrite E. cbn [span_digits]. rewrite Hy.
  destruct (is_digit x) eqn:Hd.
  - destruct (Hx eq_refl) as [-> ->]. rewrite IH.
    destruct (span_digits s). reflexivity.
  - rewrite <- E. reflexivity.
Qed.

Lemma int_part_repair (s : str) :
  int_part (repair s)
  = match int_part s with
    | Some (ip, r) => Some (ip, repair r)
    | None => None
    end.
Proof.
  destruct s as [|x s]; [reflexivity|].
  destruct (head_test is_digit x s) as (y & t' & E & Hy & Hx); try reflexivity.
  rewrite E. cbn [int_part]. rewrite Hy.
  destruct (is_digit x) eqn:Hd.
  - destruct (Hx eq_refl) as [-> ->].
    destruct (x =? 48); [reflexivity|].
    rewrite span_digits_repair. destruct (span_digits s). reflexivity.
  - assert ((x =? 48) = false) as Hx48.
    { apply N.eqb_neq. intros ->. discriminate. }
    assert ((y =? 48) = false) as Hy48.
    { apply N.eqb_neq. intros ->. rewrite <- Hy in Hd. discriminate. }
    now rewrite Hx48, Hy48.
Qed.

Lemma frac_part_repair (s : str) :
  frac_part (repair s) = (fst (frac_part s), repair (snd (frac_part s))).
Proof.
  destruct s as [|d s]; [reflexivity|].
  destruct (head_test (fun c => c =? 46) d s) as (y & t' & E & Hy & Hd); try reflexivity.
  cbv beta in *. destruct (d =? 46) eqn:Hd46.
  - destruct (Hd eq_refl) as [-> ->]. rewrite E.
    destruct s as [|c s];
      [rewrite repair_nil in *; cbn [frac_part fst snd]; now rewrite E|].
    destruct (head_test is_digit c s) as (y' & t'' & E' & Hy' & Hc); try reflexivity.
    rewrite E'. cbn [frac_part]. rewrite Hd46, Hy'.
    destruct (is_digit c) eqn:Hdc; cbn [andb].
    + destruct (Hc eq_refl) as [-> ->]. rewrite span_digits_repair.
      destruct (span_digits s). reflexivity.
    + cbn [fst snd]. now rewrite E, E'.
  - assert (frac_part (d :: s) = ([], d :: s)) as ->.
    { cbn [frac_part]. destruct s; [reflexivity|]. now rewrite Hd46. }
    cbn [fst snd]. rewrite E. cbn [frac_part].
    destruct t'; [reflexivity|]. now rewrite Hy.
Qed.

Lemma exp_part_repair (s : str) :
  exp_part (repair s) = (fst (exp_part s), repair (snd (exp_part s))).
Proof.
  destruct s as [|e t]; [reflexivity|].
  destruct (head_test (fun e => (e =? 101) || (e =? 69)) e t)
    as (y & t0 & E & Hy & He); try reflexivity.
  cbv beta in *. destruct ((e =? 101) || (e =? 69)) eqn:Hexp.
  2:{ assert (exp_part (e :: t) = ([], e :: t)) as ->
        by (cbn [exp_part]; now rewrite Hexp).
      cbn [fst snd]. rewrite E. cbn [exp_part]. now rewrite Hy. }
  destruct (He eq_refl) as [-> ->]. clear He Hy.
  destruct t as [|c t'].
  { rewrite repair_nil in *. rewrite E. cbn [exp_part]. rewrite Hexp.
    cbn [span_digits fst snd]. now rewrite E. }
  destruct (head_test (fun c => (c =? 43) || (c =? 45)) c t')
    as (y' & t1 & E' & Hy' & Hc); try reflexivity.
  cbv beta in *. rewrite E, E'. cbn [exp_part]. rewrite Hexp, Hy'.
  destruct ((c =? 43) || (c =? 45)) eqn:Hsign.
  - destruct (Hc eq_refl) as [-> ->]. rewrite span_digits_repair.
    destruct (span_digits t') as [[|d0 ds] r]; cbn [fst snd].
    + now rewrite E, E'.
    + reflexivity.
  - rewrite <- E', span_digits_repair.
    destruct (span_digits (c :: t')) as [[|d0 ds] r]; cbn [fst snd].
    + now rewrite E.
    + reflexivity.
Qed.

Lemma match_number_repair (s : str) :
  match_number (repair s) = map_rest repair (match_number s).
Proof.
  unfold match_number.
  assert (repair [] = []) as Hnil by reflexivity.
  destruct s as [|c t].
  - rewrite Hnil. reflexivity.
  - destruct (head_test (fun c => c =? 45) c t) as (y & t0 & E & Hy & Hc);
      try reflexivity.
    cbv beta in *. rewrite E. rewrite Hy. destruct (c =? 45) eqn:Hneg.
    + destruct (Hc eq_refl) as [-> ->].
      rewrite int_part_repair.
      destruct (int_part t) as [[ip r1]|]; [|reflexivity].
      rewrite frac_part_repair. destruct (frac_part r1) as [fp r2]. cbn [fst snd].
      rewrite exp_part_repair. destruct (exp_part r2) as [ep r3]. cbn [fst snd].
      destruct fp, ep; reflexivity.
    + rewrite <- E.
      rewrite int_part_repair.
      destruct (int_part (c :: t)) as [[ip r1]|]; [|reflexivity].
      rewrite frac_part_repair. destruct (frac_part r1) as [fp r2]. cbn [fst snd].
      rewrite exp_part_repair. destruct (exp_part r2) as [ep r3]. cbn [fst snd].
      destruct fp, ep; reflexivity.
Qed.

Lemma literal_repair (w : string) (v : pyval) (s : str) :
  clean (u w) = true ->
  literal w v (repair s)
  = match literal w v s with
    | Some r => Some (map_rest repair r)
    | None => None
    end.
Proof.
  intros Hw. unfold literal. rewrite startswith_repair by exact Hw.
  destruct (startswith (u w) s) eqn:Hs; [|reflexivity].
  cbn [map_rest]. now rewrite skipn_repair.
Qed.

Lemma constants_repair (s : str) :
  constants (repair s) = map_rest repair (constants s).
Proof.
  unfold constants.
  repeat (rewrite literal_repair by reflexivity;
          match goal with
          | |- context [literal ?w ?v s] => destruct (literal w v s); [reflexivity|]
          end).
  apply match_number_repair.
Qed.

Lemma scanstring_quote (t acc : str) : scanstring (34 :: t) acc = POk (rev acc) t.
Proof. reflexivity. Qed.

Lemma scanstring_plain (c : char) (t acc : str) :
  c <> 34 -> c <> 92 -> (c <? 32) = false ->
  scanstring (c :: t) acc = scanstring t (c :: acc).
Proof.
  intros H1 H2 H3. cbn [scanstring].
  apply N.eqb_neq in H1, H2. now rewrite H1, H2, H3.
Qed.

Lemma scanstring_control (c : char) (t acc : str) :
  c <> 34 -> c <> 92 -> (c <? 32) = true -> scanstring (c :: t) acc = PErr.
Proof.
  intros H1 H2 H3. cbn [scanstring].
  apply N.eqb_neq in H1, H2. now rewrite H1, H2, H3.
Qed.

Lemma unescape_not_u (e y : char) : unescape e = Some y -> e <> 117.
Proof. intros H ->. discriminate. Qed.

Lemma scanstring_escape (e y : char) (t acc : str) :
  unescape e = Some y -> scanstring (92 :: e :: t) acc = scanstring t (y :: acc).
Proof.
  intros H. pose proof (unescape_not_u _ _ H) as Hu. apply N.eqb_neq in Hu.
  cbn [scanstring]. change (92 =? 34) with false. change (92 =? 92) with true.
  cbv iota. now rewrite Hu, H.
Qed.

Lemma scanstring_bad_escape (e : char) (t acc : str) :
  e <> 117 -> unescape e = None -> scanstring (92 :: e :: t) acc = PErr.
Proof.
  intros Hu H. apply N.eqb_neq in Hu.
  cbn [scanstring]. change (92 =? 34) with false. change (92 =? 92) with true.
  cbv iota. now rewrite Hu, H.
Qed.

Lemma scanstring_unicode (a b c d hi : N) (t acc : str) :
  hex4 a b c d = Some hi ->
  scanstring (92 :: 117 :: a :: b :: c :: d :: t) acc
  = match (if is_high_surrogate hi then low_ahead t else None) with
    | Some (lo, t3) =>
        scanstring t3 (65536 + (hi - 55296) * 1024 + (lo - 56320) :: acc)
    | None => scanstring t (hi :: acc)
    end.
Proof.
  intros H. cbn [scanstring].
  change (92 =? 34) with false. change (92 =? 92) with true.
  change (117 =? 117) with true. cbv iota. rewrite H.
  destruct (is_high_surrogate hi); [|reflexivity].
  unfold low_ahead.
  destruct t as [|b1 [|b2 [|a' [|b' [|c' [|d' t3]]]]]]; try reflexivity.
  destruct ((b1 =? 92) && (b2 =? 117)) eqn:E; [|reflexivity].
  destruct (hex4 a' b' c' d') eqn:H'; [destruct (is_low_surrogate n); reflexivity|].
  apply andb_true_iff in E as [E1 E2]. apply N.eqb_eq in E1, E2. subst b1 b2.
  cbn [scanstring]. change (92 =? 34) with false. change (92 =? 92) with true.
  change (117 =? 117) with true. cbv iota. now rewrite H'.
Qed.

Lemma scanstring_bad_unicode (t acc : str) :
  match t with
  | a :: b :: c :: d :: _ => hex4 a b c d = None
  | _ => True
  end ->
  scanstring (92 :: 117 :: t) acc = PErr.
Proof.
  intros H. cbn [scanstring].
  change (92 =? 34) with false. change (92 =? 92) with true.
  change (117 =? 117) with true. cbv iota.
  destruct t as [|a [|b [|c [|d t]]]]; try reflexivity. now rewrite H.
Qed.

Lemma low_ahead_some (t : str) (lo : N) (t3 : str) :
  low_ahead t = Some (lo, t3) ->
  exists a b c d,
    t = 92 :: 117 :: a :: b :: c :: d :: t3
    /\ hex4 a b c d = Some lo /\ is_low_surrogate lo = true.
Proof.
  unfold low_ahead.
  destruct t as [|b1 [|b2 [|a [|b [|c [|d t']]]]]]; try discriminate.
  destruct ((b1 =? 92) && (b2 =? 117)) eqn:E; [|discriminate].
  apply andb_true_iff in E as [E1 E2]. apply N.eqb_eq in E1, E2. subst b1 b2.
  destruct (hex4 a b c d) as [lo'|] eqn:H; [|discriminate].
  destruct (is_low_surrogate lo') eqn:Hl; [|discriminate].
  intros [= -> ->]. eauto 10.
Qed.

Lemma pair_ahead_some (hi : N) (t : str) (lo : N) (t3 : str) :
  (if is_high_surrogate hi then low_ahead t else None) = Some (lo, t3) ->
  exists a b c d,
    t = 92 :: 117 :: a :: b :: c :: d :: t3
    /\ hex4 a b c d = Some lo /\ is_low_surrogate lo = true.
Proof.
  destruct (is_high_surrogate hi); [apply low_ahead_some | discriminate].
Qed.

(** [scanstring] succeeds exactly on the texts that [string_tail]
    describes. *)
Lemma string_tail_sound (n : nat) :
  forall s acc x r,
    (length s <= n)%nat -> scanstring s acc = POk x r -> string_tail s r.
Proof.
  induction n as [|n IH]; intros s acc x r Hn H.
  { destruct s; [discriminate | simpl in Hn; lia]. }
  destruct s as [|c t]; [discriminate|]. cbn [length] in Hn.
  destruct (N.eq_dec c 34) as [->|H34].
  { rewrite scanstring_quote in H. injection H as _ <-. constructor. }
  destruct (N.eq_dec c 92) as [->|H92].
  - destruct t as [|e t1]; [discriminate|]. cbn [length] in Hn.
    destruct (N.eq_dec e 117) as [->|Hu].
    + destruct t1 as [|a [|b [|c [|d t2]]]];
        try (rewrite scanstring_bad_unicode in H by exact I; discriminate).
      cbn [length] in Hn.
      destruct (hex4 a b c d) as [hi|] eqn:Hhex.
      2:{ rewrite scanstring_bad_unicode in H by exact Hhex. discriminate. }
      rewrite (scanstring_unicode _ _ _ _ _ _ _ Hhex) in H.
      destruct (if is_high_surrogate hi then low_ahead t2 else None)
        as [[lo t3]|] eqn:P.
      * destruct (pair_ahead_some _ _ _ _ P) as (a' & b' & c' & d' & -> & Hlo & _).
        cbn [length] in Hn.
        eapply st_unicode; [exact Hhex|]. eapply st_unicode; [exact Hlo|].
        eapply IH; [|exact H]. lia.
      * eapply st_unicode; [exact Hhex|]. eapply IH; [|exact H]. lia.
    + destruct (unescape e) as [y|] eqn:He.
      * rewrite (scanstring_escape _ _ _ _ He) in H.
        eapply st_escape; [exact He|]. eapply IH; [|exact H]. lia.
      * rewrite scanstring_bad_escape in H by assumption. discriminate.
  - destruct (c <? 32) eqn:Hc.
    + rewrite scanstring_control in H by assumption. discriminate.
    + rewrite scanstring_plain in H by assumption.
      apply st_plain; try assumption. eapply IH; [|exact H]. lia.
Qed.

Lemma string_tail_complete (n : nat) :
  forall s r,
    (length s <= n)%nat -> string_tail s r ->
    forall acc, exists x, scanstring s acc = POk x r.
Proof.
  induction n as [|n IH]; intros s r Hn H acc.
  { destruct H; simpl in Hn; lia. }
  destruct H as [t|c t r H34 H92 Hc H|e y t r He H|a b c d hi t r Hhex H];
    cbn [length] in Hn.
  - rewrite scanstring_quote. eauto.
  - rewrite scanstring_plain by assumption. apply IH; [lia | exact H].
  - rewrite (scanstring_escape _ _ _ _ He). apply IH; [lia | exact H].
  - rewrite (scanstring_unicode _ _ _ _ _ _ _ Hhex).
    destruct (if is_high_surrogate hi then low_ahead t else None)
      as [[lo t3]|] eqn:P.
    + destruct (pair_ahead_some _ _ _ _ P) as (a' & b' & c' & d' & -> & Hlo & _).
      cbn [length] in Hn.
      inversion H as [|? ? ? _ Hne| ? ? ? ? Hesc | ? ? ? ? ? ? ? _ H3]; subst.
      * congruence.
      * discriminate.
      * apply IH; [lia | exact H3].
    + apply IH; [lia | exact H].
Qed.

Lemma string_tail_shorter (s r : str) :
  string_tail s r -> (length r < length s)%nat.
Proof. induction 1; cbn [length]; lia. Qed.

Lemma lstrip_length (t t' : str) (y : char) :
  lstrip t = y :: t' -> (length t' < length t)%nat.
Proof.
  induction t as [|c t IH]; [discriminate|]. cbn [lstrip length].
  destruct (isspace c).
  - intros H. specialize (IH H). lia.
  - intros [= -> ->]. lia.
Qed.

(** The whitespace before a plain character of a string literal is part of
    the literal. *)
Lemma string_tail_lstrip (t t' r : str) (y : char) :
  string_tail t r -> lstrip t = y :: t' -> y <> 34 -> y <> 92 ->
  string_tail t' r.
Proof.
  intros H Hl Hy1 Hy2. induction H as [t|c t r H34 H92 Hc H IH|e y0 t r He H IH|a b c d hi t r Hhex H IH].
  - cbn in Hl. injection Hl as <- _. congruence.
  - cbn [lstrip] in Hl. destruct (isspace c).
    + apply IH. exact Hl.
    + injection Hl as _ <-. exact H.
  - cbn in Hl. injection Hl as <- _. congruence.
  - cbn in Hl. injection Hl as <- _. congruence.
Qed.

Lemma hex_val_not_comma (c : char) (v : N) : hex_val c = Some v -> c <> 44.
Proof. intros H ->. discriminate. Qed.

Lemma hex4_not_comma (a b c d hi : N) :
  hex4 a b c d = Some hi -> a <> 44 /\ b <> 44 /\ c <> 44 /\ d <> 44.
Proof.
  unfold hex4. intros H.
  destruct (hex_val a) eqn:Ha; [|discriminate].
  destruct (hex_val b) eqn:Hb; [|discriminate].
  destruct (hex_val c) eqn:Hc; [|discriminate].
  destruct (hex_val d) eqn:Hd; [|discriminate].
  repeat split; eapply hex_val_not_comma; eassumption.
Qed.

(** The repair pass maps a string literal to a string literal, and what
    remains after it to the repair of what remained. *)
Lemma string_tail_repair (n : nat) :
  forall s r,
    (length s <= n)%nat -> string_tail s r -> string_tail (repair s) (repair r).
Proof.
  induction n as [|n IH]; intros s r Hn H.
  { destruct H; simpl in Hn; lia. }
  destruct H as [t|c t r H34 H92 Hc H|e y t r He H|a b c d hi t r Hhex H];
    cbn [length] in Hn.
  - rewrite repair_cons_ne by discriminate. constructor.
  - destruct (N.eq_dec c 44) as [->|H44].
    + rewrite repair_comma. unfold ws_then.
      destruct (lstrip t) as [|z t'] eqn:El.
      { apply st_plain; try assumption. apply IH; [lia | exact H]. }
      pose proof (lstrip_length _ _ _ El) as Hlen.
      destruct (z =? 125) eqn:E125.
      { apply N.eqb_eq in E125. subst z. cbn [tl].
        apply st_plain; try discriminate; [reflexivity|].
        apply IH; [lia|]. eapply string_tail_lstrip; eauto; discriminate. }
      destruct (z =? 93) eqn:E93.
      { apply N.eqb_eq in E93. subst z. cbn [tl].
        apply st_plain; try discriminate; [reflexivity|].
        apply IH; [lia|]. eapply string_tail_lstrip; eauto; discriminate. }
      apply st_plain; try assumption. apply IH; [lia | exact H].
    + rewrite repair_cons_ne by exact H44.
      apply st_plain; try assumption. apply IH; [lia | exact H].
  - assert (e <> 44) as He44 by (intros ->; discriminate).
    rewrite repair_cons_ne by discriminate. rewrite repair_cons_ne by exact He44.
    eapply st_escape; [exact He|]. apply IH; [lia | exact H].
  - destruct (hex4_not_comma _ _ _ _ _ Hhex) as (Ha & Hb & Hc & Hd).
    rewrite !repair_cons_ne by (assumption || discriminate).
    eapply st_unicode; [exact Hhex|]. apply IH; [lia | exact H].
Qed.

(** [scanstring] on a repaired text. *)
Lemma scanstring_repair (s acc x r : str) :
  scanstring s acc = POk x r ->
  forall acc', exists x', scanstring (repair s) acc' = POk x' (repair r).
Proof.
  intros H acc'.
  apply (string_tail_sound (length s)) in H; [|lia].
  apply (string_tail_repair (length s)) in H; [|lia].
  apply (string_tail_complete (length (repair s))); [lia | exact H].
Qed.

Lemma scanstring_shorter (s acc x r : str) :
  scanstring s acc = POk x r -> (length r < length s)%nat.
Proof.
  intros H. apply (string_tail_sound (length s)) in H; [|lia].
  now apply string_tail_shorter.
Qed.

Lemma scanstring_fuel (s acc : str) : scanstring s acc <> PFuel.
Proof.
  remember (length s) as n eqn:Hn. revert s acc Hn.
  induction n as [n IH] using lt_wf_ind. intros s acc Hn.
  destruct s as [|c t]; [discriminate|]. cbn [length] in Hn.
  destruct (N.eq_dec c 34) as [->|H34]; [discriminate|].
  destruct (N.eq_dec c 92) as [->|H92].
  - destruct t as [|e t1]; [discriminate|]. cbn [length] in Hn.
    destruct (N.eq_dec e 117) as [->|Hu].
    + destruct t1 as [|a [|b [|c [|d t2]]]];
        try (rewrite scanstring_bad_unicode by exact I; discriminate).
      cbn [length] in Hn.
      destruct (hex4 a b c d) as [hi|] eqn:Hhex.
      2:{ rewrite scanstring_bad_unicode by exact Hhex. discriminate. }
      rewrite (scanstring_unicode _ _ _ _ _ _ _ Hhex).
      destruct (if is_high_surrogate hi then low_ahead t2 else None)
        as [[lo t3]|] eqn:P.
      * destruct (pair_ahead_some _ _ _ _ P) as (a' & b' & c' & d' & -> & Hlo & _).
        cbn [length] in Hn. eapply IH; [|reflexivity]. lia.
      * eapply IH; [|reflexivity]. lia.
    + destruct (unescape e) as [y|] eqn:He.
      * rewrite (scanstring_escape _ _ _ _ He). eapply IH; [|reflexivity]. lia.
      * rewrite scanstring_bad_escape by assumption. discriminate.
  - destruct (c <? 32) eqn:Hc.
    + rewrite scanstring_control by assumption. discriminate.
    + rewrite scanstring_plain by assumption. eapply IH; [|reflexivity]. lia.
Qed.

(** *** What a value starts with, and how much it reads *)

Lemma is_digit_vstart (y : char) : is_digit y = true -> vstart y = true.
Proof.
  unfold is_digit. intros H. apply andb_true_iff in H as [H1 H2].
  apply N.leb_le in H1, H2.
  assert (y = 48 \/ y = 49 \/ y = 50 \/ y = 51 \/ y = 52 \/ y = 53 \/ y = 54
          \/ y = 55 \/ y = 56 \/ y = 57) as Hy by lia.
  repeat (destruct Hy as [->|Hy]; [reflexivity|]). subst. reflexivity.
Qed.

Lemma span_digits_length (s : str) :
  (length (snd (span_digits s)) <= length s)%nat.
Proof.
  induction s as [|c s IH]; [simpl; lia|]. cbn [span_digits].
  destruct (is_digit c); [|simpl; lia].
  destruct (span_digits s). cbn [snd length] in *. lia.
Qed.

Lemma int_part_spec (s ip r : str) :
  int_part s = Some (ip, r) ->
  (length r < length s)%nat
  /\ match s with y :: _ => is_digit y = true | [] => False end.
Proof.
  destruct s as [|c s]; [discriminate|]. cbn [int_part length].
  destruct (c =? 48) eqn:E.
  - intros [= <- <-]. apply N.eqb_eq in E. subst. split; [lia | reflexivity].
  - destruct (is_digit c) eqn:Hd; [|discriminate].
    pose proof (span_digits_length s) as Hl.
    destruct (span_digits s). intros [= <- <-]. cbn [snd] in Hl. split; [lia | reflexivity].
Qed.

Lemma frac_part_length (s : str) : (length (snd (frac_part s)) <= length s)%nat.
Proof.
  unfold frac_part. destruct s as [|d [|c t]]; try (simpl; lia).
  destruct ((d =? 46) && is_digit c); [|simpl; lia].
  pose proof (span_digits_length t) as Hl.
  destruct (span_digits t). cbn [snd length] in *. lia.
Qed.

Lemma exp_part_length (s : str) : (length (snd (exp_part s)) <= length s)%nat.
Proof.
  unfold exp_part. destruct s as [|e t]; [simpl; lia|].
  destruct ((e =? 101) || (e =? 69)); [|simpl; lia].
  destruct t as [|c t'].
  - cbn. lia.
  - destruct ((c =? 43) || (c =? 45)).
    + pose proof (span_digits_length t') as Hl.
      destruct (span_digits t') as [[|d0 ds] r]; cbn [snd length] in *; lia.
    + pose proof (span_digits_length (c :: t')) as Hl.
      destruct (span_digits (c :: t')) as [[|d0 ds] r]; cbn [snd length] in *; lia.
Qed.

Lemma match_number_spec (s : str) (v : pyval) (r : str) :
  match_number s = POk v r ->
  (length r < length s)%nat
  /\ match s with y :: _ => vstart y = true | [] => False end.
Proof.
  unfold match_number.
  destruct s as [|c t]; [discriminate|].
  destruct (c =? 45) eqn:E.
  - apply N.eqb_eq in E. subst c.
    destruct (int_part t) as [[ip r1]|] eqn:Hi; [|discriminate].
    destruct (int_part_spec _ _ _ Hi) as [Hl Hd].
    pose proof (frac_part_length r1) as Hf. destruct (frac_part r1) as [fp r2].
    pose proof (exp_part_length r2) as He. destruct (exp_part r2) as [ep r3].
    cbn [snd length] in *. intros H. split; [|reflexivity].
    destruct fp, ep; injection H as _ <-; lia.
  - destruct (int_part (c :: t)) as [[ip r1]|] eqn:Hi; [|discriminate].
    destruct (int_part_spec _ _ _ Hi) as [Hl Hd].
    pose proof (frac_part_length r1) as Hf. destruct (frac_part r1) as [fp r2].
    pose proof (exp_part_length r2) as He. destruct (exp_part r2) as [ep r3].
    cbn [snd] in *. intros H. split; [|now apply is_digit_vstart].
    destruct fp, ep; injection H as _ <-; lia.
Qed.

Lemma startswith_length (p s : str) :
  startswith p s = true -> (length p <= length s)%nat.
Proof.
  revert s. induction p as [|a p IH]; intros [|b s] H; cbn in *; try lia; try discriminate.
  apply andb_true_iff in H as [_ H]. specialize (IH _ H). lia.
Qed.

Lemma literal_spec (w : string) (v0 : pyval) (s : str) (v : pyval) (r : str) (y0 : char) (p : str) :
  u w = y0 :: p ->
  literal w v0 s = Some (POk v r) ->
  (length r < length s)%nat /\ match s with y :: _ => y = y0 | [] => False end.
Proof.
  intros Hw. unfold literal. rewrite Hw.
  destruct (startswith (y0 :: p) s) eqn:Hs; [|discriminate].
  intros [= _ <-]. pose proof (startswith_length _ _ Hs) as Hl.
  rewrite length_skipn. cbn [length] in *. split; [lia|].
  destruct s as [|y s]; [discriminate|]. cbn [startswith] in Hs.
  apply andb_true_iff in Hs as [Hy _]. apply N.eqb_eq in Hy. now subst.
Qed.

Lemma literal_ok (w : string) (v0 : pyval) (s : str) (res : parse pyval) :
  literal w v0 s = Some res -> exists r, res = POk v0 r.
Proof.
  unfold literal. destruct (startswith (u w) s); [|discriminate].
  intros [= <-]. eauto.
Qed.

Lemma constants_spec (s : str) (v : pyval) (r : str) :
  constants s = POk v r ->
  (length r < length s)%nat
  /\ match s with y :: _ => vstart y = true | [] => False end.
Proof.
  unfold constants.
  repeat match goal with
         | |- context [literal ?w ?v0 s] =>
             let E := fresh "E" in
             destruct (literal w v0 s) as [res|] eqn:E;
             [ intros ->;
               let y := eval vm_compute in (hd 0 (u w)) in
               let p := eval vm_compute in (tl (u w)) in
               destruct (literal_spec w v0 s v r y p eq_refl E) as [Hl Hh];
               split; [exact Hl|]; destruct s; [exact Hh|]; subst; reflexivity
             | ]
         end.
  apply match_number_spec.
Qed.

Lemma constants_fuel (s : str) : constants s <> PFuel.
Proof.
  unfold constants.
  repeat match goal with
         | |- context [literal ?w ?v0 s] =>
             let E := fresh "E" in
             destruct (literal w v0 s) as [res|] eqn:E;
             [ destruct (literal_ok _ _ _ _ E) as [r ->]; discriminate | ]
         end.
  unfold match_number.
  destruct (match s with c :: t => if c =? 45 then (true, t) else (false, s) | [] => (false, s) end)
    as [neg s1].
  destruct (int_part s1) as [[ip r1]|]; [|discriminate].
  destruct (frac_part r1) as [fp r2]. destruct (exp_part r2) as [ep r3].
  destruct fp, ep; discriminate.
Qed.

Lemma lift_str_ok (p : parse str) (v : pyval) (r : str) :
  lift_str p = POk v r -> exists x, p = POk x r.
Proof. destruct p; try discriminate. intros [= _ <-]. eauto. Qed.

Lemma closes_spec (l : bool) (c : char) (s : str) :
  closes l c s = true -> l = true /\ exists t, s = c :: t.
Proof.
  unfold closes. destruct l; [|discriminate]. destruct s as [|x t]; [discriminate|].
  cbn. intros H. apply N.eqb_eq in H. subst. eauto.
Qed.

(** A value, and a loop of members or elements, reads at least one
    character and starts with a character that can start it. *)
Lemma scan_spec (n : nat) :
  (forall l s v r, scan_once l n s = POk v r ->
     (length r < length s)%nat /\ head_vstart s)
  /\ (forall l s acc v r, members l n s acc = POk v r ->
        (length r < length s)%nat /\ exists t, s = 34 :: t)
  /\ (forall l s acc v r, elements l n s acc = POk v r ->
        (length r < length s)%nat /\ head_vstart s).
Proof.
  induction n as [|n (IHs & IHm & IHe)]; [repeat split; discriminate|].
  split; [|split].
  - intros l s v r H. cbn [scan_once] in H.
    destruct s as [|c t]; [discriminate|].
    destruct (c =? 34) eqn:E34.
    { apply N.eqb_eq in E34. subst c. apply lift_str_ok in H as [x H].
      apply scanstring_shorter in H. cbn [length]. split; [lia | reflexivity]. }
    destruct (c =? 123) eqn:E123.
    { apply N.eqb_eq in E123. subst c. split; [|reflexivity].
      pose proof (skip_ws_length t) as Hl. cbn [length].
      destruct (skip_ws t) as [|c' t']; [discriminate|]. cbn [length] in Hl.
      destruct (c' =? 125); [injection H as _ <-; lia|].
      apply IHm in H as [H _]. cbn [length] in H. lia. }
    destruct (c =? 91) eqn:E91.
    { apply N.eqb_eq in E91. subst c. split; [|reflexivity].
      pose proof (skip_ws_length t) as Hl. cbn [length].
      destruct (skip_ws t) as [|c' t']; [discriminate|]. cbn [length] in Hl.
      destruct (c' =? 93); [injection H as _ <-; lia|].
      apply IHe in H as [H _]. cbn [length] in H. lia. }
    apply constants_spec in H. exact H.
  - intros l s acc v r H. cbn [members] in H.
    destruct s as [|c t]; [discriminate|].
    destruct (c =? 34) eqn:E34; [|discriminate].
    apply N.eqb_eq in E34. subst c. split; [|eauto].
    destruct (scanstring t []) as [key r0| |] eqn:Hk; try discriminate.
    apply scanstring_shorter in Hk.
    pose proof (skip_ws_length r0) as H0.
    destruct (skip_ws r0) as [|c1 r1]; [discriminate|]. cbn [length] in H0.
    destruct (c1 =? 58); [|discriminate].
    pose proof (skip_ws_length r1) as H1.
    destruct (scan_once l n (skip_ws r1)) as [v0 r2| |] eqn:Hv; try discriminate.
    apply IHs in Hv as [Hv _].
    pose proof (skip_ws_length r2) as H2.
    destruct (skip_ws r2) as [|c2 r3]; [discriminate|]. cbn [length] in H2.
    pose proof (skip_ws_length r3) as H3. cbn [length].
    destruct (c2 =? 125); [injection H as _ <-; lia|].
    destruct (c2 =? 44); [|discriminate].
    destruct (closes l 125 (skip_ws r3)) eqn:Hc.
    + apply closes_spec in Hc as [_ [t4 Hc]]. rewrite Hc in *.
      injection H as _ <-. cbn [tl length] in *. lia.
    + apply IHm in H as [H _]. lia.
  - intros l s acc v r H. cbn [elements] in H.
    destruct (scan_once l n s) as [v0 r0| |] eqn:Hv; try discriminate.
    apply IHs in Hv as [Hv Hh]. split; [|exact Hh].
    pose proof (skip_ws_length r0) as H0.
    destruct (skip_ws r0) as [|c2 r1]; [discriminate|]. cbn [length] in H0.
    pose proof (skip_ws_length r1) as H1.
    destruct (c2 =? 93); [injection H as _ <-; lia|].
    destruct (c2 =? 44); [|discriminate].
    destruct (closes l 93 (skip_ws r1)) eqn:Hc.
    + apply closes_spec in Hc as [_ [t4 Hc]]. rewrite Hc in *.
      injection H as _ <-. cbn [tl length] in *. lia.
    + apply IHe in H as [H _]. lia.
Qed.

(** The fuel that [decode] gives is never used up. *)
Lemma scan_fuel (n : nat) :
  (forall l s, (2 * length s + 1 <= n)%nat -> scan_once l n s <> PFuel)
  /\ (forall l s acc, (2 * length s + 2 <= n)%nat -> members l n s acc <> PFuel)
  /\ (forall l s acc, (2 * length s + 2 <= n)%nat -> elements l n s acc <> PFuel).
Proof.
  induction n as [|n (IHs & IHm & IHe)]; [repeat split; intros; lia|].
  split; [|split].
  - intros l s Hn. cbn [scan_once].
    destruct s as [|c t]; [discriminate|]. cbn [length] in Hn.
    destruct (c =? 34).
    { pose proof (scanstring_fuel t []) as Hf.
      destruct (scanstring t []); cbn; congruence. }
    pose proof (skip_ws_length t) as Hl.
    destruct (c =? 123).
    { destruct (skip_ws t) as [|c' t'] eqn:E; [discriminate|].
      destruct (c' =? 125); [discriminate|]. apply IHm. cbn [length] in *. lia. }
    destruct (c =? 91).
    { destruct (skip_ws t) as [|c' t'] eqn:E; [discriminate|].
      destruct (c' =? 93); [discriminate|]. apply IHe. cbn [length] in *. lia. }
    apply constants_fuel.
  - intros l s acc Hn. cbn [members].
    destruct s as [|c t]; [discriminate|]. cbn [length] in Hn.
    destruct (c =? 34); [|discriminate].
    pose proof (scanstring_fuel t []) as Hf.
    destruct (scanstring t []) as [key r0| |] eqn:Hk; try congruence.
    apply scanstring_shorter in Hk.
    pose proof (skip_ws_length r0) as H0.
    destruct (skip_ws r0) as [|c1 r1]; [discriminate|]. cbn [length] in H0.
    destruct (c1 =? 58); [|discriminate].
    pose proof (skip_ws_length r1) as H1.
    pose proof (IHs l (skip_ws r1) ltac:(lia)) as Hs.
    destruct (scan_once l n (skip_ws r1)) as [v0 r2| |] eqn:Hv; try congruence.
    apply (proj1 (scan_spec n)) in Hv as [Hv _].
    pose proof (skip_ws_length r2) as H2.
    destruct (skip_ws r2) as [|c2 r3]; [discriminate|]. cbn [length] in H2.
    pose proof (skip_ws_length r3) as H3.
    destruct (c2 =? 125); [discriminate|].
    destruct (c2 =? 44); [|discriminate].
    destruct (closes l 125 (skip_ws r3)); [discriminate|].
    apply IHm. lia.
  - intros l s acc Hn. cbn [elements].
    pose proof (IHs l s ltac:(lia)) as Hs.
    destruct (scan_once l n s) as [v0 r0| |] eqn:Hv; try congruence.
    apply (proj1 (scan_spec n)) in Hv as [Hv _].
    pose proof (skip_ws_length r0) as H0.
    destruct (skip_ws r0) as [|c2 r1]; [discriminate|]. cbn [length] in H0.
    pose proof (skip_ws_length r1) as H1.
    destruct (c2 =? 93); [discriminate|].
    destruct (c2 =? 44); [|discriminate].
    destruct (closes l 93 (skip_ws r1)); [discriminate|].
    apply IHe. lia.
Qed.

Lemma scan_never_out_of_fuel (l : bool) (s : str) :
  scan_once l (S (2 * length s)) (skip_ws s) <> PFuel.
Proof.
  apply (proj1 (scan_fuel _)). pose proof (skip_ws_length s). lia.
Qed.

Lemma vstart_spec (y : char) :
  vstart y = true -> isspace y = false /\ y <> 44 /\ y <> 125 /\ y <> 93.
Proof.
  unfold vstart. intros H. apply andb_true_iff in H as [H1 H2].
  apply negb_true_iff in H1, H2. apply orb_false_iff in H2 as [H2 H93].
  apply orb_false_iff in H2 as [H44 H125].
  apply N.eqb_neq in H44, H125, H93. auto.
Qed.

Lemma ws_then_head (c y : char) (t t' : str) :
  lstrip t = y :: t' -> ws_then c t = (y =? c).
Proof. unfold ws_then. now intros ->. Qed.

(** The repair pass at the comma of an object or array, by what follows
    the whitespace after it. *)
Lemma repair_comma_closed (c : char) (r3 r4 : str) :
  (c = 125 \/ c = 93) -> skip_ws r3 = c :: r4 ->
  repair (44 :: r3) = c :: repair r4.
Proof.
  intros Hc Hs. rewrite repair_comma.
  assert (lstrip r3 = c :: r4) as Hl
    by (apply skip_ws_lstrip; [exact Hs | destruct Hc as [->| ->]; reflexivity]).
  rewrite !(ws_then_head _ _ _ _ Hl), Hl.
  destruct Hc as [->| ->]; reflexivity.
Qed.

Lemma repair_comma_kept (y : char) (r3 t5 : str) :
  vstart y = true -> skip_ws r3 = y :: t5 ->
  repair (44 :: r3) = 44 :: repair r3
  /\ skip_ws (repair r3) = y :: repair t5.
Proof.
  intros Hy Hs. destruct (vstart_spec _ Hy) as (Hsp & H44 & H125 & H93).
  assert (lstrip r3 = y :: t5) as Hl by (apply skip_ws_lstrip; assumption).
  rewrite repair_comma, !(ws_then_head _ _ _ _ Hl).
  apply N.eqb_neq in H125, H93. rewrite H125, H93. split; [reflexivity|].
  now rewrite skip_ws_repair, Hs, repair_cons_ne.
Qed.

(** *** String literals and the strings they hold *)

(** [scanstring] reads what [reads] describes. *)
Lemma reads_sound (n : nat) :
  forall s acc x r,
    (length s <= n)%nat -> scanstring s acc = POk x r ->
    exists d, x = rev acc ++ d /\ reads s d r.
Proof.
  induction n as [|n IH]; intros s acc x r Hn H.
  { destruct s; [discriminate | simpl in Hn; lia]. }
  destruct s as [|c t]; [discriminate|]. cbn [length] in Hn.
  destruct (N.eq_dec c 34) as [->|H34].
  { rewrite scanstring_quote in H. injection H as <- <-.
    exists []. rewrite app_nil_r. split; [reflexivity|constructor]. }
  destruct (N.eq_dec c 92) as [->|H92].
  - destruct t as [|e t1]; [discriminate|]. cbn [length] in Hn.
    destruct (N.eq_dec e 117) as [->|Hu].
    + destruct t1 as [|a [|b [|c [|d t2]]]];
        try (rewrite scanstring_bad_unicode in H by exact I; discriminate).
      cbn [length] in Hn.
      destruct (hex4 a b c d) as [hi|] eqn:Hhex.
      2:{ rewrite scanstring_bad_unicode in H by exact Hhex. discriminate. }
      rewrite (scanstring_unicode _ _ _ _ _ _ _ Hhex) in H.
      destruct (if is_high_surrogate hi then low_ahead t2 else None)
        as [[lo t3]|] eqn:P.
      * destruct (pair_ahead_some _ _ _ _ P) as (a' & b' & c' & d' & E & Hlo & _).
        assert (length t3 <= n)%nat as Hl by (subst t2; cbn [length] in Hn; clear -Hn; lia).
        destruct (IH _ _ _ _ Hl H) as (x0 & -> & Hr).
        exists (paired hi lo :: x0). split.
        { cbn [rev]. rewrite <- app_assoc. reflexivity. }
        eapply rd_pair; eassumption.
      * destruct (IH t2 _ _ _ ltac:(clear -Hn; lia) H) as (x0 & -> & Hr).
        exists (hi :: x0). split.
        { cbn [rev]. rewrite <- app_assoc. reflexivity. }
        eapply rd_unicode; eassumption.
    + destruct (unescape e) as [y|] eqn:He.
      * rewrite (scanstring_escape _ _ _ _ He) in H.
        destruct (IH t1 _ _ _ ltac:(clear -Hn; lia) H) as (x0 & -> & Hr).
        exists (y :: x0). split.
        { cbn [rev]. rewrite <- app_assoc. reflexivity. }
        eapply rd_escape; eassumption.
      * rewrite scanstring_bad_escape in H by assumption. discriminate.
  - destruct (c <? 32) eqn:Hc.
    + rewrite scanstring_control in H by assumption. discriminate.
    + rewrite scanstring_plain in H by assumption.
      destruct (IH t _ _ _ ltac:(clear -Hn; lia) H) as (x0 & -> & Hr).
      exists (c :: x0). split.
      { cbn [rev]. rewrite <- app_assoc. reflexivity. }
      apply rd_plain; assumption.
Qed.

Lemma reads_complete (s x r : str) :
  reads s x r -> forall acc, scanstring s acc = POk (rev acc ++ x) r.
Proof.
  induction 1 as [t|c t x r H34 H92 Hc H IH|e y t x r He H IH
                 |a b c d hi t x r Hhex P H IH|a b c d hi lo t t3 x r Hhex P H IH];
    intros acc.
  - rewrite scanstring_quote, app_nil_r. reflexivity.
  - rewrite scanstring_plain by assumption. rewrite IH. cbn [rev].
    rewrite <- app_assoc. reflexivity.
  - rewrite (scanstring_escape _ _ _ _ He). rewrite IH. cbn [rev].
    rewrite <- app_assoc. reflexivity.
  - rewrite (scanstring_unicode _ _ _ _ _ _ _ Hhex), P. rewrite IH. cbn [rev].
    rewrite <- app_assoc. reflexivity.
  - rewrite (scanstring_unicode _ _ _ _ _ _ _ Hhex), P. rewrite IH. cbn [rev].
    rewrite <- app_assoc. reflexivity.
Qed.

Lemma comma_closed_tail (c : N) (x : str) :
  comma_closed (c :: x) = false -> comma_closed x = false.
Proof. cbn [comma_closed]. intros H. apply orb_false_iff in H. tauto. Qed.

Lemma comma_closed_comma (x : str) :
  comma_closed (44 :: x) = false -> ws_then 125 x = false /\ ws_then 93 x = false.
Proof.
  cbn [comma_closed]. intros H. apply orb_false_iff in H as [H _].
  cbn [N.eqb Pos.eqb andb] in H. apply orb_false_iff in H. exact H.
Qed.

(** Whitespace and a closing character at the head of the text of a
    literal are at the head of the string that it holds. *)
Lemma reads_ws_then (s x r : str) (c0 : N) :
  reads s x r -> c0 = 125 \/ c0 = 93 -> ws_then c0 s = true -> ws_then c0 x = true.
Proof.
  intros H Hc0. unfold ws_then.
  induction H as [t|c t x r H34 H92 Hc H IH|e y t x r He H IH
                 |a b c d hi t x r Hhex P H IH|a b c d hi lo t t3 x r Hhex P H IH].
  - destruct Hc0 as [-> | ->]; cbn; discriminate.
  - cbn [lstrip]. destruct (isspace c); [exact IH|exact (fun E => E)].
  - destruct Hc0 as [-> | ->]; cbn; discriminate.
  - destruct Hc0 as [-> | ->]; cbn; discriminate.
  - destruct Hc0 as [-> | ->]; cbn; discriminate.
Qed.

Lemma repair_cons_inv (t : str) (y : N) (r' : str) :
  repair t = y :: r' -> y <> 44 -> y <> 125 -> y <> 93 ->
  exists t0, t = y :: t0 /\ r' = repair t0.
Proof.
  intros E H44 H125 H93. destruct t as [|x t0]; [discriminate|].
  destruct (repair_head x t0) as (y0 & t' & E' & Hne & Heq).
  rewrite E' in E. injection E as -> ->.
  destruct (N.eq_dec x 44) as [->|Hx].
  - destruct (Heq eq_refl) as [?|[?|?]]; congruence.
  - destruct (Hne Hx) as [-> ->]. eauto.
Qed.

Lemma hex_val_not_close (c : N) (v : N) : hex_val c = Some v -> c <> 125 /\ c <> 93.
Proof. intros H. split; intros ->; discriminate. Qed.

Lemma hex4_not_close (a b c d hi : N) :
  hex4 a b c d = Some hi ->
  (a <> 125 /\ a <> 93) /\ (b <> 125 /\ b <> 93) /\ (c <> 125 /\ c <> 93)
  /\ (d <> 125 /\ d <> 93).
Proof.
  unfold hex4. intros H.
  destruct (hex_val a) eqn:Ha; [|discriminate].
  destruct (hex_val b) eqn:Hb; [|discriminate].
  destruct (hex_val c) eqn:Hc; [|discriminate].
  destruct (hex_val d) eqn:Hd; [|discriminate].
  repeat split; eapply hex_val_not_close; eassumption.
Qed.

Lemma low_ahead_kept (t : str) (lo : N) (t3 : str) :
  low_ahead t = Some (lo, t3) -> low_ahead (repair t) = Some (lo, repair t3).
Proof.
  intros H. destruct (low_ahead_some _ _ _ H) as (a & b & c & d & -> & Hhex & Hl).
  destruct (hex4_not_comma _ _ _ _ _ Hhex) as (Ha & Hb & Hc & Hd).
  rewrite !repair_cons_ne by (assumption || discriminate).
  unfold low_ahead. cbn [N.eqb Pos.eqb andb]. rewrite Hhex, Hl. reflexivity.
Qed.

Lemma low_ahead_found (t : str) (lo : N) (t3' : str) :
  low_ahead (repair t) = Some (lo, t3') -> exists t3, low_ahead t = Some (lo, t3).
Proof.
  intros H. destruct (low_ahead_some _ _ _ H) as (a & b & c & d & E & Hhex & Hl).
  destruct (hex4_not_comma _ _ _ _ _ Hhex) as (Ha & Hb & Hc & Hd).
  destruct (hex4_not_close _ _ _ _ _ Hhex) as ((Ha1 & Ha2) & (Hb1 & Hb2) & (Hc1 & Hc2) & Hd1 & Hd2).
  apply repair_cons_inv in E as (t0 & -> & E); try discriminate.
  symmetry in E. apply repair_cons_inv in E as (t1 & -> & E); try discriminate.
  symmetry in E. apply repair_cons_inv in E as (t2 & -> & E); try assumption.
  symmetry in E. apply repair_cons_inv in E as (t4 & -> & E); try assumption.
  symmetry in E. apply repair_cons_inv in E as (t5 & -> & E); try assumption.
  symmetry in E. apply repair_cons_inv in E as (t6 & -> & E); try assumption.
  exists t6. unfold low_ahead. cbn [N.eqb Pos.eqb andb]. rewrite Hhex, Hl. reflexivity.
Qed.

Lemma pair_ahead_repair (hi : N) (t : str) :
  (if is_high_surrogate hi then low_ahead (repair t) else None)
  = match (if is_high_surrogate hi then low_ahead t else None) with
    | Some (lo, t3) => Some (lo, repair t3)
    | None => None
    end.
Proof.
  destruct (is_high_surrogate hi); [|reflexivity].
  destruct (low_ahead t) as [[lo t3]|] eqn:E.
  - apply low_ahead_kept. exact E.
  - destruct (low_ahead (repair t)) as [[lo t3']|] eqn:E'; [|reflexivity].
    apply low_ahead_found in E' as [t3 E']. congruence.
Qed.

(** The repair pass leaves a literal as it is when the string that it
    holds has no comma before a closing character. *)
Lemma reads_repair (s x r : str) :
  reads s x r -> comma_closed x = false -> reads (repair s) x (repair r).
Proof.
  induction 1 as [t|c t x r H34 H92 Hc H IH|e y t x r He H IH
                 |a b c d hi t x r Hhex P H IH|a b c d hi lo t t3 x r Hhex P H IH];
    intros Hx.
  - rewrite repair_cons_ne by discriminate. constructor.
  - pose proof (comma_closed_tail _ _ Hx) as Hx'.
    destruct (N.eq_dec c 44) as [->|H44].
    + destruct (comma_closed_comma _ Hx) as [H1 H2].
      rewrite repair_comma.
      assert (ws_then 125 t = false) as ->.
      { destruct (ws_then 125 t) eqn:E; [|reflexivity].
        rewrite (reads_ws_then _ _ _ 125 H (or_introl eq_refl) E) in H1. discriminate. }
      assert (ws_then 93 t = false) as ->.
      { destruct (ws_then 93 t) eqn:E; [|reflexivity].
        rewrite (reads_ws_then _ _ _ 93 H (or_intror eq_refl) E) in H2. discriminate. }
      apply rd_plain; auto.
    + rewrite repair_cons_ne by exact H44. apply rd_plain; auto.
  - assert (e <> 44) as He44 by (intros ->; discriminate).
    rewrite repair_cons_ne by discriminate. rewrite repair_cons_ne by exact He44.
    eapply rd_escape; [exact He|]. apply IH. eapply comma_closed_tail; exact Hx.
  - destruct (hex4_not_comma _ _ _ _ _ Hhex) as (Ha & Hb & Hc & Hd).
    rewrite !repair_cons_ne by (assumption || discriminate).
    eapply rd_unicode; [exact Hhex| |].
    + rewrite pair_ahead_repair, P. reflexivity.
    + apply IH. eapply comma_closed_tail; exact Hx.
  - destruct (hex4_not_comma _ _ _ _ _ Hhex) as (Ha & Hb & Hc & Hd).
    rewrite !repair_cons_ne by (assumption || discriminate).
    eapply (rd_pair _ _ _ _ _ _ _ (repair t3)); [exact Hhex| |].
    + rewrite pair_ahead_repair, P. reflexivity.
    + apply IH. eapply comma_closed_tail; exact Hx.
Qed.

(** [scanstring] on a repaired text: a string is read, the same string
    unless it holds a comma before a closing character. *)
Lemma scanstring_repair_value (s x r : str) :
  scanstring s [] = POk x r ->
  exists x', scanstring (repair s) [] = POk x' (repair r)
             /\ (comma_closed x = false -> x' = x).
Proof.
  intros H. destruct (scanstring_repair _ _ _ _ H []) as [x' Hx'].
  exists x'. split; [exact Hx'|]. intros Hc.
  destruct (reads_sound (length s) s [] x r ltac:(lia) H) as (d & -> & Hr).
  cbn [rev app] in *.
  pose proof (reads_complete _ _ _ (reads_repair _ _ _ Hr Hc) []) as E.
  cbn [rev app] in E. congruence.
Qed.


(** *** Values that the repair pass leaves as they are *)

Lemma Forall2_rev' {A B} (P : A -> B -> Prop) (l : list A) (k : list B) :
  Forall2 P l k -> Forall2 P (rev l) (rev k).
Proof.
  induction 1 as [|x y l k Hxy H IH]; [constructor|].
  cbn [rev]. apply Forall2_app; [exact IH|]. constructor; [exact Hxy|constructor].
Qed.

Lemma agree_refl (v : pyval) : agree v v.
Proof. intros _. reflexivity. Qed.

Lemma agree_list (l l' : list pyval) :
  Forall2 agree l l' -> agree (PList l) (PList l').
Proof.
  intros H Hu. cbn [unmarked] in Hu. f_equal.
  induction H as [|x y l k Hxy H IH]; [reflexivity|].
  cbn [forallb] in Hu. apply andb_true_iff in Hu as [Hx Hl].
  rewrite (Hxy Hx), (IH Hl). reflexivity.
Qed.

Lemma dict_set_same_key (k : str) (v v' : pyval) (D D' : dict) :
  Forall2 same_key D D' -> agree v v' ->
  Forall2 same_key (dict_set k v D) (dict_set k v' D').
Proof.
  intros H Hv. induction H as [|[k0 v0] [k0' v0'] D D' [Hk Hv0] H IH].
  - cbn. constructor; [split; [reflexivity|exact Hv]|constructor].
  - cbn [fst snd] in Hk, Hv0. subst k0'. cbn [dict_set].
    destruct (str_eqb k k0).
    + constructor; [split; [reflexivity|exact Hv]|exact H].
    + constructor; [split; [reflexivity|exact Hv0]|exact IH].
Qed.

Lemma dict_set_keys (k : str) (v : pyval) (D : dict) (k0 : str) :
  k0 = k \/ k0 ∈ map fst D -> k0 ∈ map fst (dict_set k v D).
Proof.
  induction D as [|[k1 v1] D IH]; cbn [dict_set map fst].
  - intros [->|H]; [left|inversion H].
  - unfold str_eqb. destruct (bool_decide (k = k1)) eqn:E.
    + apply bool_decide_eq_true_1 in E. subst k1. cbn [map fst].
      intros [->|H]; [left|exact H].
    + cbn [map fst]. intros [->|H].
      * right. apply IH. left. reflexivity.
      * apply elem_of_cons in H as [->|H]; [left|right; apply IH; right; exact H].
Qed.

Lemma fold_keys (p acc : dict) (k0 : str) :
  k0 ∈ map fst acc \/ k0 ∈ map fst p ->
  k0 ∈ map fst (fold_left (fun d kv => dict_set (fst kv) (snd kv) d) p acc).
Proof.
  revert acc. induction p as [|[k v] p IH]; intros acc; cbn [fold_left map fst snd].
  - intros [H|H]; [exact H|inversion H].
  - intros [H|H]; apply IH.
    + left. apply dict_set_keys. right. exact H.
    + apply elem_of_cons in H as [->|H]; [left; apply dict_set_keys; left; reflexivity|].
      right. exact H.
Qed.

Lemma unmarked_keys (D : dict) (k : str) :
  unmarked (PDict D) = true -> k ∈ map fst D -> comma_closed k = false.
Proof.
  cbn [unmarked]. induction D as [|[k1 v1] D IH]; cbn [forallb map fst snd].
  - intros _ H. inversion H.
  - intros Hu H. apply andb_true_iff in Hu as [Hk Hu].
    apply andb_true_iff in Hk as [Hk _]. apply negb_true_iff in Hk.
    apply elem_of_cons in H as [->|H]; [exact Hk|apply IH; assumption].
Qed.

Lemma fold_same_key (p p' : dict) :
  Forall2 same_key p p' ->
  forall acc acc', Forall2 same_key acc acc' ->
  Forall2 same_key (fold_left (fun d kv => dict_set (fst kv) (snd kv) d) p acc)
                   (fold_left (fun d kv => dict_set (fst kv) (snd kv) d) p' acc').
Proof.
  induction 1 as [|[k v] [k' v'] p p' [Hk Hv] H IH]; intros acc acc' Ha; [exact Ha|].
  cbn [fst snd] in Hk, Hv. subst k'. cbn [fold_left fst snd].
  apply IH. apply dict_set_same_key; assumption.
Qed.

Lemma same_key_eq (D D' : dict) :
  Forall2 same_key D D' -> unmarked (PDict D) = true -> D' = D.
Proof.
  cbn [unmarked]. induction 1 as [|[k v] [k' v'] D D' [Hk Hv] H IH]; [reflexivity|].
  cbn [fst snd forallb] in *. subst k'. intros Hu.
  apply andb_true_iff in Hu as [Hkv Hu]. apply andb_true_iff in Hkv as [_ Hv0].
  rewrite (Hv Hv0), (IH Hu). reflexivity.
Qed.

Lemma agree_dict (p p' : dict) :
  Forall2 agree_pair p p' ->
  agree (PDict (dict_of_pairs p)) (PDict (dict_of_pairs p')).
Proof.
  intros H Hu. f_equal. unfold dict_of_pairs in *.
  apply same_key_eq; [|exact Hu].
  apply fold_same_key; [|constructor].
  assert (forall k, k ∈ map fst p -> comma_closed k = false) as Hk.
  { intros k Hin. apply (unmarked_keys _ k Hu). apply fold_keys. right. exact Hin. }
  clear Hu. induction H as [|[k v] [k' v'] p p' [Hkk Hv] H IH]; [constructor|].
  cbn [fst snd] in *. constructor.
  - split; [|exact Hv]. cbn [fst]. apply Hkk. apply Hk. cbn [map fst]. left.
  - apply IH. intros k0 H0. apply Hk. cbn [map fst]. right. exact H0.
Qed.


(** The strict grammar accepts the repair of every text that the lenient
    grammar accepts, leaves the repair of what the lenient one left, and
    reads the same value unless a string of it holds a comma before a
    closing character. *)
Lemma scan_repair_value (n : nat) :
  (forall s v r, scan_once true n s = POk v r ->
     forall m, (2 * length (repair s) + 1 <= m)%nat ->
     exists v', scan_once false m (repair s) = POk v' (repair r) /\ agree v v')
  /\ (forall s acc v r, members true n s acc = POk v r ->
        forall m acc', (2 * length (repair s) + 2 <= m)%nat ->
        Forall2 agree_pair acc acc' ->
        exists v', members false m (repair s) acc' = POk v' (repair r) /\ agree v v')
  /\ (forall s acc v r, elements true n s acc = POk v r ->
        forall m acc', (2 * length (repair s) + 2 <= m)%nat ->
        Forall2 agree acc acc' ->
        exists v', elements false m (repair s) acc' = POk v' (repair r) /\ agree v v').
Proof.
  induction n as [|n (IHs & IHm & IHe)]; [repeat split; discriminate|].
  split; [|split].
  - (* a value *)
    intros s v r H m Hm.
    destruct (proj1 (scan_spec (S n)) _ _ _ _ H) as [_ Hhead].
    destruct s as [|c t]; [destruct Hhead|].
    destruct (vstart_spec _ Hhead) as (_ & H44 & _ & _).
    rewrite repair_cons_ne in * by exact H44. cbn [length] in Hm.
    destruct m as [|m]; [lia|].
    cbn [scan_once] in H |- *.
    destruct (c =? 34) eqn:E34.
    { destruct (scanstring t []) as [x r0| |] eqn:Hx; try discriminate.
      cbn [lift_str] in H. injection H as <- <-.
      destruct (scanstring_repair_value _ _ _ Hx) as (x' & -> & Hag).
      cbn [lift_str]. eexists. split; [reflexivity|].
      intros Hu. cbn [unmarked] in Hu. apply negb_true_iff in Hu.
      rewrite (Hag Hu). reflexivity. }
    pose proof (skip_ws_length (repair t)) as Hl. rewrite skip_ws_repair in *.
    destruct (c =? 123) eqn:E123.
    { destruct (skip_ws t) as [|c' t']; [discriminate|].
      destruct (c' =? 125) eqn:E125.
      - apply N.eqb_eq in E125. subst c'. injection H as <- <-.
        rewrite repair_cons_ne by discriminate. cbn [N.eqb Pos.eqb].
        eexists. split; [reflexivity|apply agree_refl].
      - destruct (proj1 (proj2 (scan_spec n)) _ _ _ _ _ H) as [_ [t5 [= -> ->]]].
        rewrite repair_cons_ne in * by discriminate. cbn [N.eqb Pos.eqb].
        rewrite <- (repair_cons_ne 34 t5) by discriminate.
        apply (IHm _ _ _ _ H); [|constructor].
        rewrite repair_cons_ne by discriminate. lia. }
    destruct (c =? 91) eqn:E91.
    { destruct (skip_ws t) as [|c' t']; [discriminate|].
      destruct (c' =? 93) eqn:E93.
      - apply N.eqb_eq in E93. subst c'. injection H as <- <-.
        rewrite repair_cons_ne by discriminate. cbn [N.eqb Pos.eqb].
        eexists. split; [reflexivity|apply agree_refl].
      - destruct (proj2 (proj2 (scan_spec n)) _ _ _ _ _ H) as [_ Hh].
        destruct (vstart_spec _ Hh) as (_ & Hc44 & _ & _).
        rewrite repair_cons_ne in * by exact Hc44. rewrite E93.
        rewrite <- (repair_cons_ne c' t') by exact Hc44.
        apply (IHe _ _ _ _ H); [|constructor].
        rewrite repair_cons_ne by exact Hc44. lia. }
    rewrite <- (repair_cons_ne c t) by exact H44.
    rewrite constants_repair, H. cbn [map_rest].
    eexists. split; [reflexivity|apply agree_refl].
  - (* the members of an object *)
    intros s acc v r H m acc' Hm Hacc.
    destruct (proj1 (proj2 (scan_spec (S n))) _ _ _ _ _ H) as [_ [t ->]].
    rewrite repair_cons_ne in * by discriminate. cbn [length] in Hm.
    destruct m as [|m]; [lia|].
    cbn [members] in H |- *. cbn [N.eqb Pos.eqb] in H |- *.
    destruct (scanstring t []) as [key r0| |] eqn:Hk; try discriminate.
    destruct (scanstring_repair_value _ _ _ Hk) as (key' & Hk' & Hkey).
    rewrite Hk'. apply scanstring_shorter in Hk'.
    pose proof (skip_ws_length (repair r0)) as H0. rewrite skip_ws_repair in *.
    destruct (skip_ws r0) as [|c1 r1]; [discriminate|].
    destruct (c1 =? 58) eqn:E58; [|discriminate].
    apply N.eqb_eq in E58. subst c1.
    rewrite repair_cons_ne in * by discriminate. cbn [N.eqb Pos.eqb length] in *.
    pose proof (skip_ws_length (repair r1)) as H1. rewrite skip_ws_repair in *.
    destruct (scan_once true n (skip_ws r1)) as [v0 r2| |] eqn:Hv; try discriminate.
    destruct (IHs _ _ _ Hv m ltac:(lia)) as (v0' & Hv' & Hag).
    rewrite Hv'. apply (proj1 (scan_spec m)) in Hv' as [Hv' _].
    pose proof (skip_ws_length (repair r2)) as H2. rewrite skip_ws_repair in *.
    assert (Forall2 agree_pair ((key, v0) :: acc) ((key', v0') :: acc')) as Hacc'.
    { constructor; [split; [exact Hkey|exact Hag]|exact Hacc]. }
    destruct (skip_ws r2) as [|c2 r3]; [discriminate|].
    destruct (c2 =? 125) eqn:E125.
    { apply N.eqb_eq in E125. subst c2. injection H as <- <-.
      rewrite repair_cons_ne by discriminate. cbn [N.eqb Pos.eqb].
      eexists. split; [reflexivity|].
      apply agree_dict. exact (Forall2_rev' _ _ _ Hacc'). }
    destruct (c2 =? 44) eqn:E44; [|discriminate].
    apply N.eqb_eq in E44. subst c2.
    destruct (closes true 125 (skip_ws r3)) eqn:Hc.
    { apply closes_spec in Hc as [_ [r4 Hc]]. rewrite Hc in H.
      injection H as <- <-. cbn [tl].
      rewrite (repair_comma_closed 125 r3 r4) by auto. cbn [N.eqb Pos.eqb].
      eexists. split; [reflexivity|].
      apply agree_dict. exact (Forall2_rev' _ _ _ Hacc'). }
    destruct (proj1 (proj2 (scan_spec n)) _ _ _ _ _ H) as [_ [t5 Hs3]].
    destruct (repair_comma_kept 34 r3 t5 eq_refl Hs3) as [Hc1 Hc2].
    rewrite Hc1 in *. cbn [N.eqb Pos.eqb closes andb length] in *.
    pose proof (skip_ws_length (repair r3)) as H3.
    rewrite skip_ws_repair in *.
    apply (IHm _ _ _ _ H); [lia|exact Hacc'].
  - (* the elements of an array *)
    intros s acc v r H m acc' Hm Hacc.
    destruct m as [|m]; [lia|].
    cbn [elements] in H |- *.
    destruct (scan_once true n s) as [v0 r0| |] eqn:Hv; try discriminate.
    destruct (IHs _ _ _ Hv m ltac:(lia)) as (v0' & Hv' & Hag).
    rewrite Hv'. apply (proj1 (scan_spec m)) in Hv' as [Hv' _].
    pose proof (skip_ws_length (repair r0)) as H0. rewrite skip_ws_repair in *.
    assert (Forall2 agree (v0 :: acc) (v0' :: acc')) as Hacc'.
    { constructor; [exact Hag|exact Hacc]. }
    destruct (skip_ws r0) as [|c2 r1]; [discriminate|].
    destruct (c2 =? 93) eqn:E93.
    { apply N.eqb_eq in E93. subst c2. injection H as <- <-.
      rewrite repair_cons_ne by discriminate. cbn [N.eqb Pos.eqb].
      eexists. split; [reflexivity|].
      apply agree_list. exact (Forall2_rev' _ _ _ Hacc'). }
    destruct (c2 =? 44) eqn:E44; [|discriminate].
    apply N.eqb_eq in E44. subst c2.
    destruct (closes true 93 (skip_ws r1)) eqn:Hc.
    { apply closes_spec in Hc as [_ [r4 Hc]]. rewrite Hc in H.
      injection H as <- <-. cbn [tl].
      rewrite (repair_comma_closed 93 r1 r4) by auto. cbn [N.eqb Pos.eqb].
      eexists. split; [reflexivity|].
      apply agree_list. exact (Forall2_rev' _ _ _ Hacc'). }
    destruct (proj2 (proj2 (scan_spec n)) _ _ _ _ _ H) as [_ Hh].
    destruct (skip_ws r1) as [|y t5] eqn:Hs1; [destruct Hh|].
    destruct (repair_comma_kept y r1 t5 Hh Hs1) as [Hc1 Hc2].
    rewrite Hc1 in *. cbn [N.eqb Pos.eqb closes andb length] in *.
    pose proof (skip_ws_length (repair r1)) as H1.
    rewrite skip_ws_repair, Hs1 in *.
    apply (IHe _ _ _ _ H); [lia|exact Hacc'].
Qed.

Lemma decode_repair_value (s : str) (v : pyval) :
  decode true s = Some v ->
  exists v', decode false (repair s) = Some v' /\ agree v v'.
Proof.
  unfold decode. rewrite startswith_repair by reflexivity.
  destruct (startswith [65279] s); [discriminate|].
  destruct (scan_once true (S (2 * length s)) (skip_ws s)) as [v0 rest| |] eqn:H;
    try discriminate.
  destruct (skip_ws rest) eqn:Hrest; [|discriminate]. intros [= <-].
  pose proof (skip_ws_length (repair s)) as Hl. rewrite skip_ws_repair in Hl.
  destruct (proj1 (scan_repair_value _) _ _ _ H (S (2 * length (repair s))) ltac:(lia))
    as (v' & Hv' & Hag).
  rewrite skip_ws_repair, Hv', skip_ws_repair, Hrest. eauto.
Qed.


(** What the strict grammar reads, the lenient one reads the same way. *)
Lemma scan_strict_lenient (n : nat) :
  (forall s v r, scan_once false n s = POk v r -> scan_once true n s = POk v r)
  /\ (forall s acc v r, members false n s acc = POk v r -> members true n s acc = POk v r)
  /\ (forall s acc v r,
        elements false n s acc = POk v r -> elements true n s acc = POk v r).
Proof.
  induction n as [|n (IHs & IHm & IHe)]; [repeat split; discriminate|].
  split; [|split].
  - intros s v r H. cbn [scan_once] in H |- *.
    destruct s as [|c t]; [discriminate|].
    destruct (c =? 34); [exact H|].
    destruct (c =? 123).
    { destruct (skip_ws t) as [|c' t']; [discriminate|].
      destruct (c' =? 125); [exact H|]. apply IHm. exact H. }
    destruct (c =? 91).
    { destruct (skip_ws t) as [|c' t']; [discriminate|].
      destruct (c' =? 93); [exact H|]. apply IHe. exact H. }
    exact H.
  - intros s acc v r H. cbn [members] in H |- *.
    destruct s as [|c t]; [discriminate|].
    destruct (c =? 34); [|discriminate].
    destruct (scanstring t []) as [key r0| |]; try discriminate.
    destruct (skip_ws r0) as [|c1 r1]; [discriminate|].
    destruct (c1 =? 58); [|discriminate].
    destruct (scan_once false n (skip_ws r1)) as [v0 r2| |] eqn:Hv; try discriminate.
    rewrite (IHs _ _ _ Hv).
    destruct (skip_ws r2) as [|c2 r3]; [discriminate|].
    destruct (c2 =? 125); [exact H|].
    destruct (c2 =? 44); [|discriminate].
    cbn [closes andb] in H.
    destruct (proj1 (proj2 (scan_spec n)) _ _ _ _ _ H) as [_ [t5 E]].
    rewrite E in *. cbn [closes andb N.eqb Pos.eqb]. apply IHm. exact H.
  - intros s acc v r H. cbn [elements] in H |- *.
    destruct (scan_once false n s) as [v0 r0| |] eqn:Hv; try discriminate.
    rewrite (IHs _ _ _ Hv).
    destruct (skip_ws r0) as [|c2 r1]; [discriminate|].
    destruct (c2 =? 93); [exact H|].
    destruct (c2 =? 44); [|discriminate].
    cbn [closes andb] in H.
    destruct (proj2 (proj2 (scan_spec n)) _ _ _ _ _ H) as [_ Hh].
    destruct (skip_ws r1) as [|y t5]; [destruct Hh|].
    destruct (vstart_spec _ Hh) as (_ & _ & _ & H93).
    apply N.eqb_neq in H93. cbn [closes andb]. rewrite H93. apply IHe. exact H.
Qed.

Lemma loads_strict_lenient (s : str) (v : pyval) :
  loads s = Some v -> loads_lenient s = Some v.
Proof.
  unfold loads, loads_lenient, decode. destruct (startswith [65279] s); [discriminate|].
  destruct (scan_once false _ _) as [v0 r| |] eqn:H; try discriminate.
  rewrite (proj1 (scan_strict_lenient _) _ _ _ H). exact (fun E => E).
Qed.

End Repair.

(** ** The method with the limits of the interpreter *)

Section Limited.
Import Json Re Grammar Spec Limits UniversalAIAnalyzer.

(** The decoder within the limits and the grammar: same value and rest
    where the decoder reads a value, a text that is not JSON where it says
    so. *)
Lemma constants_within_sim (lim : limits) (s : str) :
  match constants_within lim s with
  | Read v r => constants s = POk v r
  | Fails NotJson => constants s = PErr
  | Fails _ => True
  | Spent => constants s = PFuel
  end.
Proof.
  unfold constants_within. destruct (constants s) as [v r| |]; cbn; try reflexivity.
  destruct v; cbn; try reflexivity. destruct (too_long lim _); reflexivity.
Qed.

Lemma scan_within_sim (lim : limits) (n : nat) :
  (forall room s,
     match scan_within lim room n s with
     | Read v r => scan_once false n s = POk v r
     | Fails NotJson => scan_once false n s = PErr
     | Fails _ => True
     | Spent => scan_once false n s = PFuel
     end)
  /\ (forall room s acc,
        match members_within lim room n s acc with
        | Read v r => members false n s acc = POk v r
        | Fails NotJson => members false n s acc = PErr
        | Fails _ => True
        | Spent => members false n s acc = PFuel
        end)
  /\ (forall room s acc,
        match elements_within lim room n s acc with
        | Read v r => elements false n s acc = POk v r
        | Fails NotJson => elements false n s acc = PErr
        | Fails _ => True
        | Spent => elements false n s acc = PFuel
        end).
Proof.
  induction n as [|n (IHs & IHm & IHe)]; [repeat split; reflexivity|].
  split; [|split].
  - intros room s. cbn [scan_within scan_once].
    destruct s as [|c t]; [reflexivity|].
    destruct (c =? 34).
    { destruct (scanstring t []); reflexivity. }
    destruct (c =? 123).
    { destruct room as [|room]; [exact I|].
      destruct (skip_ws t) as [|c' t']; [reflexivity|].
      destruct (c' =? 125); [reflexivity|]. apply IHm. }
    destruct (c =? 91).
    { destruct room as [|room]; [exact I|].
      destruct (skip_ws t) as [|c' t']; [reflexivity|].
      destruct (c' =? 93); [reflexivity|]. apply IHe. }
    apply constants_within_sim.
  - intros room s acc. cbn [members_within members].
    destruct s as [|c t]; [reflexivity|].
    destruct (c =? 34); [|reflexivity].
    destruct (scanstring t []) as [key r| |]; try reflexivity.
    destruct (skip_ws r) as [|c1 r1]; [reflexivity|].
    destruct (c1 =? 58); [|reflexivity].
    pose proof (IHs room (skip_ws r1)) as Hs.
    destruct (scan_within lim room n (skip_ws r1)) as [v r2|[| |]|]; try exact I;
      rewrite Hs; try reflexivity.
    destruct (skip_ws r2) as [|c2 r3]; [reflexivity|].
    destruct (c2 =? 125); [reflexivity|].
    destruct (c2 =? 44); [|reflexivity].
    cbn [closes andb]. apply IHm.
  - intros room s acc. cbn [elements_within elements].
    pose proof (IHs room s) as Hs.
    destruct (scan_within lim room n s) as [v r|[| |]|]; try exact I;
      rewrite Hs; try reflexivity.
    destruct (skip_ws r) as [|c2 r1]; [reflexivity|].
    destruct (c2 =? 93); [reflexivity|].
    destruct (c2 =? 44); [|reflexivity].
    cbn [closes andb]. apply IHe.
Qed.

Lemma loads_within_sound (lim : limits) (s : str) (v : pyval) :
  loads_within lim s = Loaded v -> loads s = Some v.
Proof.
  unfold loads_within, loads, decode. destruct (startswith [65279] s); [discriminate|].
  pose proof (proj1 (scan_within_sim lim (S (2 * length s))) (max_depth lim) (skip_ws s))
    as H.
  destruct (scan_within lim _ _ _) as [v0 r|e|]; try discriminate.
  rewrite H. destruct (skip_ws r); [|discriminate]. intros [= ->]. reflexivity.
Qed.

Lemma loads_within_not_json (lim : limits) (s : str) :
  loads_within lim s = Raised NotJson -> loads s = None.
Proof.
  unfold loads_within, loads, decode. destruct (startswith [65279] s); [reflexivity|].
  pose proof (proj1 (scan_within_sim lim (S (2 * length s))) (max_depth lim) (skip_ws s))
    as H.
  destruct (scan_within lim _ _ _) as [v0 r|[| |]|]; try discriminate; rewrite H;
    try reflexivity.
  destruct (skip_ws r); [discriminate|reflexivity].
Qed.

(** What the grammar leaves is the end of what it was given. *)
Lemma skip_ws_suffix (s : str) : skip_ws s `suffix_of` s.
Proof.
  induction s as [|c s IH]; [reflexivity|]. cbn [skip_ws].
  destruct (is_ws c); [apply suffix_cons_r; exact IH | reflexivity].
Qed.

Lemma span_digits_split (s : str) :
  s = fst (span_digits s) ++ snd (span_digits s)
  /\ forallb is_digit (fst (span_digits s)) = true.
Proof.
  induction s as [|c s [IH1 IH2]]; [split; reflexivity|]. cbn [span_digits].
  destruct (is_digit c) eqn:Hc; [|split; reflexivity].
  destruct (span_digits s) as [ds r]. cbn [fst snd app forallb] in *.
  rewrite Hc, IH2. split; [congruence|reflexivity].
Qed.

Lemma int_part_split (s ip r : str) :
  int_part s = Some (ip, r) -> s = ip ++ r /\ forallb is_digit ip = true.
Proof.
  destruct s as [|c s]; [discriminate|]. cbn [int_part].
  destruct (c =? 48) eqn:E.
  - apply N.eqb_eq in E. subst c. intros [= <- <-]. split; reflexivity.
  - destruct (is_digit c) eqn:Hc; [|discriminate].
    destruct (span_digits_split s) as [H1 H2].
    destruct (span_digits s) as [ds r0]. cbn [fst snd] in *.
    intros [= <- <-]. cbn [app forallb]. rewrite Hc, H2. split; [congruence|reflexivity].
Qed.

Lemma frac_part_suffix (s : str) : snd (frac_part s) `suffix_of` s.
Proof.
  destruct s as [|d [|c t]]; try reflexivity. cbn [frac_part].
  destruct ((d =? 46) && is_digit c); [|reflexivity].
  destruct (span_digits_split t) as [H _]. destruct (span_digits t) as [ds r].
  cbn [fst snd] in *. do 2 apply suffix_cons_r. rewrite H. apply suffix_app_r. reflexivity.
Qed.

Lemma span_digits_suffix (s : str) : snd (span_digits s) `suffix_of` s.
Proof.
  destruct (span_digits_split s) as [H _]. rewrite H at 2. apply suffix_app_r. reflexivity.
Qed.

Lemma exp_part_suffix (s : str) : snd (exp_part s) `suffix_of` s.
Proof.
  destruct s as [|e t]; [reflexivity|]. cbn [exp_part].
  destruct ((e =? 101) || (e =? 69)); [|reflexivity].
  destruct t as [|c t'].
  - cbn. reflexivity.
  - destruct ((c =? 43) || (c =? 45)).
    + pose proof (span_digits_suffix t') as H.
      destruct (span_digits t') as [[|d0 ds] r]; [reflexivity|].
      cbn [snd] in *. do 2 apply suffix_cons_r. exact H.
    + pose proof (span_digits_suffix (c :: t')) as H.
      destruct (span_digits (c :: t')) as [[|d0 ds] r]; [reflexivity|].
      cbn [snd] in *. apply suffix_cons_r. exact H.
Qed.

Lemma match_number_suffix (s : str) (v : pyval) (r : str) :
  match_number s = POk v r -> r `suffix_of` s.
Proof.
  unfold match_number.
  assert (forall s1, s1 `suffix_of` s ->
            match int_part s1 with
            | Some (ip, r1) =>
                let '(fp, r2) := frac_part r1 in
                let '(ep, r3) := exp_part r2 in r3 `suffix_of` s
            | None => True
            end) as Hs.
  { intros s1 H1. destruct (int_part s1) as [[ip r1]|] eqn:Hi; [|exact I].
    destruct (int_part_split _ _ _ Hi) as [E _].
    pose proof (frac_part_suffix r1) as Hf. destruct (frac_part r1) as [fp r2].
    pose proof (exp_part_suffix r2) as He. destruct (exp_part r2) as [ep r3].
    cbn [snd] in *. etrans; [exact He|]. etrans; [exact Hf|].
    etrans; [|exact H1]. rewrite E. apply suffix_app_r. reflexivity. }
  destruct s as [|c t]; [discriminate|].
  destruct (c =? 45).
  - pose proof (Hs t ltac:(apply suffix_cons_r; reflexivity)) as H.
    destruct (int_part t) as [[ip r1]|]; [|discriminate].
    destruct (frac_part r1) as [fp r2]. destruct (exp_part r2) as [ep r3].
    destruct fp, ep; intros [= _ <-]; exact H.
  - pose proof (Hs (c :: t) ltac:(reflexivity)) as H.
    destruct (int_part (c :: t)) as [[ip r1]|]; [|discriminate].
    destruct (frac_part r1) as [fp r2]. destruct (exp_part r2) as [ep r3].
    destruct fp, ep; intros [= _ <-]; exact H.
Qed.

Lemma constants_suffix (s : str) (v : pyval) (r : str) :
  constants s = POk v r -> r `suffix_of` s.
Proof.
  unfold constants, literal.
  repeat match goal with
         | |- context [startswith ?p s] =>
             destruct (startswith p s); [intros [= _ <-]; apply suffix_drop|]
         end.
  apply match_number_suffix.
Qed.

Lemma string_tail_suffix (s r : str) : string_tail s r -> r `suffix_of` s.
Proof.
  induction 1; repeat apply suffix_cons_r; (reflexivity || assumption).
Qed.

Lemma scanstring_suffix (s acc x r : str) :
  scanstring s acc = POk x r -> r `suffix_of` s.
Proof.
  intros H. apply string_tail_suffix.
  apply (string_tail_sound (length s) s acc x r); [lia|exact H].
Qed.

Lemma scan_suffix (n : nat) :
  (forall l s v r, scan_once l n s = POk v r -> r `suffix_of` s)
  /\ (forall l s acc v r, members l n s acc = POk v r -> r `suffix_of` s)
  /\ (forall l s acc v r, elements l n s acc = POk v r -> r `suffix_of` s).
Proof.
  induction n as [|n (IHs & IHm & IHe)]; [repeat split; discriminate|].
  split; [|split].
  - intros l s v r H. cbn [scan_once] in H.
    destruct s as [|c t]; [discriminate|].
    destruct (c =? 34).
    { apply lift_str_ok in H as [x H]. apply suffix_cons_r.
      eapply scanstring_suffix; exact H. }
    pose proof (skip_ws_suffix t) as Hw.
    destruct (c =? 123).
    { destruct (skip_ws t) as [|c' t']; [discriminate|].
      destruct (c' =? 125).
      - injection H as _ <-. apply suffix_cons_r. etrans; [|exact Hw].
        apply suffix_cons_r. reflexivity.
      - apply suffix_cons_r. etrans; [|exact Hw]. eapply IHm; exact H. }
    destruct (c =? 91).
    { destruct (skip_ws t) as [|c' t']; [discriminate|].
      destruct (c' =? 93).
      - injection H as _ <-. apply suffix_cons_r. etrans; [|exact Hw].
        apply suffix_cons_r. reflexivity.
      - apply suffix_cons_r. etrans; [|exact Hw]. eapply IHe; exact H. }
    apply constants_suffix in H. exact H.
  - intros l s acc v r H. cbn [members] in H.
    destruct s as [|c t]; [discriminate|].
    destruct (c =? 34); [|discriminate].
    destruct (scanstring t []) as [key r0| |] eqn:Hk; try discriminate.
    apply scanstring_suffix in Hk.
    pose proof (skip_ws_suffix r0) as H0.
    destruct (skip_ws r0) as [|c1 r1]; [discriminate|].
    destruct (c1 =? 58); [|discriminate].
    pose proof (skip_ws_suffix r1) as H1.
    destruct (scan_once l n (skip_ws r1)) as [v0 r2| |] eqn:Hv; try discriminate.
    apply IHs in Hv.
    pose proof (skip_ws_suffix r2) as H2.
    assert (r2 `suffix_of` c :: t) as Hr2.
    { apply suffix_cons_r. etrans; [exact Hv|]. etrans; [exact H1|].
      etrans; [|exact Hk]. etrans; [|exact H0]. apply suffix_cons_r. reflexivity. }
    destruct (skip_ws r2) as [|c2 r3]; [discriminate|].
    assert (r3 `suffix_of` c :: t) as Hr3.
    { etrans; [|exact Hr2]. etrans; [|exact H2]. apply suffix_cons_r. reflexivity. }
    destruct (c2 =? 125); [injection H as _ <-; exact Hr3|].
    destruct (c2 =? 44); [|discriminate].
    pose proof (skip_ws_suffix r3) as H3.
    destruct (closes l 125 (skip_ws r3)).
    + injection H as _ <-. etrans; [|exact Hr3]. etrans; [|exact H3].
      destruct (skip_ws r3); [reflexivity|]. apply suffix_cons_r. reflexivity.
    + apply IHm in H. etrans; [exact H|]. etrans; [exact H3|]. exact Hr3.
  - intros l s acc v r H. cbn [elements] in H.
    destruct (scan_once l n s) as [v0 r0| |] eqn:Hv; try discriminate.
    apply IHs in Hv.
    pose proof (skip_ws_suffix r0) as H0.
    destruct (skip_ws r0) as [|c2 r1]; [discriminate|].
    assert (r1 `suffix_of` s) as Hr1.
    { etrans; [|exact Hv]. etrans; [|exact H0]. apply suffix_cons_r. reflexivity. }
    destruct (c2 =? 93); [injection H as _ <-; exact Hr1|].
    destruct (c2 =? 44); [|discriminate].
    pose proof (skip_ws_suffix r1) as H1.
    destruct (closes l 93 (skip_ws r1)).
    + injection H as _ <-. etrans; [|exact Hr1]. etrans; [|exact H1].
      destruct (skip_ws r1); [reflexivity|]. apply suffix_cons_r. reflexivity.
    + apply IHe in H. etrans; [exact H|]. etrans; [exact H1|]. exact Hr1.
Qed.

Lemma count_suffix (f : N -> bool) (r s : str) :
  r `suffix_of` s -> (count f r <= count f s)%nat.
Proof.
  intros [k ->]. unfold count. rewrite List.filter_app, length_app. lia.
Qed.

Lemma count_all (f : N -> bool) (s : str) :
  forallb f s = true -> count f s = length s.
Proof.
  unfold count. induction s as [|c s IH]; [reflexivity|]. cbn [forallb List.filter].
  intros H. apply andb_true_iff in H as [-> H]. cbn [length]. now rewrite IH.
Qed.

Lemma integer_digits_count (s : str) : (integer_digits s <= count is_digit s)%nat.
Proof.
  unfold integer_digits.
  assert (forall s1, s1 `suffix_of` s ->
            (match int_part s1 with Some (ip, _) => length ip | None => O end
             <= count is_digit s)%nat) as H.
  { intros s1 H1. destruct (int_part s1) as [[ip r]|] eqn:E; [|lia].
    destruct (int_part_split _ _ _ E) as [-> Hd].
    etrans; [|apply (count_suffix _ _ _ H1)].
    unfold count. rewrite List.filter_app, length_app.
    fold (count is_digit ip). rewrite (count_all _ _ Hd). lia. }
  destruct s as [|c t]; [apply H; reflexivity|].
  destruct (c =? 45); apply H; [apply suffix_cons_r|]; reflexivity.
Qed.

Lemma bounded_suffix (lim : limits) (room : nat) (r s : str) :
  bounded lim room s -> r `suffix_of` s -> bounded lim room r.
Proof.
  intros [H1 H2] Hs. split.
  - pose proof (count_suffix opening _ _ Hs). lia.
  - destruct H2 as [H2|H2]; [left; exact H2|right].
    pose proof (count_suffix is_digit _ _ Hs). lia.
Qed.

Lemma bounded_open (lim : limits) (room : nat) (c : N) (t : str) :
  bounded lim room (c :: t) -> opening c = true ->
  exists room', room = S room' /\ bounded lim room' t.
Proof.
  intros [H1 H2] Hc. unfold count in H1. cbn [List.filter] in H1. rewrite Hc in H1.
  cbn [length] in H1. fold (count opening t) in H1.
  destruct room as [|room']; [lia|]. exists room'. split; [reflexivity|]. split; [lia|].
  destruct H2 as [H2|H2]; [left; exact H2|right].
  pose proof (count_suffix is_digit t (c :: t) ltac:(apply suffix_cons_r; reflexivity)).
  lia.
Qed.

Lemma constants_within_bounded (lim : limits) (room : nat) (s : str) :
  bounded lim room s -> constants_within lim s = of_parse (constants s).
Proof.
  intros [_ H]. unfold constants_within.
  destruct (constants s) as [v r| |]; try reflexivity.
  destruct v; try reflexivity.
  assert (too_long lim (integer_digits s) = false) as ->; [|reflexivity].
  unfold too_long. pose proof (integer_digits_count s) as Hc.
  destruct H as [H|H].
  - rewrite H. reflexivity.
  - apply andb_false_iff. right. apply Nat.ltb_ge. lia.
Qed.

(** Within the limits the decoder is the grammar. *)
Lemma scan_within_bounded (lim : limits) (n : nat) :
  (forall room s, bounded lim room s ->
     scan_within lim room n s = of_parse (scan_once false n s))
  /\ (forall room s acc, bounded lim room s ->
        members_within lim room n s acc = of_parse (members false n s acc))
  /\ (forall room s acc, bounded lim room s ->
        elements_within lim room n s acc = of_parse (elements false n s acc)).
Proof.
  induction n as [|n (IHs & IHm & IHe)]; [repeat split; reflexivity|].
  split; [|split].
  - intros room s Hb. cbn [scan_within scan_once].
    destruct s as [|c t]; [reflexivity|].
    destruct (c =? 34); [reflexivity|].
    destruct (c =? 123) eqn:E123.
    { destruct (bounded_open lim room c t Hb) as (room' & -> & Hb').
      { unfold opening. now rewrite E123. }
      pose proof (bounded_suffix _ _ _ _ Hb' (skip_ws_suffix t)) as Hw.
      destruct (skip_ws t) as [|c' t']; [reflexivity|].
      destruct (c' =? 125); [reflexivity|]. apply IHm. exact Hw. }
    destruct (c =? 91) eqn:E91.
    { destruct (bounded_open lim room c t Hb) as (room' & -> & Hb').
      { unfold opening. rewrite E91. apply orb_true_r. }
      pose proof (bounded_suffix _ _ _ _ Hb' (skip_ws_suffix t)) as Hw.
      destruct (skip_ws t) as [|c' t']; [reflexivity|].
      destruct (c' =? 93); [reflexivity|]. apply IHe. exact Hw. }
    apply (constants_within_bounded lim room). exact Hb.
  - intros room s acc Hb. cbn [members_within members].
    destruct s as [|c t]; [reflexivity|].
    destruct (c =? 34); [|reflexivity].
    assert (bounded lim room t) as Hbt
      by (eapply bounded_suffix; [exact Hb | apply suffix_cons_r; reflexivity]).
    destruct (scanstring t []) as [key r| |] eqn:Hk; try reflexivity.
    apply scanstring_suffix in Hk.
    pose proof (bounded_suffix _ _ _ _ Hbt Hk) as Hbr.
    pose proof (bounded_suffix _ _ _ _ Hbr (skip_ws_suffix r)) as Hb0.
    destruct (skip_ws r) as [|c1 r1]; [reflexivity|].
    destruct (c1 =? 58); [|reflexivity].
    assert (bounded lim room r1) as Hb1
      by (eapply bounded_suffix; [exact Hb0 | apply suffix_cons_r; reflexivity]).
    pose proof (bounded_suffix _ _ _ _ Hb1 (skip_ws_suffix r1)) as Hb1'.
    rewrite (IHs room _ Hb1').
    destruct (scan_once false n (skip_ws r1)) as [v r2| |] eqn:Hv; try reflexivity.
    cbn [of_parse]. apply (proj1 (scan_suffix n)) in Hv.
    pose proof (bounded_suffix _ _ _ _ Hb1' Hv) as Hb2.
    pose proof (bounded_suffix _ _ _ _ Hb2 (skip_ws_suffix r2)) as Hb2'.
    destruct (skip_ws r2) as [|c2 r3]; [reflexivity|].
    destruct (c2 =? 125); [reflexivity|].
    destruct (c2 =? 44); [|reflexivity].
    cbn [closes andb]. apply IHm.
    eapply bounded_suffix; [exact Hb2'|].
    apply suffix_cons_r. apply skip_ws_suffix.
  - intros room s acc Hb. cbn [elements_within elements].
    rewrite (IHs room _ Hb).
    destruct (scan_once false n s) as [v r| |] eqn:Hv; try reflexivity.
    cbn [of_parse]. apply (proj1 (scan_suffix n)) in Hv.
    pose proof (bounded_suffix _ _ _ _ Hb Hv) as Hb2.
    pose proof (bounded_suffix _ _ _ _ Hb2 (skip_ws_suffix r)) as Hb2'.
    destruct (skip_ws r) as [|c2 r1]; [reflexivity|].
    destruct (c2 =? 93); [reflexivity|].
    destruct (c2 =? 44); [|reflexivity].
    cbn [closes andb]. apply IHe.
    eapply bounded_suffix; [exact Hb2'|].
    apply suffix_cons_r. apply skip_ws_suffix.
Qed.

Lemma loads_within_calm (lim : limits) (s : str) :
  calm lim s ->
  loads_within lim s
  = match loads s with
    | Some v => Loaded v
    | None => Raised NotJson
    end.
Proof.
  intros Hc. unfold loads_within, loads, decode.
  destruct (startswith [65279] s); [reflexivity|].
  rewrite (proj1 (scan_within_bounded lim _) (max_depth lim) (skip_ws s)).
  - destruct (scan_once false _ _) as [v r| |]; cbn [of_parse]; try reflexivity.
    destruct (skip_ws r); reflexivity.
  - eapply bounded_suffix; [exact Hc | apply skip_ws_suffix].
Qed.

(** The repair pass only takes characters away. *)
Lemma count_sub_close (f : N -> bool) (c : N) (s : str) :
  (count f (sub_close c s) <= count f s)%nat
  /\ (count f (drop_ws c s) <= count f s)%nat.
Proof.
  unfold count. induction s as [|x t [IH1 IH2]]; [split; reflexivity|].
  cbn [sub_close drop_ws List.filter].
  split.
  - destruct ((x =? 44) && ws_then c t).
    + destruct (f x); cbn [length]; lia.
    + cbn [List.filter]. destruct (f x); cbn [length]; lia.
  - destruct (isspace x).
    + destruct (f x); cbn [length]; lia.
    + cbn [List.filter]. destruct (f x); cbn [length]; lia.
Qed.

Lemma count_repair (f : N -> bool) (s : str) :
  (count f (repair s) <= count f s)%nat.
Proof.
  unfold repair.
  pose proof (proj1 (count_sub_close f 93 (sub_close 125 s))).
  pose proof (proj1 (count_sub_close f 125 s)). lia.
Qed.

Lemma calm_repair (lim : limits) (s : str) : calm lim s -> calm lim (repair s).
Proof.
  intros [H1 H2]. split.
  - pose proof (count_repair opening s). lia.
  - destruct H2 as [H2|H2]; [left; exact H2|right].
    pose proof (count_repair is_digit s). lia.
Qed.

(** Within the limits [_parse_ai_response_within] is [_parse_ai_response]. *)
Lemma parse_within_calm (lim : limits) (s : str) :
  calm lim (strip s) ->
  _parse_ai_response_within lim (PStr s) = _parse_ai_response (PStr s).
Proof.
  intros Hc. unfold _parse_ai_response_within, _parse_ai_response.
  rewrite (loads_within_calm lim _ Hc).
  destruct (loads (strip s)); [reflexivity|].
  rewrite (loads_within_calm lim _ (calm_repair lim _ Hc)).
  destruct (loads (repair (strip s))); reflexivity.
Qed.

(** One opening bracket more than the depth allowed. *)
Lemma scan_too_deep (lim : limits) (room : nat) :
  forall n t, (2 * room < n)%nat ->
    scan_within lim room n (repeat 91 (S room) ++ t) = Fails TooDeep.
Proof.
  induction room as [|room IH]; intros n t Hn.
  - destruct n as [|n]; [lia|]. reflexivity.
  - destruct n as [|[|n]]; try lia.
    change (repeat 91 (S (S room)) ++ t) with (91 :: (repeat 91 (S room) ++ t)).
    cbn [scan_within N.eqb Pos.eqb].
    change (repeat 91 (S room) ++ t) with (91 :: (repeat 91 room ++ t)) at 1.
    cbn [skip_ws is_ws N.eqb Pos.eqb orb].
    cbn [elements_within].
    change (91 :: (repeat 91 room ++ t)) with (repeat 91 (S room) ++ t).
    rewrite IH by lia. reflexivity.
Qed.

Lemma strip_brackets (k : nat) : strip (repeat 91 k) = repeat 91 k.
Proof.
  assert (forall l, Forall (fun c => c = 91) l -> lstrip l = l) as Hl.
  { intros l H. destruct H as [|x l ->]; reflexivity. }
  assert (Forall (fun c => c = 91) (repeat 91 k)) as Hk.
  { induction k; constructor; auto. }
  unfold strip, rstrip. rewrite (Hl _ Hk), Hl, rev_involutive; [reflexivity|].
  apply Forall_rev. exact Hk.
Qed.

Lemma too_deep_general_sentinel (lim : limits) :
  _parse_ai_response_within lim (PStr (repeat 91 (S (max_depth lim)))) = parse_error.
Proof.
  unfold _parse_ai_response_within, loads_within. rewrite strip_brackets.
  change (startswith [65279] (repeat 91 (S (max_depth lim)))) with false. cbv iota.
  change (skip_ws (repeat 91 (S (max_depth lim)))) with (repeat 91 (S (max_depth lim))).
  pose proof (scan_too_deep lim (max_depth lim)
                (S (2 * length (repeat 91 (S (max_depth lim))))) []) as H.
  rewrite app_nil_r in H. rewrite H; [reflexivity|].
  rewrite repeat_length. lia.
Qed.

(** The fuel of [loads_within] is not used up. *)
Lemma loads_within_fuel (lim : limits) (s : str) :
  scan_within lim (max_depth lim) (S (2 * length s)) (skip_ws s) <> Spent.
Proof.
  intros E.
  pose proof (proj1 (scan_within_sim lim (S (2 * length s))) (max_depth lim) (skip_ws s))
    as H.
  rewrite E in H. exact (scan_never_out_of_fuel false s H).
Qed.

(** C6, as stated, fails: a text of 2000 opening brackets is not JSON, as it
    is or repaired, and in an interpreter with the defaults of CPython the
    first [json.loads] raises [RecursionError] on it, which the handler for
    [JSONDecodeError] lets pass: the method returns the document of its
    last handler, "Product Catalog" and "General", and not the "extraction
    error" document. *)
Lemma deep_text_other_sentinel :
  loads (strip (repeat 91 2000)) = None
  /\ loads (repair (strip (repeat 91 2000))) = None
  /\ _parse_ai_response_within cpython_limits (PStr (repeat 91 2000)) = parse_error
  /\ parse_error <> extraction_error.
Proof.
  repeat split; try (vm_compute; reflexivity). vm_compute. discriminate.
Qed.

(** C6, amended. A completion that is not JSON, as it is or after the
    repair pass, makes the method return one of its two fixed documents and
    raise nothing: the "extraction error" document ([product_family]
    "Extraction Error", [category] "AI Response Invalid", [company] and
    [products] empty) when the first [json.loads] raises [JSONDecodeError],
    which it does on every text within the limits of the interpreter; and
    the document of the last handler ([product_family] "Product Catalog",
    [category] "General") when the first [json.loads] raises
    [RecursionError] or [ValueError] instead. Neither of the two is the "AI
    not configured" document. *)
Theorem invalid_json_gives_sentinel (lim : limits) (s : str) :
  loads (strip s) = None ->
  loads (repair (strip s)) = None ->
  match loads_within lim (strip s) with
  | Raised NotJson => _parse_ai_response_within lim (PStr s) = extraction_error
  | _ => _parse_ai_response_within lim (PStr s) = parse_error
  end
  /\ (calm lim (strip s) ->
      _parse_ai_response_within lim (PStr s) = extraction_error)
  /\ Dyn.get extraction_error (u "product_family") PNone = Ret (PStr (u "Extraction Error"))
  /\ Dyn.get extraction_error (u "category") PNone = Ret (PStr (u "AI Response Invalid"))
  /\ Dyn.get extraction_error (u "company") PNone = Ret (PDict [])
  /\ Dyn.get extraction_error (u "products") PNone = Ret (PList [])
  /\ Dyn.get parse_error (u "product_family") PNone = Ret (PStr (u "Product Catalog"))
  /\ Dyn.get parse_error (u "category") PNone = Ret (PStr (u "General"))
  /\ extraction_error <> _no_ai_configured
  /\ parse_error <> _no_ai_configured.
Proof.
  intros H1 H2.
  assert (loads_within lim (strip s) = Raised NotJson ->
          _parse_ai_response_within lim (PStr s) = extraction_error) as Hn.
  { intros E. unfold _parse_ai_response_within. rewrite E.
    destruct (loads_within lim (repair (strip s))) as [v|e] eqn:E2; [|reflexivity].
    apply loads_within_sound in E2. congruence. }
  split; [|split].
  - destruct (loads_within lim (strip s)) as [v|[| |]] eqn:E.
    + apply loads_within_sound in E. congruence.
    + apply Hn. reflexivity.
    + unfold _parse_ai_response_within. rewrite E. reflexivity.
    + unfold _parse_ai_response_within. rewrite E. reflexivity.
  - intros Hc. apply Hn. rewrite (loads_within_calm lim _ Hc), H1. reflexivity.
  - repeat split; try (vm_compute; reflexivity); vm_compute; discriminate.
Qed.

Lemma invalid_json_gives_sentinel_witness :
  match loads_within cpython_limits (strip (u "Sorry, I cannot help with that.")) with
  | Raised NotJson =>
      _parse_ai_response_within cpython_limits
        (PStr (u "Sorry, I cannot help with that.")) = extraction_error
  | _ =>
      _parse_ai_response_within cpython_limits
        (PStr (u "Sorry, I cannot help with that.")) = parse_error
  end
  /\ (calm cpython_limits (strip (u "Sorry, I cannot help with that.")) ->
      _parse_ai_response_within cpython_limits
        (PStr (u "Sorry, I cannot help with that.")) = extraction_error)
  /\ Dyn.get extraction_error (u "product_family") PNone = Ret (PStr (u "Extraction Error"))
  /\ Dyn.get extraction_error (u "category") PNone = Ret (PStr (u "AI Response Invalid"))
  /\ Dyn.get extraction_error (u "company") PNone = Ret (PDict [])
  /\ Dyn.get extraction_error (u "products") PNone = Ret (PList [])
  /\ Dyn.get parse_error (u "product_family") PNone = Ret (PStr (u "Product Catalog"))
  /\ Dyn.get parse_error (u "category") PNone = Ret (PStr (u "General"))
  /\ extraction_error <> _no_ai_configured
  /\ parse_error <> _no_ai_configured.
Proof.
  apply (invalid_json_gives_sentinel cpython_limits (u "Sorry, I cannot help with that."));
    vm_compute; reflexivity.
Defined.




End Limited.

(** ** Whole runs

    The properties above are about the steps of the analyzer; the runs below
    go from the environment through the provider call to the document that
    [analyze_catalog] hands back, on the completions of the specification's
    examples. *)

Section Runs.
Import Eff UniversalAIAnalyzer Spec.

(** A completion inside a [json] fence, DeepSeek selected. *)
Example run_fenced_completion :
  fst (structure true empty_content
         (deepseek_world [HttpResponse 200 (envelope fenced_example)]))
  = Ret example_document.
Proof. vm_compute. reflexivity. Qed.

(** A completion with a trailing comma, after a first request that timed
    out: the second request is the one that is answered. *)
Example run_trailing_comma_after_timeout :
  fst (structure false empty_content
         (deepseek_world
            [HttpTimeout; HttpResponse 200 (envelope trailing_comma_example)]))
  = Ret example_document.
Proof. vm_compute. reflexivity. Qed.

(** A completion that is no JSON at all. *)
Example run_invalid_completion :
  fst (structure true empty_content
         (deepseek_world [HttpResponse 200 (envelope (u "I cannot do that"))]))
  = Ret extraction_error.
Proof. vm_compute. reflexivity. Qed.

(** Two timeouts in a row: the second one is raised inside the outer [try]
    of [_analyze_with_deepseek], whose handler returns the "AI not
    configured" document. *)
Example run_two_timeouts :
  fst (structure true empty_content (deepseek_world [HttpTimeout; HttpTimeout]))
  = Ret _no_ai_configured.
Proof. vm_compute. reflexivity. Qed.

(** The Anthropic path parses the completion as it is: a fence is not
    removed there. *)
Example run_fenced_completion_anthropic :
  fst (structure false empty_content
         (anthropic_world [SdkReturns (PStr fenced_example)]))
  = Ret extraction_error.
Proof. vm_compute. reflexivity. Qed.

(** A completion that is JSON but not an object: the summary line of
    [analyze_catalog] calls [.get] on it. On the DeepSeek path the same
    call sits inside the [try] and ends in the "AI not configured"
    document. *)
Example run_non_object_completion :
  fst (structure false empty_content
         (anthropic_world [SdkReturns (PStr (u "[1]"))]))
  = Raise AttributeError
  /\ fst (structure true empty_content
            (deepseek_world [HttpResponse 200 (envelope (u "[1]"))]))
     = Ret _no_ai_configured.
Proof. split; vm_compute; reflexivity. Qed.

End Runs.

(** ** Fenced completions on the paths that keep the fence *)

Section RawCompletions.
Import Json Re Grammar Spec UniversalAIAnalyzer.

(** A text that starts with a backquote is not JSON, before and after the
    repair pass. *)
Lemma loads_backquote (t : str) : loads (96 :: t) = None.
Proof. reflexivity. Qed.

Lemma loads_repair_backquote (t : str) : loads (repair (96 :: t)) = None.
Proof. rewrite repair_cons_ne by discriminate. apply loads_backquote. Qed.

(** C4. A defect of the code: [_parse_ai_response] removes no fence, and
    the Anthropic, OpenAI and Gemini paths hand it the completion as it
    came, so that every completion that starts with a fence ends in the
    "extraction error" document there. The completion of the
    specification's example does so on the Anthropic path, while the
    DeepSeek path, which removes the fence before it calls
    [_parse_ai_response], returns the document with [product_family] "X"
    and no products for the same completion. *)
Theorem fenced_completion_not_unwrapped (s t : str) :
  strip s = 96 :: t ->
  _parse_ai_response (PStr s) = extraction_error
  /\ fst (structure false empty_content
            (anthropic_world [SdkReturns (PStr fenced_example)]))
     = Ret extraction_error
  /\ fst (structure true empty_content
            (deepseek_world [HttpResponse 200 (envelope fenced_example)]))
     = Ret example_document
  /\ extraction_error <> example_document.
Proof.
  intros Hs. split.
  - unfold _parse_ai_response.
    rewrite Hs, loads_backquote, loads_repair_backquote. reflexivity.
  - repeat split; try (vm_compute; reflexivity). vm_compute. discriminate.
Qed.

Lemma fenced_completion_not_unwrapped_witness :
  _parse_ai_response (PStr fenced_example) = extraction_error
  /\ fst (structure false empty_content
            (anthropic_world [SdkReturns (PStr fenced_example)]))
     = Ret extraction_error
  /\ fst (structure true empty_content
            (deepseek_world [HttpResponse 200 (envelope fenced_example)]))
     = Ret example_document
  /\ extraction_error <> example_document.
Proof.
  eapply (fenced_completion_not_unwrapped fenced_example).
  vm_compute. reflexivity.
Defined.

End RawCompletions.

(** ** The extractor: failures, derived fields and files *)

Section ExtractorEdges.
Import Doc UniversalPDFExtractor Spec.

Lemma pages_loop_short (fz : list fitz_page) (todo : list plumber_page) :
  forall (k : nat) (acc : list page_content) (w : world),
    (k <= length fz < k + length todo)%nat ->
    exists w', pages_loop todo fz k acc w = (Raise IndexError, w').
Proof.
  induction todo as [|pp todo IH]; intros k acc w Hlen; simpl in *.
  - lia.
  - destruct (fz !! k) as [fp|] eqn:Hk.
    2:{ eexists. reflexivity. }
    unfold bind at 1.
    destruct (extract_page_spec pp fp (Z.of_nat k) w) as (pc & w1 & -> & _).
    apply lookup_lt_Some in Hk. apply IH. lia.
Qed.

(** X1. A file that cannot be opened makes [extract_pdf_universal] raise,
    with the world as it was: [_extract_metadata] swallows the failure of
    its own [fitz.open] and returns the file name alone, and the
    [pdfplumber.open] that follows is not guarded. *)
Theorem extract_unreadable_file_raises (path : str) (w : world) :
  pdfs w !! path = None ->
  (exists e, extract_pdf_universal path w = (Raise e, w))
  /\ _extract_metadata path w = (Ret [ (u "source_file", PStr (basename path)) ], w).
Proof.
  intros H. split; [exists OSError|];
    unfold extract_pdf_universal, extract_complete_content, _extract_metadata,
      try_except, open_pdf, bind, get_world, any_exception, raise, ret;
    cbn; rewrite H; cbn; [rewrite H|]; reflexivity.
Qed.

Lemma extract_unreadable_file_raises_witness :
  (exists e, extract_pdf_universal (u "missing.pdf") sample_world
             = (Raise e, sample_world))
  /\ _extract_metadata (u "missing.pdf") sample_world
     = (Ret [ (u "source_file", PStr (basename (u "missing.pdf"))) ], sample_world).
Proof.
  apply (extract_unreadable_file_raises (u "missing.pdf") sample_world).
  vm_compute. reflexivity.
Defined.



(** What the extraction of one page does to the world: nothing, or one
    file written, the render of that page. *)
Lemma extract_page_run (pp : plumber_page) (fp : fitz_page) (n : Z) (w : world) :
  exists pc w',
    _extract_page_multimethod pp fp n w = (Ret pc, w')
    /\ page_number pc = (n + 1)%Z
    /\ counts_agree pc
    /\ ((images pc = [] /\ w' = w)
        \/ (exists pix img,
              get_pixmap fp = Some pix /\ images pc = [img]
              /\ image_saved (files w') pc img
              /\ w' = set_files (<[image_path (n + 1) := pix_png pix]> (files w)) w)).
Proof.
  unfold _extract_page_multimethod, _extract_images_pymupdf, bind, write_file, ret.
  destruct (get_pixmap fp) as [pix|]; simpl.
  - eexists _, _. split; [reflexivity|]. simpl. split; [reflexivity|].
    split; [repeat split|]. right. exists pix. eexists. split; [reflexivity|].
    split; [reflexivity|]. split; [|reflexivity].
    repeat split; simpl. fold (image_path (n + 1)).
    rewrite lookup_insert_eq. eauto.
  - eexists _, _. split; [reflexivity|]. simpl. split; [reflexivity|].
    split; [repeat split|]. left. split; reflexivity.
Qed.

Lemma files_grow_refl (lo hi : Z) (w : world) : files_grow lo hi w w.
Proof. split; [auto | intros p H; now destruct H]. Qed.

Lemma files_grow_trans (lo mid hi : Z) (w1 w2 w3 : world) :
  (lo <= mid <= hi)%Z ->
  files_grow lo mid w1 w2 -> files_grow mid hi w2 w3 -> files_grow lo hi w1 w3.
Proof.
  intros Hb [A1 B1] [A2 B2]. split; [auto|].
  intros p H. destruct (decide (files w2 !! p = files w1 !! p)) as [E|E].
  - destruct (B2 p) as (k & Hk & ->); [congruence|]. exists k. split; [lia | reflexivity].
  - destruct (B1 p E) as (k & Hk & ->). exists k. split; [lia | reflexivity].
Qed.

Lemma same_outside_files_refl (w : world) : same_outside_files w w.
Proof. repeat split. Qed.

Lemma same_outside_files_trans (w1 w2 w3 : world) :
  same_outside_files w1 w2 -> same_outside_files w2 w3 -> same_outside_files w1 w3.
Proof.
  unfold same_outside_files. intros H1 H2.
  destruct H1 as (?&?&?&?&?&?&?&?), H2 as (?&?&?&?&?&?&?&?).
  repeat split; congruence.
Qed.

Lemma extract_page_world (pp : plumber_page) (fp : fitz_page) (n : Z) (w : world) :
  forall pc w', _extract_page_multimethod pp fp n w = (Ret pc, w') ->
    same_outside_files w w' /\ files_grow n (n + 1) w w'.
Proof.
  intros pc w' Hrun.
  destruct (extract_page_run pp fp n w) as (pc0 & w0 & E & _ & _ & Hcase).
  rewrite E in Hrun. injection Hrun as <- <-.
  destruct Hcase as [[_ ->] | (pix & img & _ & _ & _ & ->)].
  - split; [apply same_outside_files_refl | apply files_grow_refl].
  - split; [repeat split|]. split; simpl.
    + intros p Hp. destruct (decide (image_path (n + 1) = p)) as [<-|Hne].
      * rewrite lookup_insert_eq. eauto.
      * rewrite lookup_insert_ne by exact Hne. exact Hp.
    + intros p Hp. exists (n + 1)%Z. split; [lia|].
      destruct (decide (image_path (n + 1) = p)) as [<-|Hne]; [reflexivity|].
      rewrite lookup_insert_ne in Hp by exact Hne. now destruct Hp.
Qed.

Lemma page_sound_grow (lo hi : Z) (w w' : world) (pc : page_content) :
  files_grow lo hi w w' -> page_sound (files w) pc -> page_sound (files w') pc.
Proof.
  intros [Hg _] (Hc & Hl & Hi). repeat split; try assumption; try apply Hc.
  eapply Forall_impl; [exact Hi|]. intros img (A & B & C & D).
  repeat split; auto.
Qed.

(** The page loop, whether it returns or raises: only renders of the pages
    it went through are written, and the pages gathered are sound. *)
Lemma pages_loop_inv (fz : list fitz_page) (todo : list plumber_page) :
  forall (k : nat) (acc : list page_content) (w w' : world)
         (r : result (list page_content)),
    pages_loop todo fz k acc w = (r, w') ->
    same_outside_files w w'
    /\ files_grow (Z.of_nat k) (Z.of_nat (k + length todo)) w w'
    /\ (Forall (page_sound (files w)) acc ->
        forall ps, r = Ret ps -> Forall (page_sound (files w')) ps).
Proof.
  induction todo as [|pp todo IH]; intros k acc w w' r Hrun; simpl in Hrun.
  - injection Hrun as <- <-. split; [apply same_outside_files_refl|].
    split; [apply files_grow_refl|]. intros Hacc ps [= <-]. exact Hacc.
  - destruct (fz !! k) as [fp|].
    2:{ injection Hrun as <- <-. split; [apply same_outside_files_refl|].
        split; [apply files_grow_refl|]. intros _ ps [=]. }
    unfold bind at 1 in Hrun.
    destruct (extract_page_run pp fp (Z.of_nat k) w) as (pc & w1 & E & Hn & Hc & Hcase).
    pose proof (extract_page_world pp fp (Z.of_nat k) w pc w1 E) as [Hs1 Hg1].
    rewrite E in Hrun.
    destruct (IH _ _ _ _ _ Hrun) as (Hs2 & Hg2 & Hall).
    split; [eapply same_outside_files_trans; eauto|].
    split.
    { eapply (files_grow_trans _ (Z.of_nat k + 1)); [|exact Hg1|].
      - simpl. lia.
      - replace (Z.of_nat k + 1)%Z with (Z.of_nat (S k)) by lia.
        replace (k + length (pp :: todo))%nat with (S k + length todo)%nat
          by (simpl; lia).
        exact Hg2. }
    intros Hacc ps Hr. apply Hall; [|exact Hr].
    apply Forall_app. split.
    + eapply Forall_impl; [exact Hacc|]. intros pc0. eapply page_sound_grow. exact Hg1.
    + constructor; [|constructor]. split; [exact Hc|].
      destruct Hcase as [[Hi _] | (pix & img & _ & Hi & Hsv & _)]; rewrite Hi.
      * split; [simpl; lia | constructor].
      * split; [simpl; lia | constructor; [exact Hsv | constructor]].
Qed.

Lemma extract_content_inv (path : str) (w w' : world) (r : result content) :
  extract_complete_content path w = (r, w') ->
  same_outside_files w w' /\ files_grow 0 (plumber_page_count path w) w w'
  /\ (forall c, r = Ret c -> Forall (page_sound (files w')) (pages c)).
Proof.
  unfold extract_complete_content, plumber_page_count. intros Hrun.
  destruct (extract_metadata_total path w) as (m & Hm).
  unfold bind at 1 in Hrun. rewrite Hm in Hrun.
  unfold bind at 1 in Hrun. unfold open_pdf at 1, bind at 1, get_world in Hrun.
  destruct (pdfs w !! path) as [p|] eqn:Hp; simpl in Hrun.
  2:{ injection Hrun as <- <-. split; [apply same_outside_files_refl|].
      split; [apply files_grow_refl|]. intros c [=]. }
  unfold bind at 1 in Hrun. unfold open_pdf at 1, bind at 1, get_world in Hrun.
  rewrite Hp in Hrun. simpl in Hrun.
  unfold bind in Hrun.
  destruct (pages_loop (plumber_pages p) (fitz_pages p) 0 [] w) as [[ps|e] w1] eqn:E;
    destruct (pages_loop_inv _ _ _ _ _ _ _ E) as (Hs & Hg & Hall);
    injection Hrun as <- <-; (split; [exact Hs|]); (split; [exact Hg|]).
  - intros c [= <-]. simpl. apply Hall; [constructor | reflexivity].
  - intros c [=].
Qed.

(** X3. On every page of the document that the extractor returns,
    [text_length], [table_count] and [image_count] are the lengths of the
    [text], the [tables] and the [images] of that page, and there is one
    image at most. *)
Theorem page_counts_derived (path : str) (w w' : world) (c : content) :
  extract_pdf_universal path w = (Ret c, w') ->
  Forall (fun pc => counts_agree pc /\ (0 <= image_count pc <= 1)%Z) (pages c).
Proof.
  intros Hrun. destruct (extract_content_inv _ _ _ _ Hrun) as (_ & _ & Hall).
  eapply Forall_impl; [apply Hall; reflexivity|].
  intros pc (Hc & Hl & _). split; [exact Hc|].
  destruct Hc as (_ & _ & ->). lia.
Qed.

Lemma page_counts_derived_witness :
  exists c w',
    extract_pdf_universal sample_path sample_world = (Ret c, w')
    /\ Forall (fun pc => counts_agree pc /\ (0 <= image_count pc <= 1)%Z) (pages c).
Proof.
  eexists _, _. split.
  - vm_compute. reflexivity.
  - eapply (page_counts_derived sample_path sample_world). vm_compute. reflexivity.
Defined.

(** X4. Every image entry of the document that the extractor returns
    names the full-page render of its own page, under
    [output/images/page_N_full.png] for the page numbered N, and that file
    is on disk when the extractor returns. *)
Theorem page_images_on_disk (path : str) (w w' : world) (c : content) :
  extract_pdf_universal path w = (Ret c, w') ->
  Forall (fun pc => Forall (image_saved (files w') pc) (images pc)) (pages c).
Proof.
  intros Hrun. destruct (extract_content_inv _ _ _ _ Hrun) as (_ & _ & Hall).
  eapply Forall_impl; [apply Hall; reflexivity|].
  intros pc (_ & _ & H). exact H.
Qed.

Lemma page_images_on_disk_witness :
  exists c w',
    extract_pdf_universal sample_path sample_world = (Ret c, w')
    /\ Forall (fun pc => Forall (image_saved (files w') pc) (images pc)) (pages c).
Proof.
  eexists _, _. split.
  - vm_compute. reflexivity.
  - eapply (page_images_on_disk sample_path sample_world). vm_compute. reflexivity.
Defined.

(** X5. Whether it returns or raises, the extractor sends nothing over the
    network and leaves the environment, the scripts and the documents in
    memory alone; no file goes away, and the only files that it writes are
    renders [output/images/page_k_full.png] with k from 1 to the number of
    pages of the file. *)
Theorem extraction_frame (path : str) (w w' : world) (r : result content) :
  extract_pdf_universal path w = (r, w') ->
  same_outside_files w w'
  /\ (forall p, is_Some (files w !! p) -> is_Some (files w' !! p))
  /\ (forall p, files w' !! p <> files w !! p ->
      exists k, (0 < k <= plumber_page_count path w)%Z /\ p = image_path k).
Proof.
  intros Hrun. destruct (extract_content_inv _ _ _ _ Hrun) as (Hs & [Hg1 Hg2] & _).
  auto.
Qed.

Lemma extraction_frame_witness :
  exists r w',
    extract_pdf_universal sample_path sample_world = (r, w')
    /\ same_outside_files sample_world w'
    /\ (forall p, is_Some (files sample_world !! p) -> is_Some (files w' !! p))
    /\ (forall p, files w' !! p <> files sample_world !! p ->
        exists k, (0 < k <= plumber_page_count sample_path sample_world)%Z
                  /\ p = image_path k).
Proof.
  eexists _, _. split.
  - vm_compute. reflexivity.
  - eapply (extraction_frame sample_path sample_world). vm_compute. reflexivity.
Defined.

(** X6. The text of a page is the longer of the texts that the two
    libraries give, PyMuPDF's when they are equally long; a library that
    gives nothing counts as the empty text. *)
Theorem page_text_longest (pp : plumber_page) (fp : fitz_page) (n : Z)
    (w w' : world) (pc : page_content) :
  _extract_page_multimethod pp fp n w = (Ret pc, w') ->
  length (text pc)
  = Nat.max (length (or_empty (extract_text pp))) (length (or_empty (get_text fp)))
  /\ (text pc = or_empty (extract_text pp) \/ text pc = or_empty (get_text fp))
  /\ ((length (or_empty (extract_text pp)) <= length (or_empty (get_text fp)))%nat ->
      text pc = or_empty (get_text fp)).
Proof.
  unfold _extract_page_multimethod, bind, ret. intros Hrun.
  destruct (_extract_images_pymupdf fp n w) as [[imgs|e] w1]; [|discriminate].
  injection Hrun as <- _. cbn [text]. unfold len.
  destruct (Z.ltb_spec (Z.of_nat (length (or_empty (get_text fp))))
              (Z.of_nat (length (or_empty (extract_text pp))))) as [H|H].
  - split; [lia|]. split; [now left | lia].
  - split; [lia|]. split; [now right | reflexivity].
Qed.

Lemma page_text_longest_witness :
  exists pc w',
    _extract_page_multimethod
      {| extract_text := Some (u "Model A100"); extract_tables := None |}
      {| get_text := Some (u "Model A100 "); get_pixmap := None;
         rect_width := PNone; rect_height := PNone;
         layout_blocks := inr []; get_text_blocks := None |}
      0 sample_world = (Ret pc, w')
    /\ length (text pc) = Nat.max 10 11
    /\ (text pc = u "Model A100" \/ text pc = u "Model A100 ")
    /\ ((10 <= 11)%nat -> text pc = u "Model A100 ").
Proof.
  eexists _, _. split.
  - vm_compute. reflexivity.
  - eapply (page_text_longest
              {| extract_text := Some (u "Model A100"); extract_tables := None |}
              {| get_text := Some (u "Model A100 "); get_pixmap := None;
                 rect_width := PNone; rect_height := PNone;
                 layout_blocks := inr []; get_text_blocks := None |}
              0 sample_world).
    vm_compute. reflexivity.
Defined.

Lemma filter_two_le (ty1 ty2 : Z) (blocks : list Z) :
  ty1 <> ty2 ->
  (length (List.filter (fun b => Z.eqb b ty1) blocks)
   + length (List.filter (fun b => Z.eqb b ty2) blocks) <= length blocks)%nat.
Proof.
  intros Hne. induction blocks as [|b bs IH]; simpl; [lia|].
  destruct (Z.eqb_spec b ty1), (Z.eqb_spec b ty2); simpl; lia.
Qed.

(** X7. The layout of a page counts its blocks: the text blocks and the
    image blocks together are no more than [block_count], and are all of
    them when every block is of type 0 or 1. A page whose blocks cannot be
    read gets a layout that holds the error message alone. *)
Theorem layout_counts (page : fitz_page) :
  match layout_blocks page with
  | inr blocks =>
      exists t i,
        _analyze_layout page
        = [ (u "width", rect_width page); (u "height", rect_height page);
            (u "block_count", PInt (Z.of_nat (length blocks)));
            (u "text_blocks", PInt t); (u "image_blocks", PInt i) ]
        /\ (0 <= t)%Z /\ (0 <= i)%Z /\ (t + i <= Z.of_nat (length blocks))%Z
        /\ (Forall (fun b => b = 0%Z \/ b = 1%Z) blocks ->
            (t + i = Z.of_nat (length blocks))%Z)
  | inl msg => _analyze_layout page = [ (u "error", PStr msg) ]
  end.
Proof.
  unfold _analyze_layout. destruct (layout_blocks page) as [msg|blocks]; [reflexivity|].
  eexists _, _. split; [reflexivity|]. unfold count_type, len.
  pose proof (filter_two_le 0 1 blocks ltac:(lia)) as H.
  repeat split; try lia.
  intros Hall. clear H. induction Hall as [|b bs [-> | ->] _ IH]; simpl in *; lia.
Qed.

Lemma text_blocks_loop_spec (bs : list (list pyval)) :
  forall acc : list (list (list N * pyval)),
    Forall stripped_block acc ->
    Forall stripped_block (text_blocks_loop bs acc)
    /\ (length (text_blocks_loop bs acc) <= length acc + length bs)%nat.
Proof.
  induction bs as [|b bs IH]; intros acc Hacc; simpl.
  - split; [exact Hacc | lia].
  - destruct b as [|x0 [|y0 [|x1 [|y1 [|t more]]]]];
      try (destruct (IH acc Hacc); split; [assumption | lia]).
    destruct t as [| | | |s| |]; try (split; [exact Hacc | lia]).
    destruct (IH (acc ++ [[ (u "x0", x0); (u "y0", y0); (u "x1", x1); (u "y1", y1);
                            (u "text", PStr (strip s));
                            (u "block_type",
                             match more with ty :: _ => ty | [] => PInt 0 end) ]]))
      as [H1 H2].
    + apply Forall_app. split; [exact Hacc|]. constructor; [|constructor].
      split; [reflexivity|]. exists (strip s). split; [reflexivity | apply strip_idem].
    + split; [exact H1|]. rewrite length_app in H2. simpl in H2. lia.
Qed.

(** X8. The text blocks of a page: every entry has the six keys [x0],
    [y0], [x1], [y1], [text], [block_type], its text has no whitespace at
    either end, and there are no more entries than blocks on the page
    (none when the blocks cannot be read). *)
Theorem text_blocks_stripped (page : fitz_page) :
  Forall stripped_block (_extract_text_blocks page)
  /\ (length (_extract_text_blocks page)
      <= length (or_nil (get_text_blocks page)))%nat.
Proof.
  unfold _extract_text_blocks. destruct (get_text_blocks page) as [bs|]; simpl.
  - destruct (text_blocks_loop_spec bs [] ltac:(constructor)) as [H1 H2].
    split; [exact H1 | simpl in H2; exact H2].
  - split; [constructor | lia].
Qed.

Lemma basename_from_spec (s : list N) :
  forall pre acc : list N,
    ~ In 47 acc ->
    (pre = [] \/ exists d, pre = d ++ [47]) ->
    exists dir,
      pre ++ acc ++ s = dir ++ basename_from s acc
      /\ (dir = [] \/ exists d, dir = d ++ [47])
      /\ ~ In 47 (basename_from s acc).
Proof.
  induction s as [|c s IH]; intros pre acc Hacc Hpre; simpl.
  - exists pre. rewrite app_nil_r. auto.
  - destruct (N.eqb_spec c 47) as [->|Hc].
    + destruct (IH (pre ++ acc ++ [47]) [] ltac:(simpl; tauto)) as (dir & E & Hd & Hn).
      { right. exists (pre ++ acc). now rewrite <- app_assoc. }
      exists dir. split; [|auto]. rewrite <- E. simpl. now rewrite <- !app_assoc.
    + destruct (IH pre (acc ++ [c])) as (dir & E & Hd & Hn); [|exact Hpre|].
      { rewrite in_app_iff. simpl. intros [H|[H|[]]]; [tauto | congruence]. }
      exists dir. split; [|auto]. rewrite <- E. now rewrite <- !app_assoc.
Qed.


End ExtractorEdges.

(** ** The analyzer: provider selection and the two HTTP paths *)

Section AnalyzerPaths.
Import Doc UniversalAIAnalyzer Spec.
Local Open Scope py_scope.

Lemma startswith_truthy (p k : str) :
  truthy p = true -> startswith p k = true -> truthy k = true.
Proof. destruct p, k; simpl; congruence. Qed.

Lemma long_truthy (k : str) : (20 <? len k)%Z = true -> truthy k = true.
Proof. destruct k; [discriminate | reflexivity]. Qed.

Lemma len_ltb (k : str) : (20 <? len k)%Z = (20 <? length k)%nat.
Proof.
  unfold len. destruct (Z.ltb_spec 20 (Z.of_nat (length k))), (Nat.ltb_spec 20 (length k));
    try reflexivity; lia.
Qed.

(** X10. The provider is the first one, in the order DeepSeek, Anthropic,
    Hugging Face, Google, OpenAI, whose key passes its check, and none
    when no key does; the keys are read without the whitespace around
    them, and reading them changes nothing. *)
Theorem provider_selection_order (w : world) :
  _detect_available_ai w = (Ret (List.find (key_passes w) selection_order), w).
Proof.
  unfold _detect_available_ai, getenv_stripped, getenv, bind, ret. cbn [fst snd].
  unfold selection_order, List.find, key_passes, provider_key, provider_variable.
  rewrite <- !len_ltb.
  set (kd := strip match environ w !! u "DEEPSEEK_API_KEY" with Some s => s | None => [] end).
  set (ka := strip match environ w !! u "ANTHROPIC_API_KEY" with Some s => s | None => [] end).
  set (kh := strip match environ w !! u "HUGGINGFACE_API_KEY" with Some s => s | None => [] end).
  set (kg := strip match environ w !! u "GOOGLE_API_KEY" with Some s => s | None => [] end).
  set (ko := strip match environ w !! u "OPENAI_API_KEY" with Some s => s | None => [] end).
  destruct (startswith (u "sk-") kd) eqn:Ed.
  { rewrite (startswith_truthy (u "sk-") _ eq_refl Ed). reflexivity. }
  rewrite andb_false_r.
  destruct (startswith (u "sk-ant-") ka) eqn:Ea.
  { rewrite (startswith_truthy (u "sk-ant-") _ eq_refl Ea). reflexivity. }
  rewrite andb_false_r.
  destruct (startswith (u "hf_") kh) eqn:Eh.
  { rewrite (startswith_truthy (u "hf_") _ eq_refl Eh). reflexivity. }
  destruct (20 <? len kh)%Z eqn:Eh2.
  { rewrite (long_truthy _ Eh2). reflexivity. }
  rewrite andb_false_r.
  destruct (20 <? len kg)%Z eqn:Eg.
  { rewrite (long_truthy _ Eg). reflexivity. }
  rewrite andb_false_r.
  destruct (startswith (u "sk-") ko) eqn:Eo.
  - rewrite (startswith_truthy (u "sk-") _ eq_refl Eo).
    destruct (20 <? len ko)%Z; reflexivity.
  - rewrite andb_false_r. reflexivity.
Qed.

(** *** Computations that leave the world alone *)

Lemma effect_free_ret {A} (a : A) : effect_free (ret a).
Proof. exists (Ret a). reflexivity. Qed.

Lemma effect_free_raise {A} (e : exn) : effect_free (@raise A e).
Proof. exists (Raise e). reflexivity. Qed.

Lemma effect_free_lift {A} (r : result A) : effect_free (lift r).
Proof. exists r. reflexivity. Qed.

Lemma effect_free_bind {A B} (m : M A) (k : A -> M B) :
  effect_free m -> (forall a, effect_free (k a)) -> effect_free (Eff.bind m k).
Proof.
  intros [out Hm] Hk. destruct out as [a|e].
  - destruct (Hk a) as [out' Ha]. exists out'. intros w. unfold bind. now rewrite Hm, Ha.
  - exists (Raise e). intros w. unfold bind. now rewrite Hm.
Qed.

Local Ltac effect_free_steps :=
  repeat first
    [ apply effect_free_ret | apply effect_free_raise | apply effect_free_lift
    | apply effect_free_bind; [|intros ?]
    | match goal with
      | |- effect_free (if ?b then _ else _) => destruct b
      | |- effect_free (match ?x with _ => _ end) => destruct x
      end ].

Lemma has_choices_effect_free (result : pyval) : effect_free (Dyn.has_choices result).
Proof. unfold Dyn.has_choices. effect_free_steps. Qed.

Lemma first_choice_effect_free (result : pyval) :
  effect_free (Dyn.first_choice_content result).
Proof. unfold Dyn.first_choice_content. effect_free_steps. Qed.

Lemma unfence_effect_free (search : str -> pyval -> Eff.result (option str)) (v : pyval) :
  effect_free (Dyn.unfence_with search v).
Proof. unfold Dyn.unfence_with. effect_free_steps. Qed.

(** *** The summary line *)

Lemma summarisable_spec (v : pyval) :
  summarisable v = true <->
  exists products n,
    Dyn.get v (u "products") (PList []) = Ret products /\ Dyn.len products = Ret n.
Proof.
  split.
  - destruct v as [| | | | | |d]; try discriminate. simpl.
    destruct (dict_get (u "products") d) as [x|].
    + destruct x; try discriminate; intros _; eexists _, _; split; reflexivity.
    + intros _. eexists _, _. split; reflexivity.
  - intros (products & n & Hg & Hl). destruct v as [| | | | | |d]; try discriminate.
    simpl in *. destruct (dict_get (u "products") d) as [x|]; [|reflexivity].
    injection Hg as <-. destruct x; try discriminate; reflexivity.
Qed.

Lemma summarisable_run (v : pyval) (w : world) :
  (let* products := lift (Dyn.get v (u "products") (PList [])) in
   let* n := lift (Dyn.len products) in
   ret v) w
  = (accept_or_raise v, w).
Proof.
  unfold bind, lift, ret, accept_or_raise.
  destruct v as [| | | | | |d]; try reflexivity. simpl.
  destruct (dict_get (u "products") d) as [x|]; [|reflexivity].
  destruct x; reflexivity.
Qed.

(** *** DeepSeek *)

Lemma unfence_lazy_run (t : str) (w : world) :
  strip_fence (PStr t) w = (Ret (PStr (unfence_lazy t)), w).
Proof.
  unfold strip_fence, Dyn.unfence_with, unfence_lazy, Dyn.search_lazy, Dyn.contains,
    bind, lift, ret.
  destruct (Py.contains (Re.fence ++ u "json") t).
  - destruct (Re.search_fence_lazy (u "json") t); reflexivity.
  - destruct (Py.contains Re.fence t); [|reflexivity].
    destruct (Re.search_fence_lazy [] t); reflexivity.
Qed.

(** [_analyze_with_deepseek] is the request, with its retry, followed by
    [deepseek_finish], all inside the outer [try]. *)
Lemma deepseek_unfold (content : content) :
  _analyze_with_deepseek content
  = try_except
      (let* key := getenv (u "DEEPSEEK_API_KEY") in
       let headers := deepseek_headers key in
       let* response :=
         try_except
           (requests_post deepseek_url headers
              (deepseek_payload deepseek_system (deepseek_prompt content)) (Some 180%Z))
           (fun e =>
              match e with
              | Timeout =>
                  Some (requests_post deepseek_url headers
                          (deepseek_payload deepseek_system (deepseek_retry_prompt content))
                          (Some 180%Z))
              | _ => None
              end) in
       deepseek_finish response)
      (any_exception (fun _ => ret _no_ai_configured)).
Proof. reflexivity. Qed.

(** What [deepseek_finish] makes of a response with status 200. *)
Lemma deepseek_finish_200 (r : response) :
  status_code r = 200%Z ->
  exists out,
    (forall w, deepseek_finish r w = (out, w))
    /\ (forall v, out = Ret v -> summarisable v = true)
    /\ (forall result t,
          Json.loads (Eff.text r) = Some result -> reply_content result = Some t ->
          out = accept_or_raise (_parse_ai_response (PStr (unfence_lazy t)))).
Proof.
  intros Hst. unfold deepseek_finish. rewrite Hst. cbn [Z.eqb Pos.eqb].
  unfold Dyn.response_json.
  destruct (Json.loads (Eff.text r)) as [result|].
  2:{ exists (Raise JSONDecodeError). repeat split; try discriminate. }
  destruct (has_choices_effect_free result) as [o1 H1].
  destruct (first_choice_effect_free result) as [o2 H2].
  assert (forall A (x : A) (k : A -> M pyval) w, ((let* y := lift (Ret x) in k y) w) = k x w)
    as Hl by reflexivity.
  destruct o1 as [[|]|e1].
  - destruct o2 as [a|e2].
    + destruct (unfence_effect_free Dyn.search_lazy a) as [o3 H3].
      fold (strip_fence a) in H3.
      destruct o3 as [a'|e3].
      * exists (accept_or_raise (_parse_ai_response a')).
        split; [|split].
        -- intros w. rewrite Hl. unfold bind at 1. rewrite H1. unfold bind at 1. rewrite H2.
           unfold bind at 1. rewrite H3. apply summarisable_run.
        -- intros v. unfold accept_or_raise.
           destruct (summarisable (_parse_ai_response a')) eqn:E; [|discriminate].
           intros [= <-]. exact E.
        -- intros result0 t [= <-] Ht.
           destruct (first_choice_run result sample_world) as (o & Ho & Hc).
           rewrite H2 in Ho. injection Ho as <-. rewrite Ht in Hc. injection Hc as ->.
           pose proof (unfence_lazy_run t sample_world) as Hu. rewrite H3 in Hu.
           injection Hu as ->. reflexivity.
      * exists (Raise e3). split; [|split; [discriminate|]].
        -- intros w. rewrite Hl. unfold bind at 1. rewrite H1. unfold bind at 1. rewrite H2.
           unfold bind at 1. rewrite H3. reflexivity.
        -- intros result0 t [= <-] Ht.
           destruct (first_choice_run result sample_world) as (o & Ho & Hc).
           rewrite H2 in Ho. injection Ho as <-. rewrite Ht in Hc. injection Hc as ->.
           pose proof (unfence_lazy_run t sample_world) as Hu. rewrite H3 in Hu.
           discriminate.
    + exists (Raise e2). split; [|split; [discriminate|]].
      * intros w. rewrite Hl. unfold bind at 1. rewrite H1. unfold bind at 1. rewrite H2.
        reflexivity.
      * intros result0 t [= <-] Ht.
        destruct (first_choice_run result sample_world) as (o & Ho & Hc).
        rewrite H2 in Ho. injection Ho as <-. rewrite Ht in Hc. discriminate.
  - exists (Ret _no_ai_configured). split; [|split].
    + intros w. rewrite Hl. unfold bind at 1. rewrite H1. reflexivity.
    + intros v [= <-]. reflexivity.
    + intros result0 t [= <-] Ht.
      destruct (has_choices_run result sample_world) as (o & Ho & Hc).
      rewrite H1 in Ho. injection Ho as <-.
      specialize (Hc ltac:(congruence)). discriminate.
  - exists (Raise e1). split; [|split; [discriminate|]].
    + intros w. rewrite Hl. unfold bind at 1. rewrite H1. reflexivity.
    + intros result0 t [= <-] Ht.
      destruct (has_choices_run result sample_world) as (o & Ho & Hc).
      rewrite H1 in Ho. injection Ho as <-.
      specialize (Hc ltac:(congruence)). discriminate.
Qed.

Lemma deepseek_finish_other (r : response) (w : world) :
  status_code r <> 200%Z ->
  deepseek_finish r w
  = (Ret _no_ai_configured,
     set_stdout (stdout w ++ [api_error_line (status_code r) (Eff.text r)]) w).
Proof.
  intros H. apply Z.eqb_neq in H. unfold deepseek_finish. rewrite H. reflexivity.
Qed.

(** The whole of [_analyze_with_deepseek], by the script: after a timeout
    the second outcome decides, and else the first. *)
Lemma deepseek_run (content : content) (w : world) :
  _analyze_with_deepseek content w
  = match http_script w with
    | HttpTimeout :: sc =>
        deepseek_decide (head sc)
          (set_http (tl sc)
             (calls w ++ [deepseek_first content w; deepseek_second content w]) w)
    | sc =>
        deepseek_decide (head sc)
          (set_http (tl sc) (calls w ++ [deepseek_first content w]) w)
    end.
Proof.
  rewrite deepseek_unfold.
  unfold try_except at 1, bind at 1, getenv at 1. cbn [fst snd].
  unfold bind at 1, try_except at 1, requests_post at 1.
  unfold deepseek_first, deepseek_second, deepseek_request.
  destruct (http_script w) as [|[| |st body] sc] eqn:Hsc; cbn [head tl deepseek_decide].
  - reflexivity.
  - unfold requests_post. cbn [http_script set_http calls].
    rewrite <- app_assoc. cbn [app].
    destruct sc as [|[| |st body] sc']; reflexivity.
  - reflexivity.
  - reflexivity.
Qed.

Lemma deepseek_decide_returns (o : option http_outcome) (w1 : world) :
  exists v w',
    deepseek_decide o w1 = (Ret v, w')
    /\ summarisable v = true
    /\ same_but_network w1 w' /\ http_script w' = http_script w1
    /\ calls w' = calls w1 /\ sdk_script w' = sdk_script w1.
Proof.
  destruct o as [[| |st body]|]; cbn [deepseek_decide];
    try (eexists _, _; split; [reflexivity|]; split; [reflexivity|]; repeat split).
  destruct (Z.eq_dec st 200%Z) as [->|Hne].
  - destruct (deepseek_finish_200 (Build_response 200%Z body) eq_refl)
      as (out & Hrun & Hsum & _).
    rewrite Hrun. destruct out as [v|e]; cbn [settle].
    + eexists _, _. split; [reflexivity|]. split; [now apply Hsum|]. repeat split.
    + eexists _, _. split; [reflexivity|]. split; [reflexivity|]. repeat split.
  - rewrite deepseek_finish_other by exact Hne. cbn [settle status_code Eff.text].
    eexists _, _. split; [reflexivity|]. split; [reflexivity|]. repeat split.
Qed.

Lemma deepseek_decide_world (o : option http_outcome) (w1 w2 : world) :
  fst (deepseek_decide o w1) = fst (deepseek_decide o w2).
Proof.
  destruct o as [[| |st body]|]; cbn [deepseek_decide]; try reflexivity.
  destruct (Z.eq_dec st 200%Z) as [->|Hne].
  - destruct (deepseek_finish_200 (Build_response 200%Z body) eq_refl) as (out & Hrun & _).
    rewrite !Hrun. destruct out; reflexivity.
  - rewrite !deepseek_finish_other by exact Hne. reflexivity.
Qed.

(** X11. [_analyze_with_deepseek] returns in every case, whatever the
    transport and the provider do, and what it returns is a dictionary on
    which the summary line works. It sends one request, or two when the
    first one timed out, calls no client library, and leaves the
    environment, the files and the documents in memory alone. *)
Theorem deepseek_always_returns (content : content) (w : world) :
  exists v w',
    _analyze_with_deepseek content w = (Ret v, w')
    /\ summarisable v = true
    /\ same_but_network w w'
    /\ sdk_script w' = sdk_script w
    /\ ((calls w' = calls w ++ [deepseek_first content w]
         /\ http_script w' = tl (http_script w)
         /\ head (http_script w) <> Some HttpTimeout)
        \/ (calls w' = calls w ++ [deepseek_first content w; deepseek_second content w]
            /\ http_script w' = tl (tl (http_script w))
            /\ head (http_script w) = Some HttpTimeout)).
Proof.
  rewrite deepseek_run.
  destruct (http_script w) as [|[| |st body] sc] eqn:Hsc; cbv iota zeta;
    match goal with
    | |- context [deepseek_decide ?o ?w1] =>
        destruct (deepseek_decide_returns o w1)
          as (v & w' & -> & Hsum & Hsame & Hscr & Hcalls & Hsdk)
    end;
    exists v, w'; (split; [reflexivity|]); (split; [exact Hsum|]);
    (split; [exact Hsame|]); (split; [exact Hsdk|]);
    rewrite Hcalls, Hscr; cbn [calls http_script set_http head tl];
    first [ left; repeat split; discriminate | right; repeat split ].
Qed.

(** X12. A first request that times out is sent again once, to the same
    address with the same headers and the shorter prompt. The second
    outcome then decides as it would have decided as a first outcome; a
    second timeout, or any other failure of the transport, ends in the "AI
    not configured" document. *)
Theorem deepseek_timeout_retried_once (content : content) (w : world)
    (rest : list http_outcome) :
  http_script w = HttpTimeout :: rest ->
  exists v w',
    _analyze_with_deepseek content w = (Ret v, w')
    /\ calls w' = calls w ++ [deepseek_first content w; deepseek_second content w]
    /\ http_script w' = tl rest
    /\ (head rest <> Some HttpTimeout ->
        fst (_analyze_with_deepseek content (set_http rest (calls w) w)) = Ret v)
    /\ (head rest = Some HttpTimeout \/ head rest = Some HttpFailure \/ rest = [] ->
        v = _no_ai_configured).
Proof.
  intros Hsc. rewrite deepseek_run, Hsc.
  match goal with
  | |- context [deepseek_decide ?o ?w1] =>
      destruct (deepseek_decide_returns o w1)
        as (v & w' & Hrun & _ & _ & Hscr & Hcalls & _)
  end.
  exists v, w'. split; [exact Hrun|]. split; [exact Hcalls|]. split; [exact Hscr|].
  split.
  - intros Hne. rewrite deepseek_run. cbn [http_script set_http].
    destruct rest as [|[| |st body] rest']; cbv iota zeta;
      try (exfalso; apply Hne; reflexivity);
      erewrite deepseek_decide_world, Hrun; reflexivity.
  - intros H. destruct rest as [|[| |st body] rest']; cbn [head deepseek_decide] in *;
      try (injection Hrun as <- _; reflexivity).
    destruct H as [H|[H|H]]; discriminate.
Qed.

Lemma deepseek_timeout_retried_once_witness :
  exists v w',
    _analyze_with_deepseek empty_content
      (deepseek_world [HttpTimeout; HttpResponse 200 (envelope trailing_comma_example)])
    = (Ret v, w')
    /\ calls w'
       = calls (deepseek_world
                  [HttpTimeout; HttpResponse 200 (envelope trailing_comma_example)])
         ++ [deepseek_first empty_content
               (deepseek_world
                  [HttpTimeout; HttpResponse 200 (envelope trailing_comma_example)]);
             deepseek_second empty_content
               (deepseek_world
                  [HttpTimeout; HttpResponse 200 (envelope trailing_comma_example)])]
    /\ http_script w' = tl [HttpResponse 200 (envelope trailing_comma_example)]
    /\ (head [HttpResponse 200 (envelope trailing_comma_example)] <> Some HttpTimeout ->
        fst (_analyze_with_deepseek empty_content
               (set_http [HttpResponse 200 (envelope trailing_comma_example)]
                  (calls (deepseek_world
                            [HttpTimeout;
                             HttpResponse 200 (envelope trailing_comma_example)]))
                  (deepseek_world
                     [HttpTimeout; HttpResponse 200 (envelope trailing_comma_example)])))
        = Ret v)
    /\ (head [HttpResponse 200 (envelope trailing_comma_example)] = Some HttpTimeout
        \/ head [HttpResponse 200 (envelope trailing_comma_example)] = Some HttpFailure
        \/ [HttpResponse 200 (envelope trailing_comma_example)] = [] ->
        v = _no_ai_configured).
Proof.
  apply (deepseek_timeout_retried_once empty_content
           (deepseek_world [HttpTimeout; HttpResponse 200 (envelope trailing_comma_example)])
           [HttpResponse 200 (envelope trailing_comma_example)]).
  reflexivity.
Defined.

Lemma contains_prefix (a b s : str) :
  Py.contains (a ++ b) s = true -> Py.contains a s = true.
Proof.
  induction s as [|c s IH]; simpl.
  - rewrite !orb_false_r. destruct a; [reflexivity|]. simpl. discriminate.
  - intros H. apply orb_true_iff in H. destruct H as [H|H].
    + assert (startswith a (c :: s) = true) as ->; [|reflexivity].
      clear IH. revert H. generalize (c :: s).
      induction a as [|x a IHa]; intros l; [reflexivity|].
      destruct l as [|y l]; simpl; [discriminate|].
      intros H. apply andb_true_iff in H. destruct H as [-> H]. simpl. now apply IHa.
    + rewrite (IH H). apply orb_true_r.
Qed.

Lemma unfence_lazy_plain (t : str) :
  Py.contains Re.fence t = false -> unfence_lazy t = t.
Proof.
  intros H. unfold unfence_lazy. rewrite H.
  destruct (Py.contains (Re.fence ++ u "json") t) eqn:E; [|reflexivity].
  apply contains_prefix in E. congruence.
Qed.



Local Ltac literal_lengths :=
  repeat match goal with
         | |- context [length (u ?s)] =>
             let n := eval vm_compute in (length (u s)) in
             change (length (u s)) with n
         | |- context [length _get_analysis_prompt] =>
             let n := eval vm_compute in (length _get_analysis_prompt) in
             change (length _get_analysis_prompt) with n
         | |- context [length nl] => change (length nl) with 1%nat
         end.

(** X14. The prompt of the retry is shorter than the prompt of the first
    request, for every document, and never longer than 21797 characters:
    the fixed instructions and 20000 characters of text at most, without
    the tables. *)
Theorem deepseek_retry_prompt_shorter (content : content) :
  (len (deepseek_retry_prompt content) < len (deepseek_prompt content))%Z
  /\ (len (deepseek_retry_prompt content) <= 21797)%Z.
Proof.
  unfold deepseek_retry_prompt, deepseek_prompt, slice_to, len.
  rewrite !length_app, !length_firstn. literal_lengths.
  split; lia.
Qed.

(** *** Hugging Face *)

(** X15. [_analyze_with_huggingface] returns in every case, after exactly
    one request (a timeout is not retried), and what it returns has
    exactly one product: it is the fixed catalog around the summary for a
    response with status 200 whose body is a JSON list with a dictionary
    first, or a JSON value with no first element to look at, and the "AI
    not configured" document for every other outcome. *)
Theorem huggingface_always_returns (content : content) (w : world) :
  exists v w',
    _analyze_with_huggingface content w = (Ret v, w')
    /\ calls w' = calls w ++ [huggingface_request content w]
    /\ http_script w' = tl (http_script w)
    /\ same_but_network w w' /\ sdk_script w' = sdk_script w
    /\ one_product v /\ summarisable v = true
    /\ match http_script w with
       | HttpResponse st body :: _ =>
           if (st =? 200)%Z then
             match huggingface_summary body with
             | Some s => v = huggingface_catalog s
             | None => v = _no_ai_configured
             end
           else v = _no_ai_configured
       | _ => v = _no_ai_configured
       end.
Proof.
  assert (one_product _no_ai_configured) as Hone by (eexists; reflexivity).
  assert (forall s, one_product (huggingface_catalog s)) as Hcat
    by (intros s; eexists; reflexivity).
  unfold _analyze_with_huggingface, huggingface_request, huggingface_summary.
  unfold try_except at 1, bind at 1, getenv at 1. cbn [fst snd].
  unfold bind at 1, requests_post at 1.
  destruct (http_script w) as [|[| |st body] sc] eqn:Hsc; cbn [any_exception ret tl];
    try (eexists _, _; split; [reflexivity|]; repeat split; auto).
  cbn [status_code]. destruct (st =? 200)%Z eqn:Hst.
  2:{ eexists _, _. split; [reflexivity|]. repeat split; auto. }
  unfold bind at 1, lift at 1, Dyn.response_json. cbn [Eff.text].
  destruct (Json.loads body) as [result|] eqn:Hb;
    [|eexists _, _; split; [reflexivity|]; repeat split; auto].
  destruct result as [| | | | |l|];
    try (eexists _, _; split; [reflexivity|]; repeat split; auto).
  destruct l as [|first l];
    [eexists _, _; split; [reflexivity|]; repeat split; auto|].
  unfold bind at 1, lift at 1.
  destruct first as [| | | | | |d]; cbn [Dyn.get];
    try (eexists _, _; split; [reflexivity|]; repeat split; auto).
Qed.

(** *** [analyze_catalog] over the two HTTP paths *)

Lemma analyze_catalog_http (s : self) (content : content) (w : world) :
  ai_provider s = Some deepseek \/ ai_provider s = Some huggingface ->
  exists v w',
    analyze_catalog s content w = (Ret v, w')
    /\ summarisable v = true
    /\ ((ai_provider s = Some deepseek
         /\ _analyze_with_deepseek content w = (Ret v, w'))
        \/ (ai_provider s = Some huggingface
            /\ _analyze_with_huggingface content w = (Ret v, w'))).
Proof.
  intros Hp. unfold analyze_catalog, _analyze_with_vision_ai, _analyze_with_text_ai.
  destruct Hp as [Hp | Hp]; rewrite Hp.
  - destruct (deepseek_always_returns content w) as (v & w' & Hrun & Hsum & _).
    exists v, w'. split; [|split; [exact Hsum | left; split; [reflexivity | exact Hrun]]].
    destruct (use_vision s).
    + unfold bind at 1. rewrite Hrun. rewrite summarisable_run.
      unfold accept_or_raise. rewrite Hsum. reflexivity.
    + unfold bind at 1, try_except. rewrite Hrun. rewrite summarisable_run.
      unfold accept_or_raise. rewrite Hsum. reflexivity.
  - destruct (huggingface_always_returns content w)
      as (v & w' & Hrun & _ & _ & _ & _ & _ & Hsum & _).
    exists v, w'. split; [|split; [exact Hsum | right; split; [reflexivity | exact Hrun]]].
    destruct (use_vision s).
    + unfold bind at 1. rewrite Hrun. rewrite summarisable_run.
      unfold accept_or_raise. rewrite Hsum. reflexivity.
    + unfold bind at 1, try_except. rewrite Hrun. rewrite summarisable_run.
      unfold accept_or_raise. rewrite Hsum. reflexivity.
Qed.

(** X16. When the provider selected from the environment is DeepSeek or
    Hugging Face, building the analyzer and calling [analyze_catalog]
    raises nothing, in vision mode and in text mode, for every document
    and whatever the transport and the provider do: a dictionary on which
    the summary line works comes back, after one or two requests and no
    call of a client library. *)
Theorem structure_returns_with_http_provider (use_vision : bool) (content : content)
    (w : world) (p : provider) :
  List.find (key_passes w) selection_order = Some p ->
  p = deepseek \/ p = huggingface ->
  exists v w',
    structure use_vision content w = (Ret v, w')
    /\ summarisable v = true
    /\ sdk_script w' = sdk_script w
    /\ (length (calls w) < length (calls w') <= length (calls w) + 2)%nat.
Proof.
  intros Hfind Hp. unfold structure, __init__.
  unfold bind at 1. unfold bind at 1. rewrite provider_selection_order, Hfind.
  cbn [ret].
  destruct (analyze_catalog_http {| UniversalAIAnalyzer.use_vision := use_vision;
                                    ai_provider := Some p |} content w)
    as (v & w' & Hrun & Hsum & Hsame).
  { cbn [ai_provider]. destruct Hp as [-> | ->]; auto. }
  exists v, w'. split; [exact Hrun|]. split; [exact Hsum|].
  cbn [ai_provider] in Hsame. destruct Hsame as [[_ Hsame] | [_ Hsame]].
  - destruct (deepseek_always_returns content w) as (v0 & w0 & Hrun0 & _ & _ & Hsdk & Hc).
    rewrite Hrun0 in Hsame. injection Hsame as <- <-. split; [exact Hsdk|].
    destruct Hc as [(-> & _) | (-> & _)]; rewrite length_app; simpl; lia.
  - destruct (huggingface_always_returns content w)
      as (v0 & w0 & Hrun0 & Hc & _ & _ & Hsdk & _).
    rewrite Hrun0 in Hsame. injection Hsame as <- <-. split; [exact Hsdk|].
    rewrite Hc, length_app. simpl. lia.
Qed.

Lemma structure_returns_with_http_provider_witness :
  exists v w',
    structure false empty_content (deepseek_world [HttpFailure]) = (Ret v, w')
    /\ summarisable v = true
    /\ sdk_script w' = sdk_script (deepseek_world [HttpFailure])
    /\ (length (calls (deepseek_world [HttpFailure])) < length (calls w')
        <= length (calls (deepseek_world [HttpFailure])) + 2)%nat.
Proof.
  apply (structure_returns_with_http_provider false empty_content
           (deepseek_world [HttpFailure]) deepseek).
  - vm_compute. reflexivity.
  - left. reflexivity.
Defined.

(** *** The paths through a client library *)

Lemma first_full_page_run (imgs : list image_ref) (w : world) :
  first_full_page imgs w
  = (Ret (option_map img_path (List.find (full_page_on_disk (files w)) imgs)), w).
Proof.
  induction imgs as [|img imgs IH]; [reflexivity|].
  cbn [first_full_page List.find]. unfold full_page_on_disk at 1.
  destruct (str_eqb (img_type img) (u "full_page")); cbn [andb]; [|exact IH].
  unfold bind, path_exists.
  destruct (bool_decide (is_Some (files w !! img_path img))); [reflexivity | exact IH].
Qed.

Lemma select_images_run (ps : list page_content) (w : world) :
  select_images ps w
  = (Ret (omap (fun pg => option_map img_path
                            (List.find (full_page_on_disk (files w)) (images pg))) ps), w).
Proof.
  induction ps as [|pg ps IH]; [reflexivity|].
  cbn [select_images]. unfold bind at 1. rewrite first_full_page_run.
  unfold bind at 1. rewrite IH. unfold ret. cbn [omap list_omap].
  destruct (List.find _ (images pg)); reflexivity.
Qed.

Lemma find_on_disk (fs : gmap str (list N)) (imgs : list image_ref) (img : image_ref) :
  List.find (full_page_on_disk fs) imgs = Some img -> is_Some (fs !! img_path img).
Proof.
  intros H. apply find_some in H. destruct H as [_ H].
  unfold full_page_on_disk in H. apply andb_true_iff in H. destruct H as [_ H].
  now apply bool_decide_eq_true in H.
Qed.

Lemma images_to_analyze_on_disk (fs : gmap str (list N)) (ps : list page_content) :
  Forall (fun p => is_Some (fs !! p))
    (omap (fun pg => option_map img_path (List.find (full_page_on_disk fs) (images pg))) ps).
Proof.
  induction ps as [|pg ps IH]; [constructor|]. cbn [omap list_omap].
  destruct (List.find _ (images pg)) as [img|] eqn:E; cbn [option_map]; [|exact IH].
  constructor; [eapply find_on_disk; eauto | exact IH].
Qed.

Lemma read_images_run (paths : list str) (w : world) :
  Forall (fun p => is_Some (files w !! p)) paths ->
  read_images paths w = (Ret (omap (fun p => files w !! p) paths), w)
  /\ length (omap (fun p => files w !! p) paths) = length paths.
Proof.
  induction 1 as [|p paths [b Hb] _ [IH1 IH2]]; [split; reflexivity|].
  cbn [read_images omap list_omap]. unfold bind at 1, read_file. rewrite Hb.
  unfold bind at 1. rewrite IH1. split; [reflexivity|]. simpl. now rewrite IH2.
Qed.

(** Choosing and reading the images never fails: a render that is not on
    disk is passed over. *)
Lemma vision_images_run (content : content) (w : world) :
  (let* images_to_analyze := select_images (firstn 5 (pages content)) in
   read_images (firstn 3 images_to_analyze)) w
  = (Ret (vision_images (files w) content), w)
  /\ (length (vision_images (files w) content) <= 3)%nat.
Proof.
  unfold bind. rewrite select_images_run.
  fold (images_to_analyze (files w) content).
  pose proof (images_to_analyze_on_disk (files w) (firstn 5 (pages content))) as Hd.
  fold (images_to_analyze (files w) content) in Hd.
  destruct (read_images_run (firstn 3 (images_to_analyze (files w) content)) w) as [-> Hl].
  { now apply Forall_take. }
  split; [reflexivity|]. unfold vision_images. rewrite Hl, length_firstn. lia.
Qed.



(** *** The text and the tables that go into the prompts *)

Lemma join_nil_iff (sep : str) (parts : list str) :
  Forall (fun p => p <> []) parts -> (join sep parts = [] <-> parts = []).
Proof.
  intros H. split; [|intros ->; reflexivity].
  destruct H as [|p parts Hp _]; [reflexivity|]. simpl.
  destruct parts; [congruence|]. destruct p; [congruence | discriminate].
Qed.

Lemma filter_text_nil (ps : list page_content) :
  List.filter (fun page => truthy (text page)) ps = []
  <-> Forall (fun pg => text pg = []) ps.
Proof.
  induction ps as [|pg ps IH]; simpl.
  - split; [constructor | reflexivity].
  - destruct (text pg) eqn:E; simpl.
    + rewrite IH. split; [now constructor | now inversion 1].
    + split; [discriminate|]. inversion 1. congruence.
Qed.

(** X18. [_combine_text] passes over the pages without text: the
    combined text is empty exactly when no page has text, a page without
    text can be taken out of the document without changing it, and a
    document with one page of text gives the header of that page followed
    by its text. *)
Theorem combine_text_skips_empty_pages (content : content) :
  (_combine_text content = [] <-> Forall (fun pg => text pg = []) (pages content))
  /\ (forall before pg after,
        pages content = before ++ pg :: after -> text pg = [] ->
        _combine_text content = _combine_text (with_pages content (before ++ after)))
  /\ (forall pg, pages content = [pg] -> text pg <> [] ->
      _combine_text content = page_header pg ++ text pg).
Proof.
  unfold _combine_text. split; [|split].
  - rewrite join_nil_iff.
    + rewrite <- filter_text_nil.
      destruct (List.filter _ (pages content)); simpl; split; congruence.
    + apply Forall_map. apply Forall_forall. intros pg _. discriminate.
  - intros before pg after -> H. cbn [pages with_pages].
    rewrite !List.filter_app. cbn [List.filter]. rewrite H. reflexivity.
  - intros pg -> H. cbn [List.filter]. destruct (text pg) eqn:E; [congruence|].
    cbn [truthy map join]. rewrite E. unfold page_header.
    now rewrite <- !app_assoc.
Qed.

(** X19. [_extract_all_tables] lists the tables of all pages in the order
    of the document, each with the number of the page it is on; for a
    document whose count fields agree with its lists (every document of
    the extractor), there are as many entries as the [table_count] fields
    add up to. *)
Theorem all_tables_in_order (content : content) :
  map data (_extract_all_tables content) = concat (map tables (pages content))
  /\ Forall (fun t => exists pg, In pg (pages content)
                                 /\ page t = page_number pg /\ In (data t) (tables pg))
       (_extract_all_tables content)
  /\ (Forall counts_agree (pages content) ->
      Z.of_nat (length (_extract_all_tables content))
      = fold_right Z.add 0%Z (map table_count (pages content))).
Proof.
  unfold _extract_all_tables. split; [|split].
  - induction (pages content) as [|pg ps IH]; [reflexivity|].
    cbn [flat_map map concat]. rewrite map_app, IH, map_map. cbn [data].
    now rewrite map_id.
  - apply List.Forall_forall. intros t Ht. apply in_flat_map in Ht.
    destruct Ht as (pg & Hpg & Ht). apply in_map_iff in Ht.
    destruct Ht as (tb & <- & Htb). exists pg. auto.
  - induction 1 as [|pg ps (_ & Hc & _) _ IH]; [reflexivity|].
    cbn [flat_map map fold_right]. rewrite length_app, length_map, Hc. lia.
Qed.

End AnalyzerPaths.

(** ** The translator: the requests it sends, and its two helper calls *)

Section TranslatorCalls.
Import AITranslator Spec.
Local Open Scope py_scope.

Lemma same_but_memory_refl (w : world) : same_but_memory w w.
Proof. repeat split. Qed.

Lemma same_but_memory_trans (w1 w2 w3 : world) :
  same_but_memory w1 w2 -> same_but_memory w2 w3 -> same_but_memory w1 w3.
Proof.
  unfold same_but_memory. intros (?&?&?&?&?&?&?) (?&?&?&?&?&?&?).
  repeat split; congruence.
Qed.

Lemma quiet_effect_free {A} (m : M A) : effect_free m -> quiet m.
Proof.
  intros [out H] w r w' E. rewrite H in E. injection E as _ <-.
  apply same_but_memory_refl.
Qed.

Lemma quiet_ret {A} (a : A) : quiet (ret a).
Proof. intros w r w' [= _ <-]. apply same_but_memory_refl. Qed.

Lemma quiet_raise {A} (e : exn) : quiet (@raise A e).
Proof. intros w r w' [= _ <-]. apply same_but_memory_refl. Qed.

Lemma quiet_lift {A} (x : result A) : quiet (lift x).
Proof. intros w r w' [= _ <-]. apply same_but_memory_refl. Qed.

Lemma quiet_print (line : str) : quiet (print line).
Proof. intros w r w' [= _ <-]. repeat split. Qed.

Lemma quiet_bind {A B} (m : M A) (k : A -> M B) :
  quiet m -> (forall a, quiet (k a)) -> quiet (Eff.bind m k).
Proof.
  intros Hm Hk w r w' E. unfold bind in E.
  destruct (m w) as [[a|e] w1] eqn:E1.
  - eapply same_but_memory_trans; [eapply Hm; eauto | eapply Hk; eauto].
  - injection E as _ <-. eapply Hm; eauto.
Qed.

Lemma quiet_try {A} (body : M A) (h : exn -> M A) :
  quiet body -> (forall e, quiet (h e)) -> quiet (try_except body (any_exception h)).
Proof.
  intros Hb Hh w r w' E. unfold try_except, any_exception in E.
  destruct (body w) as [[a|e] w1] eqn:E1.
  - injection E as _ <-. eapply Hb; eauto.
  - eapply same_but_memory_trans; [eapply Hb; eauto | eapply Hh; eauto].
Qed.

Lemma quiet_deref (data : nat) : quiet (deref data).
Proof.
  intros w r w' E. unfold deref, bind, get_world in E.
  destruct (heap w !! data); injection E as _ <-; apply same_but_memory_refl.
Qed.

Lemma quiet_alloc (d : dict) : quiet (alloc d).
Proof. intros w r w' [= _ <-]. repeat split. Qed.

Lemma quiet_setitem (data : nat) (k : str) (v : pyval) : quiet (setitem data k v).
Proof.
  unfold setitem. apply quiet_bind; [apply quiet_deref|].
  intros d w r w' [= _ <-]. repeat split.
Qed.

Lemma quiet_tag_and_return (data : nat) (rtl : bool) (code : string) :
  quiet (tag_and_return data rtl code).
Proof.
  unfold tag_and_return.
  repeat (apply quiet_bind; [apply quiet_setitem | intros _]). apply quiet_ret.
Qed.

Lemma quiet_load_and_tag (x : pyval) (rtl : bool) (code : string) :
  quiet (load_and_tag x rtl code).
Proof.
  unfold load_and_tag. destruct x; try apply quiet_raise.
  destruct (Json.loads s) as [v|]; [|apply quiet_raise].
  destruct v; try apply quiet_raise.
  apply quiet_bind; [apply quiet_alloc | intros n].
  repeat (apply quiet_bind; [apply quiet_setitem | intros _]).
  apply quiet_bind; [apply quiet_deref | intros d'].
  repeat (apply quiet_bind; [apply quiet_lift | intros ?]). apply quiet_ret.
Qed.

Lemma translate_with_unfold (pf : str -> str) (sys : str) (rtl : bool)
    (code : string) (s : self) (data : nat) :
  translate_with pf sys rtl code s data
  = try_except
      (let* d := deref data in
       let* response :=
         requests_post api_url (headers_of s)
           (translation_payload sys (pf (Json.dumps (PDict d)))) (Some 180%Z) in
       translate_finish rtl code data response)
      (any_exception (fun _ => tag_and_return data rtl code)).
Proof. reflexivity. Qed.

Lemma quiet_translate_finish (rtl : bool) (code : string) (data : nat) (r : response) :
  quiet (translate_finish rtl code data r).
Proof.
  unfold translate_finish. apply quiet_bind.
  - destruct (status_code r =? 200)%Z; [|apply quiet_ret].
    apply quiet_bind; [apply quiet_lift | intros result].
    apply quiet_bind; [apply quiet_effect_free, has_choices_effect_free | intros ok].
    destruct ok; [|apply quiet_ret].
    apply quiet_bind; [apply quiet_effect_free, first_choice_effect_free | intros c].
    apply quiet_bind; [apply quiet_lift | intros a].
    apply quiet_bind; [apply quiet_effect_free, unfence_effect_free | intros a'].
    apply quiet_bind; [apply quiet_load_and_tag | intros n]. apply quiet_ret.
  - intros [n|]; [apply quiet_ret|].
    apply quiet_bind; [apply quiet_print | intros _]. apply quiet_tag_and_return.
Qed.

Lemma translate_with_network (pf : str -> str) (sys : str) (rtl : bool)
    (code : string) (s : self) (data : nat) (d : dict)
    (w w' : world) (r : result nat) :
  heap w !! data = Some d ->
  translate_with pf sys rtl code s data w = (r, w') ->
  calls w' = calls w ++ [HttpPost api_url (headers_of s)
                           (translation_payload sys (pf (Json.dumps (PDict d))))
                           (Some 180%Z)]
  /\ http_script w' = tl (http_script w)
  /\ sdk_script w' = sdk_script w /\ files w' = files w /\ environ w' = environ w.
Proof.
  intros Hd. rewrite translate_with_unfold.
  unfold try_except, bind at 1, deref at 1, bind at 1, get_world. rewrite Hd.
  unfold ret at 1. unfold bind at 1.
  set (req := HttpPost _ _ _ _).
  assert (forall w1 w2, same_but_memory w1 w2 ->
            calls w1 = calls w ++ [req] -> http_script w1 = tl (http_script w) ->
            sdk_script w1 = sdk_script w -> files w1 = files w -> environ w1 = environ w ->
            calls w2 = calls w ++ [req] /\ http_script w2 = tl (http_script w)
            /\ sdk_script w2 = sdk_script w /\ files w2 = files w
            /\ environ w2 = environ w) as Hfin.
  { intros w1 w2 (A & B & C & D & E & F & G) H1 H2 H3 H4 H5.
    repeat split; congruence. }
  unfold requests_post. fold req.
  destruct (http_script w) as [|[| |st body] sc] eqn:Hsc; cbn [any_exception tl];
    try (intros E; apply quiet_tag_and_return in E;
         eapply (Hfin _ _ E); reflexivity).
  destruct (translate_finish rtl code data _ _) as [[n|e] w2] eqn:E2;
    apply quiet_translate_finish in E2.
  - intros [= <- <-]. eapply (Hfin _ _ E2); reflexivity.
  - intros E. apply quiet_tag_and_return in E.
    eapply (Hfin _ _ (same_but_memory_trans _ _ _ E2 E)); reflexivity.
Qed.

(** X20. A translation to Persian or to Chinese sends exactly one request,
    whatever becomes of it: a timeout or any other failure is not tried
    again. The request goes to the DeepSeek address with a timeout of 180
    seconds and carries the JSON text of the caller's document (its first
    25000 characters); no client library is called and no file is
    touched. *)
Theorem translation_sends_one_request (s : self) (data : nat) (lang : str)
    (rtl : bool) (code : string) (d : dict) (w : world) :
  heap w !! data = Some d ->
  language_tags lang = Some (rtl, code) ->
  exists r w',
    translate_to_language s data lang w = (Ret r, w')
    /\ calls w' = calls w ++ [translation_request s rtl d]
    /\ http_script w' = tl (http_script w)
    /\ sdk_script w' = sdk_script w /\ files w' = files w /\ environ w' = environ w.
Proof.
  intros Hd Hlang. rewrite translate_to_language_tags, Hlang.
  destruct (translate_with_run (if rtl then persian_prompt else chinese_prompt)
              (if rtl then persian_system else chinese_system) rtl code s data d w Hd)
    as (r & w' & Hrun & _).
  exists r, w'. split; [exact Hrun|].
  exact (translate_with_network _ _ _ _ _ _ _ _ _ _ Hd Hrun).
Qed.
Lemma translation_sends_one_request_witness :
  exists r w',
    translate_to_language sample_translator 0%nat (u "Persian")
      (translator_world sample_catalog [HttpTimeout; HttpResponse 200 (u "{}")])
    = (Ret r, w')
    /\ calls w'
       = calls (translator_world sample_catalog [HttpTimeout; HttpResponse 200 (u "{}")])
         ++ [translation_request sample_translator true sample_catalog]
    /\ http_script w'
       = tl (http_script
               (translator_world sample_catalog [HttpTimeout; HttpResponse 200 (u "{}")]))
    /\ sdk_script w'
       = sdk_script (translator_world sample_catalog [HttpTimeout; HttpResponse 200 (u "{}")])
    /\ files w'
       = files (translator_world sample_catalog [HttpTimeout; HttpResponse 200 (u "{}")])
    /\ environ w'
       = environ (translator_world sample_catalog [HttpTimeout; HttpResponse 200 (u "{}")]).
Proof.
  apply (translation_sends_one_request sample_translator 0%nat (u "Persian") true "fa"
           sample_catalog
           (translator_world sample_catalog [HttpTimeout; HttpResponse 200 (u "{}")]));
    vm_compute; reflexivity.
Defined.

Lemma reply_cases (result : pyval) :
  exists o1 o2,
    (forall w, Dyn.has_choices result w = (o1, w))
    /\ (forall w, Dyn.first_choice_content result w = (o2, w))
    /\ match reply_content result with
       | Some t => o1 = Ret true /\ o2 = Ret (PStr t)
       | None => forall t, o1 = Ret true -> o2 <> Ret (PStr t)
       end.
Proof.
  destruct (has_choices_effect_free result) as [o1 H1].
  destruct (first_choice_effect_free result) as [o2 H2].
  exists o1, o2. split; [exact H1|]. split; [exact H2|].
  destruct (has_choices_run result sample_world) as (o & Ho & Hc).
  rewrite H1 in Ho. injection Ho as <-.
  destruct (first_choice_run result sample_world) as (o & Ho & Hc2).
  rewrite H2 in Ho. injection Ho as <-.
  destruct (reply_content result) as [t|].
  - split; [apply Hc; discriminate | exact Hc2].
  - intros t _. apply Hc2.
Qed.

Lemma strip_nil_truthy (text : str) :
  match text with [] => true | _ :: _ => false end || (Z.of_nat (length (strip text)) =? 0)%Z
  = bool_decide (strip text = []).
Proof.
  destruct text as [|c text]; [reflexivity|]. cbn [UniversalAIAnalyzer.truthy negb orb].
  destruct (strip (c :: text)); reflexivity.
Qed.



Lemma unfence_lazy_stripped (t : str) :
  strip (unfence_lazy (strip t)) = unfence_lazy (strip t).
Proof.
  unfold unfence_lazy.
  destruct (Py.contains (Re.fence ++ u "json") (strip t)).
  - destruct (Re.search_fence_lazy (u "json") (strip t)); apply strip_idem.
  - destruct (Py.contains Re.fence (strip t)); [|apply strip_idem].
    destruct (Re.search_fence_lazy [] (strip t)); apply strip_idem.
Qed.

Lemma parse_or_repair_parse (t : str) (v : pyval) :
  strip t = t -> parse_or_repair t = Some v ->
  UniversalAIAnalyzer._parse_ai_response (PStr t) = v.
Proof.
  intros Ht. unfold parse_or_repair, UniversalAIAnalyzer._parse_ai_response. rewrite Ht.
  destruct (Json.loads t); [congruence|]. intros ->. reflexivity.
Qed.

Lemma call_translation_api_unfold (s : self) (content target_lang instruction : str) :
  _call_translation_api s content target_lang instruction
  = try_except
      (let* response :=
         requests_post api_url (headers_of s)
           (translation_payload (api_system target_lang)
              (api_prompt content target_lang instruction))
           (Some 120%Z) in
       api_finish response)
      (any_exception (fun _ => ret PNone)).
Proof. reflexivity. Qed.

Lemma quiet_api_finish (r : response) : quiet (api_finish r).
Proof.
  unfold api_finish. apply quiet_bind.
  - destruct (status_code r =? 200)%Z; [|apply quiet_ret].
    apply quiet_bind; [apply quiet_lift | intros result].
    apply quiet_bind; [apply quiet_effect_free, has_choices_effect_free | intros ok].
    destruct ok; [|apply quiet_ret].
    apply quiet_bind; [apply quiet_effect_free, first_choice_effect_free | intros c].
    apply quiet_bind; [apply quiet_lift | intros a].
    apply quiet_bind; [apply quiet_effect_free, unfence_effect_free | intros a'].
    apply quiet_bind; [|intros v; apply quiet_ret].
    unfold loads_or_repair. destruct a'; try apply quiet_raise.
    destruct (Json.loads s); [apply quiet_ret|].
    destruct (Json.loads (Re.repair s)); [apply quiet_ret | apply quiet_raise].
  - intros [v|]; [apply quiet_ret|].
    apply quiet_bind; [apply quiet_print | intros _]. apply quiet_ret.
Qed.

(** The value of [api_finish]: what the reply parses to, and [None]
    otherwise, whether by an exception or not. *)
Lemma api_finish_value (st : Z) (body : str) (sc : list http_outcome) (w1 : world) :
  fst (settle_none (api_finish (Build_response st body) w1))
  = Ret (api_result (HttpResponse st body :: sc)).
Proof.
  unfold api_finish, api_result, reply_text. cbn [status_code].
  destruct (st =? 200)%Z; [|reflexivity].
  unfold bind at 1. unfold bind at 1, lift at 1, Dyn.response_json. cbn [Eff.text].
  destruct (Json.loads body) as [result|]; [|reflexivity].
  destruct (reply_cases result) as (o1 & o2 & H1 & H2 & Hc).
  unfold bind at 1. rewrite H1.
  destruct o1 as [[|]|e1].
  - unfold bind at 1. rewrite H2. destruct o2 as [c|e2].
    + destruct c as [| | | |t0| |];
        try (destruct (reply_content result) as [t|];
             [destruct Hc as [_ Hc]; discriminate | reflexivity]).
      destruct (reply_content result) as [t|].
      2:{ now destruct (Hc t0 eq_refl). }
      destruct Hc as [_ [= ->]].
      unfold bind at 1. cbn [lift Dyn.strip]. unfold bind at 1.
      fold (UniversalAIAnalyzer.strip_fence (PStr (strip t))).
      rewrite unfence_lazy_run. unfold bind at 1, loads_or_repair, parse_or_repair.
      destruct (Json.loads (unfence_lazy (strip t))) as [v|]; [reflexivity|].
      destruct (Json.loads (Re.repair (unfence_lazy (strip t)))) as [v|]; reflexivity.
    + destruct (reply_content result) as [t|];
        [destruct Hc as [_ Hc]; discriminate | reflexivity].
  - destruct (reply_content result) as [t|];
      [destruct Hc as [Hc _]; discriminate | reflexivity].
  - destruct (reply_content result) as [t|];
      [destruct Hc as [Hc _]; discriminate | reflexivity].
Qed.


End TranslatorCalls.

(** ** The converter: the names of the files it writes *)

Section Naming.
Import UniversalPDFConverter Spec.

Lemma Forall_lstrip (P : char -> Prop) (s : str) : Forall P s -> Forall P (lstrip s).
Proof.
  induction 1 as [|c s Hc Hs IH]; [constructor|]. simpl.
  destruct (isspace c); [exact IH | now constructor].
Qed.

Lemma Forall_strip (P : char -> Prop) (s : str) : Forall P s -> Forall P (strip s).
Proof.
  intros H. unfold strip, rstrip.
  apply Forall_rev, Forall_lstrip, Forall_rev, Forall_lstrip, H.
Qed.

(** Text without the first character of [old] holds no occurrence. *)
Lemma replace_from_clean (old new : str) (c0 : char) (old' pre s : str) :
  old = c0 :: old' -> Forall (fun c => c <> c0) pre ->
  replace_from old new 0 (pre ++ s) = pre ++ replace_from old new 0 s.
Proof.
  intros -> H. induction H as [|c pre Hc _ IH]; [reflexivity|].
  cbn [app replace_from startswith].
  destruct (N.eqb_spec c0 c) as [E|E]; [congruence|]. cbn [andb]. now rewrite IH.
Qed.

Lemma replace_absent (old new s : str) :
  Py.contains old s = false -> replace old new s = s.
Proof.
  unfold replace. induction s as [|c s IH]; [reflexivity|].
  cbn [Py.contains replace_from]. intros H. apply orb_false_iff in H. destruct H as [H1 H2].
  rewrite H1, (IH H2). reflexivity.
Qed.

Variable isalnum : char -> bool.

Lemma kept_not_dot (c : char) : isalnum 46 = false -> kept isalnum c = true -> c <> 46.
Proof. intros H Hk ->. unfold kept in Hk. rewrite H in Hk. discriminate. Qed.

Lemma base_name_kept (pdf_path : str) :
  Forall (fun c => kept isalnum c = true) (base_name isalnum pdf_path)
  /\ (length (base_name isalnum pdf_path) <= 100)%nat.
Proof.
  unfold base_name, slice_to. split.
  - apply Forall_take, Forall_strip. apply List.Forall_forall. intros c Hc.
    apply filter_In in Hc. tauto.
  - rewrite length_firstn. lia.
Qed.

(** X23. When no output name is given, the HTML file is named after the
    PDF file: a base of at most a hundred characters, each of them
    alphanumeric or a space, a hyphen or an underscore, followed by
    [_shopping_card.html]. The two JSON files then get the same base
    followed by [_shopping_card_extracted.json] and
    [_shopping_card_data.json], so that the three files have three
    different names. ([isalnum] is the table of [str.isalnum], in which
    the dot is not alphanumeric.) *)
Theorem default_names (pdf_path : str) :
  isalnum 46 = false ->
  (length (base_name isalnum pdf_path) <= 100)%nat
  /\ Forall (fun c => kept isalnum c = true) (base_name isalnum pdf_path)
  /\ extract_path (default_output isalnum pdf_path)
     = base_name isalnum pdf_path ++ u "_shopping_card_extracted.json"
  /\ struct_path (default_output isalnum pdf_path)
     = base_name isalnum pdf_path ++ u "_shopping_card_data.json"
  /\ extract_path (default_output isalnum pdf_path) <> default_output isalnum pdf_path
  /\ struct_path (default_output isalnum pdf_path) <> default_output isalnum pdf_path
  /\ extract_path (default_output isalnum pdf_path)
     <> struct_path (default_output isalnum pdf_path).
Proof.
  intros Hdot. destruct (base_name_kept pdf_path) as [Hk Hl].
  assert (forall new,
            replace (u ".html") new (default_output isalnum pdf_path)
            = base_name isalnum pdf_path ++ u "_shopping_card" ++ new) as Hr.
  { intros new. unfold replace, default_output.
    change (u "_shopping_card.html") with (u "_shopping_card" ++ u ".html").
    rewrite (replace_from_clean (u ".html") new 46 (u "html")); [|reflexivity|].
    - rewrite (replace_from_clean (u ".html") new 46 (u "html")); [|reflexivity|].
      + f_equal. f_equal. change (u ".html") with [46; 104; 116; 109; 108].
        cbn. apply app_nil_r.
      + vm_compute. repeat constructor; discriminate.
    - eapply Forall_impl; [exact Hk|]. intros c. now apply kept_not_dot. }
  unfold extract_path, struct_path. rewrite !Hr.
  split; [exact Hl|]. split; [exact Hk|].
  split; [reflexivity|]. split; [reflexivity|].
  unfold default_output.
  repeat split; intros H; apply app_inv_head in H; vm_compute in H; discriminate.
Qed.

End Naming.

Lemma default_names_witness :
  (length (UniversalPDFConverter.base_name Spec.ascii_alnum (u "catalogs/A-100 (2024).pdf"))
   <= 100)%nat
  /\ Forall (fun c => UniversalPDFConverter.kept Spec.ascii_alnum c = true)
       (UniversalPDFConverter.base_name Spec.ascii_alnum (u "catalogs/A-100 (2024).pdf"))
  /\ UniversalPDFConverter.extract_path
       (UniversalPDFConverter.default_output Spec.ascii_alnum
          (u "catalogs/A-100 (2024).pdf"))
     = UniversalPDFConverter.base_name Spec.ascii_alnum (u "catalogs/A-100 (2024).pdf")
       ++ u "_shopping_card_extracted.json"
  /\ UniversalPDFConverter.struct_path
       (UniversalPDFConverter.default_output Spec.ascii_alnum
          (u "catalogs/A-100 (2024).pdf"))
     = UniversalPDFConverter.base_name Spec.ascii_alnum (u "catalogs/A-100 (2024).pdf")
       ++ u "_shopping_card_data.json"
  /\ UniversalPDFConverter.extract_path
       (UniversalPDFConverter.default_output Spec.ascii_alnum
          (u "catalogs/A-100 (2024).pdf"))
     <> UniversalPDFConverter.default_output Spec.ascii_alnum
          (u "catalogs/A-100 (2024).pdf")
  /\ UniversalPDFConverter.struct_path
       (UniversalPDFConverter.default_output Spec.ascii_alnum
          (u "catalogs/A-100 (2024).pdf"))
     <> UniversalPDFConverter.default_output Spec.ascii_alnum
          (u "catalogs/A-100 (2024).pdf")
  /\ UniversalPDFConverter.extract_path
       (UniversalPDFConverter.default_output Spec.ascii_alnum
          (u "catalogs/A-100 (2024).pdf"))
     <> UniversalPDFConverter.struct_path
          (UniversalPDFConverter.default_output Spec.ascii_alnum
             (u "catalogs/A-100 (2024).pdf")).
Proof.
  apply (default_names Spec.ascii_alnum (u "catalogs/A-100 (2024).pdf")).
  reflexivity.
Defined.

(** X24. An output name that does not hold [.html] gets no JSON names of
    its own: [str.replace] finds nothing to replace, and the two JSON
    files are written under the name of the HTML file itself. *)
Theorem json_paths_need_html_suffix (output_html : str) :
  Py.contains (u ".html") output_html = false ->
  UniversalPDFConverter.extract_path output_html = output_html
  /\ UniversalPDFConverter.struct_path output_html = output_html.
Proof.
  intros H. unfold UniversalPDFConverter.extract_path, UniversalPDFConverter.struct_path.
  now rewrite !replace_absent.
Qed.

Lemma json_paths_need_html_suffix_witness :
  UniversalPDFConverter.extract_path (u "out/card.htm") = u "out/card.htm"
  /\ UniversalPDFConverter.struct_path (u "out/card.htm") = u "out/card.htm".
Proof.
  apply (json_paths_need_html_suffix (u "out/card.htm")). vm_compute. reflexivity.
Defined.
